(** * gobdd: the step-matching and execution engine

    A shallow embedding of [gobdd.go] and of the [formatter/cucumber]
    package, with the properties of the engine stated over it.

    Conventions.
    - Go strings and byte slices are [string]s (sequences of bytes); a rune is
      one byte, which is exact for ASCII text.
    - The package [regexp] and the floating-point part of [strconv] are
      external: the engine is written against the interfaces [RegexpLib] and
      [FloatLib]. [Module RE2] implements [RegexpLib] for the part of the RE2
      syntax that step patterns use, and [Module Strconv] implements
      [strconv.Atoi] and [strconv.ParseFloat] over the binary formats of
      [SpecFloat], so that the engine can be evaluated.
    - [testing.T], panics, [runtime.Goexit] and [defer] are modelled by the
      monad [M] over a [World]. *)

From Stdlib Require Import ZArith Ascii String List Bool Lia.
From Stdlib Require Floats.SpecFloat.
From stdpp Require Import base option list gmap strings.
Import ListNotations.

Open Scope Z_scope.
Open Scope nat_scope.

(* ===================================================================== *)
(** * Go strings *)
(* ===================================================================== *)

Module Strings.

(** [len(s)] *)
Definition len (s : string) : nat := String.length s.

(** [strings.HasPrefix(s, p)] *)
Fixpoint HasPrefix (s p : string) : bool :=
  match p, s with
  | EmptyString, _ => true
  | String _ _, EmptyString => false
  | String a p', String b s' => Ascii.eqb a b && HasPrefix s' p'
  end.

(** [strings.Contains(s, substr)] *)
Fixpoint Contains (s substr : string) : bool :=
  HasPrefix s substr ||
  match s with
  | EmptyString => false
  | String _ s' => Contains s' substr
  end.

(** The scan of [strings.Replace] for a non-empty [old]: [skip] counts the
    bytes of an occurrence that has just been replaced and are still to
    be dropped, which makes the replaced occurrences non-overlapping. *)
Fixpoint replaceFrom (old new : string) (skip : nat) (s : string) : string :=
  match s with
  | EmptyString => EmptyString
  | String c s' =>
      match skip with
      | S k => replaceFrom old new k s'
      | O =>
          if HasPrefix s old
          then new +:+ replaceFrom old new (len old - 1) s'
          else String c (replaceFrom old new 0 s')
      end
  end.

(** [strings.Replace] with an empty [old]: [new] goes in front of the string
    and after every rune. *)
Fixpoint intersperse (new : string) (s : string) : string :=
  match s with
  | EmptyString => EmptyString
  | String c s' => String c (new +:+ intersperse new s')
  end.

(** [strings.Replace(s, old, new, -1)] *)
Definition ReplaceAll (s old new : string) : string :=
  match old with
  | EmptyString => new +:+ intersperse new s
  | String _ _ => replaceFrom old new 0 s
  end.

(** [strings.TrimSpace] is only used to build sub-test names, which the
    model does not keep. *)

End Strings.

(* ===================================================================== *)
(** * strconv *)
(* ===================================================================== *)

Inductive NumError := ErrSyntax | ErrRange.

Module Strconv.

Local Open Scope Z_scope.

(** [strconv.IntSize] of the 64-bit targets. *)
Definition intSize : Z := 64.
Definition maxInt : Z := 2 ^ (intSize - 1) - 1.
Definition minInt : Z := - 2 ^ (intSize - 1).
Definition maxUint64 : Z := 2 ^ 64 - 1.

Definition isDigit (c : ascii) : bool :=
  ((48 <=? nat_of_ascii c) && (nat_of_ascii c <=? 57))%nat.

Definition digitVal (c : ascii) : Z := Z.of_nat (nat_of_ascii c - 48).

(** [lower(c)], that is [c | ('x' - 'X')] *)
Definition lower (c : ascii) : ascii := ascii_of_N (N.lor (N_of_ascii c) 32).

(** ** atoi.go *)

(** The smallest number whose product with the base 10 is past [uint64] *)
Definition cutoff : Z := maxUint64 / 10 + 1.

(** The loop of [ParseUint(s, 10, 0)] over the bytes of [s], with [n] the
    value of the digits read. A byte that is no decimal digit is a syntax
    error with the value 0: a letter is a digit too large for the base, and
    an underscore is only read with the base 0. A digit that takes the
    value past [uint64] is a range error, answered at that digit with the
    greatest [uint64]: the bytes after it are not read. The product and
    the sum are those of [uint64]. *)
Fixpoint parseUintLoop (n : Z) (s : string) : Z * option NumError :=
  match s with
  | EmptyString => (n, None)
  | String c s' =>
      if isDigit c then
        if cutoff <=? n then (maxUint64, Some ErrRange)
        else
          let n10 := (n * 10) mod 2 ^ 64 in
          let n1 := (n10 + digitVal c) mod 2 ^ 64 in
          if (n1 <? n10) || (maxUint64 <? n1) then (maxUint64, Some ErrRange)
          else parseUintLoop n1 s'
      else (0, Some ErrSyntax)
  end.

(** [ParseUint(s, 10, 0)] *)
Definition ParseUint (s : string) : Z * option NumError :=
  match s with
  | EmptyString => (0, Some ErrSyntax)
  | String _ _ => parseUintLoop 0 s
  end.

(** [ParseInt(s, 10, 0)]: one leading sign is taken off, the rest is read
    by [ParseUint]. A syntax error gives 0; a magnitude that [int64] does
    not hold, the range error of [ParseUint] among them, gives the bound of
    [int64] on the side of the sign. *)
Definition ParseInt (s : string) : Z * option NumError :=
  match s with
  | EmptyString => (0, Some ErrSyntax)
  | String c s' =>
      let neg := Ascii.eqb c "-" in
      let body := if Ascii.eqb c "+" || neg then s' else s in
      match ParseUint body with
      | (_, Some ErrSyntax) => (0, Some ErrSyntax)
      | (un, _) =>
          let cutoff := 2 ^ (intSize - 1) in
          if negb neg && (cutoff <=? un) then (cutoff - 1, Some ErrRange)
          else if neg && (cutoff <? un) then (- cutoff, Some ErrRange)
          else (if neg then - un else un, None)
      end
  end.

(** The loop of the fast path of [Atoi], which cannot overflow *)
Fixpoint atoiFast (n : Z) (s : string) : option Z :=
  match s with
  | EmptyString => Some n
  | String ch s' =>
      if isDigit ch then atoiFast (n * 10 + digitVal ch) s' else None
  end.

(** [strconv.Atoi]: the value and the error. Strings of 1 to 18 bytes take
    the fast path, the others go through [ParseInt]; [int] is [int64]. *)
Definition Atoi (s : string) : Z * option NumError :=
  let sLen := String.length s in
  if ((0 <? sLen) && (sLen <? 19))%nat then
    match s with
    | EmptyString => (0, Some ErrSyntax)
    | String c s' =>
        let signed := Ascii.eqb c "-" || Ascii.eqb c "+" in
        let body := if signed then s' else s in
        if signed && (String.length body <? 1)%nat then (0, Some ErrSyntax)
        else
          match atoiFast 0 body with
          | Some n => (if Ascii.eqb c "-" then - n else n, None)
          | None => (0, Some ErrSyntax)
          end
    end
  else ParseInt s.

(** ** atof.go

    Floating-point values are those of [SpecFloat]: zeros and infinities
    with their sign, NaN, and finite numbers [m * 2 ^ e] in the canonical
    form of the format, binary64 for [float64] and binary32 for
    [float32]. *)

Definition float64 : Type := SpecFloat.spec_float.
Definition float32 : Type := SpecFloat.spec_float.

Record floatInfo := { prec : Z; emax : Z }.
Definition float32info : floatInfo := {| prec := 24; emax := 128 |}.
Definition float64info : floatInfo := {| prec := 53; emax := 1024 |}.

(** The number [m * 2 ^ e] rounded to the nearest number of the format,
    ties to the even mantissa; past the greatest finite number it is an
    infinity. *)
Definition nearest (flt : floatInfo) (neg : bool) (m e : Z) : SpecFloat.spec_float :=
  SpecFloat.binary_normalize (prec flt) (emax flt) (if neg then - m else m) e neg.

(** The same for the quotient [num / den] of two natural numbers: the
    quotient is taken with three bits more than the mantissa holds, and a
    last bit that says whether anything is left below them. *)
Definition nearestRatio (flt : floatInfo) (neg : bool) (num den : Z)
    : SpecFloat.spec_float :=
  let k := Z.max 0 (prec flt + 3 + Z.log2 den - Z.log2 num) in
  let q := (num * 2 ^ k) / den in
  let sticky := if (num * 2 ^ k) mod den =? 0 then 0 else 1 in
  nearest flt neg (2 * q + sticky) (- (k + 1)).

(** The conversions [float64(f)] of a [float32], which is exact, and
    [float32(x)] of a [float64], which rounds. *)
Definition convert (flt : floatInfo) (x : SpecFloat.spec_float) : SpecFloat.spec_float :=
  match x with
  | SpecFloat.S754_finite s m e => SpecFloat.binary_round (prec flt) (emax flt) s m e
  | _ => x
  end.

Definition toFloat64 (f : float32) : float64 := convert float64info f.
Definition toFloat32 (x : float64) : float32 := convert float32info x.

Definition isInf (x : SpecFloat.spec_float) : bool :=
  match x with SpecFloat.S754_infinity _ => true | _ => false end.

Fixpoint commonPrefixLenIgnoreCase (s prefix : string) : nat :=
  match s, prefix with
  | String c s', String p prefix' =>
      let c := if ((65 <=? nat_of_ascii c) && (nat_of_ascii c <=? 90))%nat
               then ascii_of_nat (nat_of_ascii c + 32) else c in
      if Ascii.eqb c p then S (commonPrefixLenIgnoreCase s' prefix') else O
  | _, _ => O
  end.

(** [special]: the value and the number of bytes read, for a possibly
    signed [inf] or [infinity] and for [nan], in any case of the letters *)
Definition special (s : string) : option (SpecFloat.spec_float * nat) :=
  let infinity (neg : bool) (nsign : nat) (s : string) :=
    let n := commonPrefixLenIgnoreCase s "infinity" in
    let n := if ((3 <? n) && (n <? 8))%nat then 3%nat else n in
    if ((n =? 3) || (n =? 8))%nat
    then Some (SpecFloat.S754_infinity neg, (nsign + n)%nat) else None in
  match s with
  | EmptyString => None
  | String c s' =>
      if Ascii.eqb c "+" || Ascii.eqb c "-" then infinity (Ascii.eqb c "-") 1%nat s'
      else if Ascii.eqb c "i" || Ascii.eqb c "I" then infinity false 0%nat s
      else if Ascii.eqb c "n" || Ascii.eqb c "N" then
        if (commonPrefixLenIgnoreCase s "nan" =? 3)%nat
        then Some (SpecFloat.S754_nan, 3%nat) else None
      else None
  end.

(** What [underscoreOK] has seen last *)
Inductive saw := SawStart | SawDigit | SawUnderscore | SawOther.

Definition isHexLetter (c : ascii) : bool :=
  ((97 <=? nat_of_ascii (lower c)) && (nat_of_ascii (lower c) <=? 102))%nat.

Fixpoint underscoreLoop (hex : bool) (last : saw) (s : string) : bool :=
  match s with
  | EmptyString => match last with SawUnderscore => false | _ => true end
  | String c s' =>
      if isDigit c || (hex && isHexLetter c) then underscoreLoop hex SawDigit s'
      else if Ascii.eqb c "_" then
        match last with
        | SawDigit => underscoreLoop hex SawUnderscore s'
        | _ => false
        end
      else
        match last with
        | SawUnderscore => false
        | _ => underscoreLoop hex SawOther s'
        end
  end.

(** [underscoreOK]: an underscore stands between two digits, or between a
    base prefix and a digit. *)
Definition underscoreOK (s : string) : bool :=
  let s := match s with
           | String c s' => if Ascii.eqb c "-" || Ascii.eqb c "+" then s' else s
           | EmptyString => s
           end in
  match s with
  | String c0 (String c1 s') =>
      if Ascii.eqb c0 "0"
         && (Ascii.eqb (lower c1) "b" || Ascii.eqb (lower c1) "o" || Ascii.eqb (lower c1) "x")
      then underscoreLoop (Ascii.eqb (lower c1) "x") SawDigit s'
      else underscoreLoop false SawStart s
  | _ => underscoreLoop false SawStart s
  end.

(** The state of the loop of [readFloat] over the digits. [mantissa] holds
    every digit read, where the source keeps the first 19 (16 in base 16)
    and a flag for the rest: the nearest number is that of all the
    digits. *)
Record digitsRead := {
  sawdot : bool;
  sawdigits : bool;
  underscores : bool;
  nd : Z;
  dp : Z;
  mantissa : Z
}.

Fixpoint readDigits (hex : bool) (st : digitsRead) (s : string) : digitsRead * string :=
  match s with
  | EmptyString => (st, s)
  | String c s' =>
      if Ascii.eqb c "_" then
        readDigits hex {| sawdot := sawdot st; sawdigits := sawdigits st;
                          underscores := true; nd := nd st; dp := dp st;
                          mantissa := mantissa st |} s'
      else if Ascii.eqb c "." then
        if sawdot st then (st, s)
        else readDigits hex {| sawdot := true; sawdigits := sawdigits st;
                               underscores := underscores st; nd := nd st; dp := nd st;
                               mantissa := mantissa st |} s'
      else if isDigit c then
        if Ascii.eqb c "0" && (nd st =? 0) then
          readDigits hex {| sawdot := sawdot st; sawdigits := true;
                            underscores := underscores st; nd := nd st; dp := dp st - 1;
                            mantissa := mantissa st |} s'
        else
          readDigits hex {| sawdot := sawdot st; sawdigits := true;
                            underscores := underscores st; nd := nd st + 1; dp := dp st;
                            mantissa := mantissa st * (if hex then 16 else 10) + digitVal c |} s'
      else if hex && isHexLetter c then
        readDigits hex {| sawdot := sawdot st; sawdigits := true;
                          underscores := underscores st; nd := nd st + 1; dp := dp st;
                          mantissa := mantissa st * 16
                                      + Z.of_nat (nat_of_ascii (lower c) - 97 + 10) |} s'
      else (st, s)
  end.

(** The digits of the exponent, underscores among them; past 10000 the
    value is no longer counted. *)
Fixpoint readExponent (e : Z) (under : bool) (s : string) : Z * bool * string :=
  match s with
  | EmptyString => (e, under, s)
  | String c s' =>
      if Ascii.eqb c "_" then readExponent e true s'
      else if isDigit c then
        readExponent (if e <? 10000 then e * 10 + digitVal c else e) under s'
      else (e, under, s)
  end.

(** What [readFloat] returns when it accepts: the sign, the base, the
    mantissa and the exponent of the base 10 or, in base 16, of 2, and the
    bytes it has not read. *)
Record floatRead := {
  neg : bool;
  hex : bool;
  mant : Z;
  exp : Z;
  rest : string
}.

Definition readFloat (s : string) : option floatRead :=
  match s with
  | EmptyString => None
  | String c s' =>
      let neg := Ascii.eqb c "-" in
      let s1 := if Ascii.eqb c "+" || neg then s' else s in
      let hex := match s1 with
                 | String c0 (String c1 (String _ _)) =>
                     Ascii.eqb c0 "0" && Ascii.eqb (lower c1) "x"
                 | _ => false
                 end in
      let s2 := if hex then match s1 with
                            | String _ (String _ s2) => s2
                            | _ => s1
                            end
                else s1 in
      let '(st, s3) :=
        readDigits hex {| sawdot := false; sawdigits := false; underscores := false;
                          nd := 0; dp := 0; mantissa := 0 |} s2 in
      if negb (sawdigits st) then None
      else
        let dp := if sawdot st then dp st else nd st in
        let dp := if hex then dp * 4 else dp in
        let ndMant := if hex then nd st * 4 else nd st in
        let finish (dp : Z) (under : bool) (s4 : string) :=
          let i := (String.length s - String.length s4)%nat in
          if under && negb (underscoreOK (String.substring 0 i s)) then None
          else Some {| neg := neg; hex := hex; mant := mantissa st;
                       exp := if mantissa st =? 0 then 0 else dp - ndMant;
                       rest := s4 |} in
        match s3 with
        | String ce s4 =>
            if Ascii.eqb (lower ce) (if hex then "p" else "e")%char then
              match s4 with
              | EmptyString => None
              | String cs s5 =>
                  let eneg := Ascii.eqb cs "-" in
                  let s6 := if Ascii.eqb cs "+" || eneg then s5 else s4 in
                  match s6 with
                  | EmptyString => None
                  | String cd _ =>
                      if isDigit cd then
                        let '(e, under, s7) := readExponent 0 (underscores st) s6 in
                        finish (dp + (if eneg then - e else e)) under s7
                      else None
                  end
              end
            else if hex then None
            else finish dp (underscores st) s3
        | EmptyString => if hex then None else finish dp (underscores st) s3
        end
  end.

(** The value of what [readFloat] has read, as the nearest number of the
    format *)
Definition floatOf (flt : floatInfo) (r : floatRead) : SpecFloat.spec_float :=
  if hex r then nearest flt (neg r) (mant r) (exp r)
  else if 0 <=? exp r then nearest flt (neg r) (mant r * 10 ^ exp r) 0
  else nearestRatio flt (neg r) (mant r) (10 ^ (- exp r)).

(** [atof32] and [atof64]: the value, whether the whole of [s] was read,
    and the error. A number past the greatest finite one is an infinity
    with the range error. *)
Definition atof (flt : floatInfo) (s : string)
    : SpecFloat.spec_float * bool * option NumError :=
  match special s with
  | Some (val, n) => (val, (n =? String.length s)%nat, None)
  | None =>
      match readFloat s with
      | None => (SpecFloat.S754_zero false, false, Some ErrSyntax)
      | Some r =>
          let f := floatOf flt r in
          (f, match rest r with EmptyString => true | _ => false end,
           if isInf f then Some ErrRange else None)
      end
  end.

Definition parseFloatPrefix (s : string) (bitSize : Z)
    : float64 * bool * option NumError :=
  if bitSize =? 32 then
    let '(f, all, err) := atof float32info s in (toFloat64 f, all, err)
  else atof float64info s.

(** [strconv.ParseFloat]: bytes after the number are a syntax error, and
    with a syntax error the value is 0. *)
Definition ParseFloat (s : string) (bitSize : Z) : float64 * option NumError :=
  let '(f, all, err) := parseFloatPrefix s bitSize in
  match all, err with
  | false, None | false, Some ErrRange => (SpecFloat.S754_zero false, Some ErrSyntax)
  | _, _ => (f, err)
  end.

End Strconv.

(** Floating point is external: the types of the [float64] and [float32]
    values, [strconv.ParseFloat] and the conversion [float32(x)]. The laws
    are what the engine relies on: with a syntax error [ParseFloat] returns
    0, with a range error it returns an infinity, and [float32(x)] keeps
    both. *)
Class FloatLib (float64 float32 : Type) := {
  ParseFloat : string -> Z -> float64 * option NumError;
  toFloat32 : float64 -> float32;
  zero64 : float64;
  zero32 : float32;
  isInf64 : float64 -> bool;
  isInf32 : float32 -> bool;
  ParseFloat_syntax :
    forall s bitSize, snd (ParseFloat s bitSize) = Some ErrSyntax ->
                      fst (ParseFloat s bitSize) = zero64;
  ParseFloat_range :
    forall s bitSize, snd (ParseFloat s bitSize) = Some ErrRange ->
                      isInf64 (fst (ParseFloat s bitSize)) = true;
  toFloat32_zero : toFloat32 zero64 = zero32;
  toFloat32_inf : forall x, isInf64 x = true -> isInf32 (toFloat32 x) = true;
  zero64_finite : isInf64 zero64 = false;
  zero32_finite : isInf32 zero32 = false
}.

(* ===================================================================== *)
(** * regexp *)
(* ===================================================================== *)

(** What the engine uses of package [regexp]. A capture that did not take
    part in the match is a nil slice in Go and the empty string here. The two
    laws are the facts about [regexp] that the engine relies on: a text that
    [MatchString] accepts has a first match, so [FindAll] is not empty and
    [FindSubmatch] is not nil. *)
Class RegexpLib (Regexp : Type) := {
  Compile : string -> option Regexp;
  MatchString : Regexp -> string -> bool;
  FindAll : Regexp -> string -> list string;
  FindSubmatch : Regexp -> string -> option (list string);
  FindAll_of_match :
    forall re text, MatchString re text = true -> FindAll re text <> [];
  FindSubmatch_of_match :
    forall re text, MatchString re text = true ->
                    exists m caps, FindSubmatch re text = Some (m :: caps)
}.

(** ** A backtracking matcher for the RE2 syntax of step patterns

    Literals, [.], character classes with ranges and the Perl classes
    [\d \w \s], groups (capturing and [(?:...)]), alternation, the
    repetitions [* + ?] with their lazy forms, [^] and [$]. The matcher
    tries the alternatives in priority order, which gives the leftmost-first
    match of package [regexp]. [Compile] answers [None] on a syntax error and
    also on syntax outside this part (counted repetition, named classes,
    flags, [\b] and the like). *)
Module RE2.

Inductive token :=
| TLit (c : ascii)
| TDot
| TClass (neg : bool) (rs : list (ascii * ascii))
| TOpen (capture : bool)
| TClose
| TBar
| TStar
| TPlus
| TQuest
| TBegin
| TEnd.

Inductive node :=
| Eps
| Lit (c : ascii)
| AnyNotNL
| Class (neg : bool) (rs : list (ascii * ascii))
| BeginText
| EndText
| Seq (a b : node)
| Alt (a b : node)
| Star (greedy : bool) (a : node)
| Capture (i : nat) (a : node).

Record prog := { root : node; numCap : nat }.

(** *** Lexical analysis *)

Definition code (c : ascii) : nat := nat_of_ascii c.

Definition isAlnum (c : ascii) : bool :=
  ((48 <=? code c) && (code c <=? 57))
  || ((65 <=? code c) && (code c <=? 90))
  || ((97 <=? code c) && (code c <=? 122)).

Definition rng (lo hi : nat) : ascii * ascii :=
  (ascii_of_nat lo, ascii_of_nat hi).

Definition perlDigit : list (ascii * ascii) := [rng 48 57].
Definition perlWord : list (ascii * ascii) :=
  [rng 48 57; rng 65 90; rng 95 95; rng 97 122].
Definition perlSpace : list (ascii * ascii) :=
  [rng 9 10; rng 12 13; rng 32 32].

(** [\d], [\w], [\s] and their negations *)
Definition perlClass (c : ascii) : option (bool * list (ascii * ascii)) :=
  if Ascii.eqb c "d" then Some (false, perlDigit)
  else if Ascii.eqb c "w" then Some (false, perlWord)
  else if Ascii.eqb c "s" then Some (false, perlSpace)
  else if Ascii.eqb c "D" then Some (true, perlDigit)
  else if Ascii.eqb c "W" then Some (true, perlWord)
  else if Ascii.eqb c "S" then Some (true, perlSpace)
  else None.

(** The byte an escape stands for: an escaped punctuation byte is itself,
    and the control escapes of [parseEscape]. *)
Definition escapeChar (c : ascii) : option ascii :=
  if (code c <? 128) && negb (isAlnum c) then Some c
  else if Ascii.eqb c "n" then Some (ascii_of_nat 10)
  else if Ascii.eqb c "t" then Some (ascii_of_nat 9)
  else if Ascii.eqb c "r" then Some (ascii_of_nat 13)
  else if Ascii.eqb c "f" then Some (ascii_of_nat 12)
  else if Ascii.eqb c "v" then Some (ascii_of_nat 11)
  else if Ascii.eqb c "a" then Some (ascii_of_nat 7)
  else None.

(** One character of a class, [parseClassChar] *)
Definition classChar (s : string) : option (ascii * string) :=
  match s with
  | EmptyString => None
  | String c s' =>
      if Ascii.eqb c "\" then
        match s' with
        | EmptyString => None
        | String e s'' =>
            match escapeChar e with
            | Some x => Some (x, s'')
            | None => None
            end
        end
      else Some (c, s')
  end.

(** The body of a bracket expression up to its closing bracket, which is
    literal when it comes first. *)
Fixpoint lexClass (fuel : nat) (first : bool) (acc : list (ascii * ascii))
    (s : string) : option (list (ascii * ascii) * string) :=
  match fuel with
  | O => None
  | S fuel' =>
      match s with
      | EmptyString => None
      | String c s' =>
          if Ascii.eqb c "]" && negb first then Some (acc, s')
          else if Strings.HasPrefix s "[:" then None
          else
            match (if Ascii.eqb c "\" then
                     match s' with
                     | String e s'' =>
                         match perlClass e with
                         | Some (false, rs) => Some (inl (rs, s''))
                         | Some (true, _) => None
                         | None => Some (inr tt)
                         end
                     | EmptyString => None
                     end
                   else Some (inr tt)) with
            | None => None
            | Some (inl (rs, rest)) => lexClass fuel' false (acc ++ rs) rest
            | Some (inr _) =>
                match classChar s with
                | None => None
                | Some (lo, rest) =>
                    match rest with
                    | String d (String n rest') =>
                        if Ascii.eqb d "-" && negb (Ascii.eqb n "]") then
                          match classChar (String n rest') with
                          | None => None
                          | Some (hi, rest'') =>
                              if code hi <? code lo then None
                              else lexClass fuel' false (acc ++ [(lo, hi)]) rest''
                          end
                        else lexClass fuel' false (acc ++ [(lo, lo)]) rest
                    | _ => lexClass fuel' false (acc ++ [(lo, lo)]) rest
                    end
                end
            end
      end
  end.

Fixpoint lex (fuel : nat) (s : string) : option (list token) :=
  match fuel with
  | O => None
  | S fuel' =>
      match s with
      | EmptyString => Some []
      | String c s' =>
          let one (t : token) := cons t <$> lex fuel' s' in
          if Ascii.eqb c "(" then
            match s' with
            | String q s'' =>
                if Ascii.eqb q "?" then
                  match s'' with
                  | String k s3 =>
                      if Ascii.eqb k ":" then cons (TOpen false) <$> lex fuel' s3
                      else None
                  | EmptyString => None
                  end
                else one (TOpen true)
            | EmptyString => one (TOpen true)
            end
          else if Ascii.eqb c ")" then one TClose
          else if Ascii.eqb c "|" then one TBar
          else if Ascii.eqb c "*" then one TStar
          else if Ascii.eqb c "+" then one TPlus
          else if Ascii.eqb c "?" then one TQuest
          else if Ascii.eqb c "." then one TDot
          else if Ascii.eqb c "^" then one TBegin
          else if Ascii.eqb c "$" then one TEnd
          else if Ascii.eqb c "[" then
            let '(neg, body) :=
              match s' with
              | String n s'' => if Ascii.eqb n "^" then (true, s'') else (false, s')
              | EmptyString => (false, s')
              end in
            match lexClass (S (Strings.len body)) true [] body with
            | Some (rs, rest) => cons (TClass neg rs) <$> lex fuel' rest
            | None => None
            end
          else if Ascii.eqb c "{" then
            (* a brace that does not open a counted repetition is a literal *)
            match s' with
            | String d _ => if Strconv.isDigit d then None else one (TLit c)
            | EmptyString => one (TLit c)
            end
          else if Ascii.eqb c "\" then
            match s' with
            | EmptyString => None
            | String e s'' =>
                match perlClass e with
                | Some (neg, rs) => cons (TClass neg rs) <$> lex fuel' s''
                | None =>
                    match escapeChar e with
                    | Some x => cons (TLit x) <$> lex fuel' s''
                    | None => None
                    end
                end
            end
          else one (TLit c)
      end
  end.

(** *** Parsing: one pass over the tokens with a stack of open groups *)

Fixpoint mkSeq (atoms : list node) : node :=
  match atoms with
  | [] => Eps
  | [a] => a
  | a :: rest => Seq a (mkSeq rest)
  end.

Fixpoint mkAlt (first : node) (others : list node) : node :=
  match others with
  | [] => first
  | b :: rest => Alt first (mkAlt b rest)
  end.

(** The alternatives closed so far in a group and the atoms of the current
    one, last atom first. *)
Record level := { alts : list node; atoms : list node }.

Definition closeLevel (l : level) : node :=
  match alts l ++ [mkSeq (rev (atoms l))] with
  | [] => Eps
  | a :: rest => mkAlt a rest
  end.

Definition push (a : node) (l : level) : level :=
  {| alts := alts l; atoms := a :: atoms l |}.

(** An open group: its capture index, if it captures, and the level that
    encloses it. *)
Definition frame : Type := option nat * level.

Definition repeat (op : token) (greedy : bool) (a : node) : node :=
  match op with
  | TStar => Star greedy a
  | TPlus => Seq a (Star greedy a)
  | _ => if greedy then Alt a Eps else Alt Eps a
  end.

Definition isRepeat (t : token) : bool :=
  match t with
  | TStar | TPlus | TQuest => true
  | _ => false
  end.

(** [rep] tells that the previous token was a repetition, which may not be
    repeated again; [ncap] is the number of capture groups opened. *)
Fixpoint parse (ts : list token) (ncap : nat) (stack : list frame)
    (cur : level) (rep : bool) {struct ts} : option prog :=
  match ts with
  | [] =>
      match stack with
      | [] => Some {| root := closeLevel cur; numCap := ncap |}
      | _ :: _ => None
      end
  | t :: ts' =>
      if isRepeat t then
        if rep then None
        else
          match atoms cur with
          | [] => None
          | a :: before =>
              let lazy := match ts' with TQuest :: _ => true | _ => false end in
              let cur' := {| alts := alts cur;
                             atoms := repeat t (negb lazy) a :: before |} in
              match ts' with
              | TQuest :: ts'' => parse ts'' ncap stack cur' true
              | _ => parse ts' ncap stack cur' true
              end
          end
      else
        match t with
        | TLit c => parse ts' ncap stack (push (Lit c) cur) false
        | TDot => parse ts' ncap stack (push AnyNotNL cur) false
        | TClass neg rs => parse ts' ncap stack (push (Class neg rs) cur) false
        | TBegin => parse ts' ncap stack (push BeginText cur) false
        | TEnd => parse ts' ncap stack (push EndText cur) false
        | TOpen true =>
            parse ts' (S ncap) ((Some (S ncap), cur) :: stack)
              {| alts := []; atoms := [] |} false
        | TOpen false =>
            parse ts' ncap ((None, cur) :: stack) {| alts := []; atoms := [] |} false
        | TBar =>
            parse ts' ncap stack
              {| alts := alts cur ++ [mkSeq (rev (atoms cur))]; atoms := [] |} false
        | TClose =>
            match stack with
            | [] => None
            | (idx, outer) :: stack' =>
                let body := closeLevel cur in
                let g := match idx with
                         | Some i => Capture i body
                         | None => body
                         end in
                parse ts' ncap stack' (push g outer) false
            end
        | _ => None
        end
  end.

Definition Compile (expr : string) : option prog :=
  match lex (S (Strings.len expr)) expr with
  | Some ts => parse ts 0 [] {| alts := []; atoms := [] |} false
  | None => None
  end.

(** *** Matching *)

(** The groups closed so far, the latest first. *)
Definition caps : Type := list (nat * (nat * nat)).

Definition inClass (rs : list (ascii * ascii)) (c : ascii) : bool :=
  existsb (fun r => (code (fst r) <=? code c) && (code c <=? code (snd r))) rs.

(** [run r s pos cs k]: match [r] against the text [s] that starts at
    offset [pos], then continue with [k]. The first success is the
    preferred one. An iteration of a star that consumes nothing is given
    up, as the visited set of the backtracker does. *)
Fixpoint run {R : Type} (r : node) (s : string) (pos : nat) (cs : caps)
    (k : string -> nat -> caps -> option R) {struct r} : option R :=
  match r with
  | Eps => k s pos cs
  | Lit c =>
      match s with
      | String d s' => if Ascii.eqb c d then k s' (S pos) cs else None
      | EmptyString => None
      end
  | AnyNotNL =>
      match s with
      | String d s' => if code d =? 10 then None else k s' (S pos) cs
      | EmptyString => None
      end
  | Class neg rs =>
      match s with
      | String d s' => if xorb neg (inClass rs d) then k s' (S pos) cs else None
      | EmptyString => None
      end
  | BeginText => if pos =? 0 then k s pos cs else None
  | EndText =>
      match s with
      | EmptyString => k s pos cs
      | String _ _ => None
      end
  | Seq a b => run a s pos cs (fun s' pos' cs' => run b s' pos' cs' k)
  | Alt a b =>
      match run a s pos cs k with
      | Some x => Some x
      | None => run b s pos cs k
      end
  | Star greedy a =>
      (fix loop (fuel : nat) (s : string) (pos : nat) (cs : caps) : option R :=
         match fuel with
         | O => k s pos cs
         | S fuel' =>
             let again :=
               run a s pos cs
                 (fun s' pos' cs' =>
                    if pos' =? pos then None else loop fuel' s' pos' cs') in
             if greedy then
               match again with
               | Some x => Some x
               | None => k s pos cs
               end
             else
               match k s pos cs with
               | Some x => Some x
               | None => again
               end
         end) (S (Strings.len s)) s pos cs
  | Capture i a =>
      run a s pos cs (fun s' pos' cs' => k s' pos' ((i, (pos, pos')) :: cs'))
  end.

(** The leftmost match that begins at [pos] or later: where it begins,
    where it ends and its groups. [s] is the text from [pos] on. *)
Fixpoint search (r : node) (s : string) (pos : nat) : option (nat * nat * caps) :=
  match run r s pos [] (fun _ e cs => Some (pos, e, cs)) with
  | Some m => Some m
  | None =>
      match s with
      | EmptyString => None
      | String _ s' => search r s' (S pos)
      end
  end.

Fixpoint dropBytes (n : nat) (s : string) : string :=
  match n, s with
  | S n', String _ s' => dropBytes n' s'
  | _, _ => s
  end.

Definition slice (text : string) (b e : nat) : string :=
  String.substring b (e - b) text.

Definition MatchString (re : prog) (text : string) : bool :=
  match search (root re) text 0 with
  | Some _ => true
  | None => false
  end.

(** The loop of [allMatches]: an empty match that abuts the previous match
    is dropped, and the scan moves on by one byte after an empty match. *)
Fixpoint allMatches (fuel : nat) (re : prog) (text : string) (pos : nat)
    (prevMatchEnd : option nat) : list (nat * nat) :=
  match fuel with
  | O => []
  | S fuel' =>
      if Strings.len text <? pos then []
      else
        match search (root re) (dropBytes pos text) pos with
        | None => []
        | Some (b, e, _) =>
            let empty := e =? pos in
            let accept := negb (empty && bool_decide (prevMatchEnd = Some b)) in
            let pos' :=
              if empty
              then (if pos <? Strings.len text then S pos else S (Strings.len text))
              else e in
            (if accept then [(b, e)] else [])
              ++ allMatches fuel' re text pos' (Some e)
        end
  end.

(** [re.FindAll(text, -1)] *)
Definition FindAll (re : prog) (text : string) : list string :=
  map (fun m => slice text (fst m) (snd m))
      (allMatches (S (S (Strings.len text))) re text 0 None).

Definition group (text : string) (cs : caps) (i : nat) : string :=
  match List.find (fun c => fst c =? i) cs with
  | Some (_, (b, e)) => slice text b e
  | None => EmptyString
  end.

(** [re.FindSubmatch(text)]: the match, then the groups 1 to [numCap]. *)
Definition FindSubmatch (re : prog) (text : string) : option (list string) :=
  match search (root re) text 0 with
  | Some (b, e, cs) =>
      Some (slice text b e :: map (group text cs) (seq 1 (numCap re)))
  | None => None
  end.

End RE2.

(* ===================================================================== *)
(** * The document model (package [messages-go]) *)
(* ===================================================================== *)

Module Msgs.

Record Tag := { Tag_Name : string; Tag_Line : nat }.

Record Step := {
  Step_Location : nat;
  Step_Keyword : string;
  Step_Text : string;
  Step_Argument : option string
}.

(** A table row is the list of the values of its cells. *)
Record Examples := {
  TableHeader : list string;
  TableBody : list (list string)
}.

Record Scenario := {
  Scenario_Tags : list Tag;
  Scenario_Id : string;
  Scenario_Keyword : string;
  Scenario_Name : string;
  Scenario_Description : string;
  Scenario_Steps : list Step;
  Scenario_Examples : list Examples
}.

Record Background := { Background_Steps : list Step }.

(** The [oneof] of a feature child. *)
Inductive FeatureChild :=
| Child_Background (b : Background)
| Child_Scenario (sc : Scenario)
| Child_Rule.

Definition GetBackground (c : FeatureChild) : option Background :=
  match c with Child_Background b => Some b | _ => None end.

Definition GetScenario (c : FeatureChild) : option Scenario :=
  match c with Child_Scenario sc => Some sc | _ => None end.

Record Feature := {
  Feature_Tags : list Tag;
  Feature_Location : nat;
  Feature_Keyword : string;
  Feature_Name : string;
  Feature_Description : string;
  Feature_Children : list FeatureChild
}.

End Msgs.

(* ===================================================================== *)
(** * Control: how a Go call ends *)
(* ===================================================================== *)

(** A call returns, or unwinds its goroutine because of [runtime.Goexit]
    (what [t.FailNow] and [t.SkipNow] do) or of a panic; [Crash] is the end of
    the process, when a panic has left the goroutine of a test. *)
Inductive Outcome (A : Type) :=
| Done (a : A)
| Goexit
| Panic (v : string)
| Crash.

Arguments Done {A} a.
Arguments Goexit {A}.
Arguments Panic {A} v.
Arguments Crash {A}.

(* ===================================================================== *)
(** * Outcome records (package [formatter/cucumber]) *)
(* ===================================================================== *)

Module Cucumber.

(** The duration of a step is wall-clock time and is left out. *)
Record Stepresult := { ErrorMsg : string; RunStatus : string }.

Record Filelocation := { Location : string }.

Record Step := {
  StepResult : Stepresult;
  match_ : Filelocation;
  Step_Keyword : string;
  Step_Name : string;
  Step_Line : nat
}.

Record Tag := { Tag_Name : string; Tag_Linenumber : nat }.

Record Scenario := {
  Steps : list Step;
  Tags : list Tag;
  Scenario_Id : string;
  Scenario_Keyword : string;
  Scenario_Name : string;
  Scenario_Description : string;
  Scenario_Type : string
}.

Record Feature := {
  Elements : list Scenario;
  Uri : string;
  Feature_Id : string;
  Feature_Keyword : string;
  Feature_Name : string;
  Feature_Description : string;
  Feature_Linenumber : nat
}.

(** The zero value [Feature{}] *)
Definition zeroFeature : Feature :=
  {| Elements := []; Uri := EmptyString; Feature_Id := EmptyString;
     Feature_Keyword := EmptyString; Feature_Name := EmptyString;
     Feature_Description := EmptyString; Feature_Linenumber := 0 |}.

(** The zero value [Step{}] *)
Definition zeroStep : Step :=
  {| StepResult := {| ErrorMsg := EmptyString; RunStatus := EmptyString |};
     match_ := {| Location := EmptyString |};
     Step_Keyword := EmptyString; Step_Name := EmptyString; Step_Line := 0 |}.

Definition GenerateFeature (name id description : string) (line : nat) : Feature :=
  {| Elements := []; Uri := name; Feature_Id := id; Feature_Keyword := "Feature";
     Feature_Name := name; Feature_Description := description;
     Feature_Linenumber := line |}.

Definition AddScenario (f : Feature) (sc : Scenario) : Feature :=
  {| Elements := Elements f ++ [sc]; Uri := Uri f; Feature_Id := Feature_Id f;
     Feature_Keyword := Feature_Keyword f; Feature_Name := Feature_Name f;
     Feature_Description := Feature_Description f;
     Feature_Linenumber := Feature_Linenumber f |}.

Definition GenerateStep (keyword name : string) (line : nat) (location : string) : Step :=
  {| StepResult := {| ErrorMsg := EmptyString; RunStatus := EmptyString |};
     match_ := {| Location := location |};
     Step_Keyword := keyword; Step_Name := name; Step_Line := line |}.

Definition withSteps (sc : Scenario) (steps : list Step) : Scenario :=
  {| Steps := steps; Tags := Tags sc; Scenario_Id := Scenario_Id sc;
     Scenario_Keyword := Scenario_Keyword sc; Scenario_Name := Scenario_Name sc;
     Scenario_Description := Scenario_Description sc;
     Scenario_Type := Scenario_Type sc |}.

Definition AddStepObj (sc : Scenario) (step : Step) : Scenario :=
  withSteps sc (Steps sc ++ [step]).

Definition AddStep (sc : Scenario) (keyword name : string) (line : nat)
    (location result : string) : Scenario :=
  withSteps sc
    (Steps sc ++
     [{| StepResult := {| ErrorMsg := EmptyString; RunStatus := result |};
         match_ := {| Location := location |};
         Step_Keyword := keyword; Step_Name := name; Step_Line := line |}]).

Definition UpdateResult (s : Step) (status : string) : Step :=
  {| StepResult := {| ErrorMsg := EmptyString; RunStatus := status |};
     match_ := match_ s; Step_Keyword := Step_Keyword s;
     Step_Name := Step_Name s; Step_Line := Step_Line s |}.

Definition FormatTags (cucumberTags : list Msgs.Tag) : list Tag :=
  map (fun tg => {| Tag_Name := Msgs.Tag_Name tg;
                    Tag_Linenumber := Msgs.Tag_Line tg |}) cucumberTags.

Definition FormatFeature (gherkinFeature : Msgs.Feature) : Feature :=
  GenerateFeature (Msgs.Feature_Name gherkinFeature) (Msgs.Feature_Name gherkinFeature)
    (Msgs.Feature_Description gherkinFeature) (Msgs.Feature_Location gherkinFeature).

Definition FormatScenario (gherkinScenario : Msgs.Scenario) : Scenario :=
  {| Steps := []; Tags := FormatTags (Msgs.Scenario_Tags gherkinScenario);
     Scenario_Id := Msgs.Scenario_Id gherkinScenario;
     Scenario_Keyword := Msgs.Scenario_Keyword gherkinScenario;
     Scenario_Name := Msgs.Scenario_Name gherkinScenario;
     Scenario_Description := Msgs.Scenario_Description gherkinScenario;
     Scenario_Type := Msgs.Scenario_Keyword gherkinScenario |}.

(** [FormatScenarioWithSteps] of a scenario that is not nil *)
Definition FormatScenarioWithSteps (gherkinScenario : Msgs.Scenario)
    (stepstatus : string) : Scenario :=
  fold_left
    (fun sc steps =>
       AddStep sc (Msgs.Step_Keyword steps) (Msgs.Step_Text steps)
         (Msgs.Step_Location steps) EmptyString stepstatus)
    (Msgs.Scenario_Steps gherkinScenario) (FormatScenario gherkinScenario).

(** [FormatFeatureWithScenario] formats [child.GetScenario()] of every
    child. For a child that is not a scenario this pointer is nil, and
    ranging over its [Steps] is a nil dereference. *)
Fixpoint formatChildren (ft : Feature) (children : list Msgs.FeatureChild)
    : Outcome Feature :=
  match children with
  | [] => Done ft
  | child :: rest =>
      match Msgs.GetScenario child with
      | Some sc => formatChildren (AddScenario ft (FormatScenarioWithSteps sc EmptyString)) rest
      | None => Panic "invalid memory address or nil pointer dereference"
      end
  end.

Definition FormatFeatureWithScenario (gherkinFeature : Msgs.Feature) : Outcome Feature :=
  formatChildren (FormatFeature gherkinFeature) (Msgs.Feature_Children gherkinFeature).

End Cucumber.

(* ===================================================================== *)
(** * testing.T handles, the execution context, handlers and hooks *)
(* ===================================================================== *)

(** A [*testing.T]: its identity and the identities of the tests it is nested
    in, the nearest first. *)
Record T := { tid : nat; parents : list nat }.

(** The flags of a test: [t.Failed()] and [t.Skipped()]. *)
Record TState := { failed : bool; skipped : bool }.

(** The keys of the context: [TestingTKey{}], the key [time.Time{}] under
    which the start of a step is kept, and the keys of user code. *)
Inductive key := TestingTKey | TimeKey | UserKey (k : string).

Inductive value :=
| VNil
| VTestingT (t : T)
| VTime
| VStr (s : string)
| VInt (z : Z).

Global Instance key_eq_dec : EqDecision key.
Proof. solve_decision. Defined.

Global Instance key_countable : Countable key.
Proof.
  refine (inj_countable'
    (fun k => match k with
              | TestingTKey => inl true
              | TimeKey => inl false
              | UserKey s => inr s
              end)
    (fun x => match x with
              | inl true => TestingTKey
              | inl false => TimeKey
              | inr s => UserKey s
              end) _).
  intros []; reflexivity.
Defined.

(** A [Context] value holds a reference to a Go map: it is the address of
    that map in the store of the world. *)
Definition Context : Type := nat.

(** How a user function ends. *)
Inductive Ending :=
| Returns
| Panics (v : string)
| FailsNow
| SkipsNow.

(** What a call of a step function does with what it is given: it may report
    an error on its [StepTest] ([t.Error], [t.Fail]), it sets user keys of its
    context, in this order, and it ends. *)
Record Effect := {
  marksFailed : bool;
  sets : list (string * value);
  ending : Ending
}.

Inductive HookKind := BeforeScenario | AfterScenario | BeforeStep | AfterStep.

(** A hook [func(ctx Context)]: from the content of the context to the user
    keys it sets. Hooks return; they neither panic nor end the test. *)
Record Hook := {
  hookName : string;
  hookSets : gmap key value -> list (string * value)
}.

(** The types of the parameters of a step function, as far as [reflect]
    tells them apart here: [TBytes] is any type that a [[]uint8] can be
    assigned to, [TOther] any other type. *)
Inductive gotype :=
| TStepTest
| TContext
| TString
| TInt
| TFloat32
| TFloat64
| TBytes
| TOther.

Declare Scope go_scope.
Delimit Scope go_scope with go.
Open Scope go_scope.

Section Engine.

Context {Regexp float64 float32 : Type}.
Context {RL : RegexpLib Regexp} {FL : FloatLib float64 float32}.

(** The arguments of a reflective call. *)
Inductive gvalue :=
| GTesting (t : T)
| GContext (c : Context)
| GString (s : string)
| GInt (z : Z)
| GFloat32 (x : float32)
| GFloat64 (x : float64)
| GBytes (b : string).

(** A step function: the types of its parameters and what a call does,
    given the arguments and the content of the context. *)
Record StepFunc := {
  fname : string;
  fin : list gotype;
  fbody : list gvalue -> gmap key value -> Effect
}.

Record stepDef := { expr : Regexp; f : StepFunc }.

Record SuiteOptions := {
  featuresPaths : string;
  ignoreTags : list string;
  tags : list string;
  beforeScenario : list Hook;
  afterScenario : list Hook;
  beforeStep : list Hook;
  afterStep : list Hook;
  runInParallel : bool
}.

(** [parameterTypes] is a Go map; the list gives its entries in the order
    in which [range] visits them, which Go leaves open. *)
Record Suite := {
  t : T;
  steps : list stepDef;
  options : SuiteOptions;
  hasStepErrors : bool;
  parameterTypes : list (string * list string)
}.

Inductive Event :=
| HookCall (k : HookKind) (name : string)
| HandlerCall (name : string) (args : list gvalue).

(** The state of a run: the suite behind the pointer [s], the flags of
    the tests created so far (the identity of a test is its index), the
    maps of the contexts and the calls of user code so far. *)
Record World := {
  suite : Suite;
  tests : list TState;
  heap : gmap nat (gmap key value);
  trace : list Event
}.

Definition M (A : Type) : Type := World -> Outcome A * World.

Definition ret {A} (a : A) : M A := fun w => (Done a, w).

Definition bind {A B} (m : M A) (k : A -> M B) : M B :=
  fun w =>
    match m w with
    | (Done a, w') => k a w'
    | (Goexit, w') => (Goexit, w')
    | (Panic v, w') => (Panic v, w')
    | (Crash, w') => (Crash, w')
    end.

Definition lift {A} (o : Outcome A) : M A := fun w => (o, w).

Definition panic {A} (v : string) : M A := lift (Panic v).

Definition gets {A} (g : World -> A) : M A := fun w => (Done (g w), w).

Definition modify (g : World -> World) : M unit := fun w => (Done tt, g w).

Notation "x <- c ;; k" := (bind c (fun x => k))
  (at level 100, c at next level, right associativity) : go_scope.
Notation "c ;; k" := (bind c (fun _ => k))
  (at level 100, right associativity) : go_scope.


Definition setSuite (s : Suite) (w : World) : World :=
  {| suite := s; tests := tests w; heap := heap w; trace := trace w |}.

Definition setTests (ts : list TState) (w : World) : World :=
  {| suite := suite w; tests := ts; heap := heap w; trace := trace w |}.

Definition setHeap (h : gmap nat (gmap key value)) (w : World) : World :=
  {| suite := suite w; tests := tests w; heap := h; trace := trace w |}.

(** ** testing.T *)

Definition fail (st : TState) : TState :=
  {| failed := true; skipped := skipped st |}.

Definition skip (st : TState) : TState :=
  {| failed := failed st; skipped := true |}.

(** [t.Fail()]: the test and the tests it is nested in have failed. *)
Definition markFailed (t : T) (w : World) : World :=
  setTests (foldr (fun i ts => alter fail i ts) (tests w) (tid t :: parents t)) w.

Definition markSkipped (t : T) (w : World) : World :=
  setTests (alter skip (tid t) (tests w)) w.

Definition emit (e : Event) : M unit :=
  modify (fun w =>
    {| suite := suite w; tests := tests w; heap := heap w;
       trace := trace w ++ [e] |}).

(** [t.Error], [t.Errorf], [t.Fail]; the text of the message is not kept. *)
Definition tError (t : T) : M unit := modify (markFailed t).

(** [t.Fatal], [t.Fatalf], [t.FailNow] *)
Definition tFatal {A} (t : T) : M A := fun w => (Goexit, markFailed t w).

(** [t.SkipNow] *)
Definition tSkipNow {A} (t : T) : M A := fun w => (Goexit, markSkipped t w).

Definition tFailed (t : T) : M bool :=
  gets (fun w => from_option failed false (tests w !! tid t)).

Definition tSkipped (t : T) : M bool :=
  gets (fun w => from_option skipped false (tests w !! tid t)).

(** [t.Run(name, f)]: [f] runs in a goroutine of its own on a new test
    nested in [t], and [Run] waits for it. The answer is what [f] returned,
    or nothing when [f] left through [runtime.Goexit]. A panic that [f]
    does not recover ends the process. *)
Definition tRun {A} (t : T) (body : T -> M A) : M (option A) :=
  fun w =>
    let sub := {| tid := length (tests w); parents := tid t :: parents t |} in
    let w0 := setTests (tests w ++ [{| failed := false; skipped := false |}]) w in
    match body sub w0 with
    | (Done a, w') => (Done (Some a), w')
    | (Goexit, w') => (Done None, w')
    | (Panic _, w') => (Crash, w')
    | (Crash, w') => (Crash, w')
    end.

(** ** defer *)

(** [defer d] in front of [body]: [d] runs when [body] is left, however
    it is left, as long as the process lives. A deferred call that
    panics or exits replaces the way the function is left. *)
Definition defer {A} (d : M unit) (body : M A) : M A :=
  fun w =>
    match body w with
    | (Crash, w') => (Crash, w')
    | (o, w') =>
        match d w' with
        | (Done _, w'') => (o, w'')
        | (Goexit, w'') => (Goexit, w'')
        | (Panic v, w'') => (Panic v, w'')
        | (Crash, w'') => (Crash, w'')
        end
    end.

(** [defer func() { if r := recover(); r != nil { h(r) } }()]: a panic of
    [body] is stopped, [h] runs on its value and the function returns the
    zero value of its result. *)
Definition deferRecover {A} (zero : A) (h : string -> M unit) (body : M A) : M A :=
  fun w =>
    match body w with
    | (Panic v, w') =>
        match h v w' with
        | (Done _, w'') => (Done zero, w'')
        | (Goexit, w'') => (Goexit, w'')
        | (Panic v', w'') => (Panic v', w'')
        | (Crash, w'') => (Crash, w'')
        end
    | r => r
    end.

(** ** Loops *)

Fixpoint forEach {A} (l : list A) (body : A -> M unit) : M unit :=
  match l with
  | [] => ret tt
  | a :: rest => body a ;; forEach rest body
  end.

Fixpoint foldM {A S} (body : S -> A -> M S) (acc : S) (l : list A) : M S :=
  match l with
  | [] => ret acc
  | a :: rest => acc' <- body acc a ;; foldM body acc' rest
  end.

(** ** The execution context *)

(** Modelled from the spec: the execution context ([Context], [NewContext],
    [Set], [Get], [Clone]) is not among the sources. It is a mapping from
    keys to values; a context value refers to its mapping, so that [Set]
    is seen through every copy of the value, and [Clone] produces an
    independent copy: a new mapping with the same entries. *)
Definition NewContext : M Context :=
  fun w =>
    let a := fresh (dom (heap w)) in
    (Done a, setHeap (<[a := ∅]> (heap w)) w).

Definition content (ctx : Context) (w : World) : gmap key value :=
  default ∅ (heap w !! ctx).

Definition Set_ (ctx : Context) (k : key) (v : value) : M unit :=
  modify (fun w => setHeap (<[ctx := <[k := v]> (content ctx w)]> (heap w)) w).

Definition Get (ctx : Context) (k : key) : M (option value) :=
  gets (fun w => content ctx w !! k).

Definition Clone (ctx : Context) : M Context :=
  fun w =>
    let a := fresh (dom (heap w)) in
    (Done a, setHeap (<[a := content ctx w]> (heap w)) w).

(** The [ctx.Set] calls of user code *)
Definition applySets (ctx : Context) (l : list (string * value)) : M unit :=
  forEach l (fun kv => Set_ ctx (UserKey (fst kv)) (snd kv)).


(* ===================================================================== *)
(** * The suite: registration and lookup of step definitions *)
(* ===================================================================== *)


Definition getSuite : M Suite := gets suite.

(** [contains] tells whether [a] contains [x]. *)
Fixpoint contains (a : list string) (x : string) : bool :=
  match a with
  | [] => false
  | n :: rest => if String.eqb x n then true else contains rest x
  end.

(** [s.parameterTypes[from] = append(s.parameterTypes[from], to)] *)
Fixpoint appendFragment (from to : string) (pt : list (string * list string))
    : list (string * list string) :=
  match pt with
  | [] => [(from, [to])]
  | (k, frags) :: rest =>
      if String.eqb k from then (k, frags ++ [to]) :: rest
      else (k, frags) :: appendFragment from to rest
  end.

Definition setParameterTypes (pt : list (string * list string)) (s : Suite) : Suite :=
  {| t := t s; steps := steps s; options := options s;
     hasStepErrors := hasStepErrors s; parameterTypes := pt |}.

Definition setSteps (l : list stepDef) (s : Suite) : Suite :=
  {| t := t s; steps := l; options := options s;
     hasStepErrors := hasStepErrors s; parameterTypes := parameterTypes s |}.

Definition setHasStepErrors (b : bool) (s : Suite) : Suite :=
  {| t := t s; steps := steps s; options := options s;
     hasStepErrors := b; parameterTypes := parameterTypes s |}.

Definition modifySuite (g : Suite -> Suite) : M unit :=
  modify (fun w => setSuite (g (suite w)) w).

(** [AddParameterTypes]: a fragment that does not compile is fatal. *)
Fixpoint AddParameterTypes (from : string) (to : list string) : M unit :=
  match to with
  | [] => ret tt
  | to1 :: rest =>
      s <- getSuite ;;
      match Compile to1 with
      | None => tFatal (t s)
      | Some _ => ret tt
      end ;;
      modifySuite (fun s => setParameterTypes (appendFragment from to1 (parameterTypes s)) s) ;;
      AddParameterTypes from rest
  end.

(** Modelled from the spec: [validateStepFunc] is not among the sources.
    The first two parameters of a handler must accept a test-reporting
    handle and an execution context; the remaining parameters may be of
    any kind. *)
Definition validateStepFunc (step : StepFunc) : bool :=
  match fin step with
  | TStepTest :: TContext :: _ => true
  | _ => false
  end.

Definition applyParameterTypes (s : Suite) (expr : string) : list string :=
  expr ::
  flat_map
    (fun entry =>
       flat_map
         (fun t => if Strings.Contains expr (fst entry)
                   then [Strings.ReplaceAll expr (fst entry) t]
                   else [])
         (snd entry))
    (parameterTypes s).

(** The loop of [AddStep] over the expanded patterns: it stops at the
    first one that does not compile. *)
Fixpoint addCompiled (exprs : list string) (step : StepFunc) : M unit :=
  match exprs with
  | [] => ret tt
  | e :: rest =>
      match Compile e with
      | None =>
          s <- getSuite ;;
          tError (t s) ;;
          modifySuite (setHasStepErrors true)
      | Some compiled =>
          modifySuite (fun s => setSteps (steps s ++ [{| expr := compiled; f := step |}]) s) ;;
          addCompiled rest step
      end
  end.

Definition AddStep (e : string) (step : StepFunc) : M unit :=
  s <- getSuite ;;
  if validateStepFunc step then addCompiled (applyParameterTypes s e) step
  else tError (t s) ;; modifySuite (setHasStepErrors true).

Definition AddRegexStep (e : Regexp) (step : StepFunc) : M unit :=
  s <- getSuite ;;
  if validateStepFunc step
  then modifySuite (fun s => setSteps (steps s ++ [{| expr := e; f := step |}]) s)
  else tError (t s) ;; modifySuite (setHasStepErrors true).

(** The byte 34, the double quote of the [{text}] fragments. *)
Definition dquote : string := String (ascii_of_nat 34) EmptyString.

(** [NewSuite]: the world of a suite with the given options and the four
    built-in parameter types. *)
Definition emptyWorld (options : SuiteOptions) : World :=
  {| suite := {| t := {| tid := 0; parents := [] |}; steps := [];
                 options := options; hasStepErrors := false;
                 parameterTypes := [] |};
     tests := [{| failed := false; skipped := false |}]; heap := ∅; trace := [] |}.

Definition NewSuite : M unit :=
  AddParameterTypes "{int}" ["(\d)"] ;;
  AddParameterTypes "{float}" ["([-+]?\d*\.?\d*)"] ;;
  AddParameterTypes "{word}" ["([\d\w]+)"] ;;
  AddParameterTypes "{text}"
    [dquote +:+ "([\d\w\-\s]+)" +:+ dquote; "'([\d\w\-\s]+)'"].

(** One turn of the loop of [findStepDef]: [acc] is [found] and [sd], the
    zero [stepDef{}] being [None]. *)
Definition findStepDefStep (text : string) (acc : nat * option stepDef)
    (step : stepDef) : nat * option stepDef :=
  if negb (MatchString (expr step) text) then acc
  else
    let l := length (FindAll (expr step) text) in
    if fst acc <? l then (l, Some step) else acc.

(** [findStepDef]: [None] is the error [cannot find step definition]. *)
Definition findStepDef (s : Suite) (text : string) : option stepDef :=
  snd (fold_left (findStepDefStep text) (steps s) (0, None)).

Definition skipScenario (s : Suite) (scenarioTags : list Msgs.Tag) : bool :=
  if existsb (fun tag => contains (ignoreTags (options s)) (Msgs.Tag_Name tag)) scenarioTags
  then true
  else if length (tags (options s)) =? 0 then false
  else if existsb (fun tag => contains (tags (options s)) (Msgs.Tag_Name tag)) scenarioTags
  then false
  else true.

Definition getBackgroundSteps (bkg : Msgs.Background) : list Msgs.Step :=
  Msgs.Background_Steps bkg.

Definition getRegexpForVar (v : string) : string :=
  match snd (Strconv.Atoi v) with
  | None => "(\d+)"
  | Some _ =>
      match snd (ParseFloat v 32) with
      | None => "([+-]?([0-9]*[.])?[0-9]+)"
      | Some _ => "(.*)"
      end
  end.


(* ===================================================================== *)
(** * Scenario outlines *)
(* ===================================================================== *)


(** The loop of [stepFromExample]; [row.Cells[i]] panics when the row is
    shorter than the header. *)
Fixpoint stepFromExampleLoop (i : nat) (placeholders : list string)
    (row : list string) (stepName e : string) : Outcome (string * string) :=
  match placeholders with
  | [] => Done (stepName, e)
  | ph :: rest =>
      match row !! i with
      | None => Panic "index out of range"
      | Some cell =>
          stepFromExampleLoop (S i) rest row
            (Strings.ReplaceAll stepName ph cell)
            (Strings.ReplaceAll e ph (getRegexpForVar cell))
      end
  end.

Definition stepFromExample (stepName : string) (row : list string)
    (placeholders : list string) : Outcome (string * string) :=
  stepFromExampleLoop 0 placeholders row stepName stepName.

(** The body of the loop of [stepsFromExamples] over the rows *)
Definition stepsFromExamplesRow (sourceStep : Msgs.Step)
    (placeholdersValues : list string) (steps : list Msgs.Step)
    (row : list string) : M (list Msgs.Step) :=
  p <- lift (stepFromExample (Msgs.Step_Text sourceStep) row placeholdersValues) ;;
  s <- getSuite ;;
  match findStepDef s (fst p) with
  | None => ret steps
  | Some def =>
      AddStep (snd p) (f def) ;;
      ret (steps ++
           [{| Msgs.Step_Location := Msgs.Step_Location sourceStep;
               Msgs.Step_Keyword := Msgs.Step_Keyword sourceStep;
               Msgs.Step_Text := fst p;
               Msgs.Step_Argument := Msgs.Step_Argument sourceStep |}])
  end.

Definition stepsFromExamples (sourceStep : Msgs.Step) (example : Msgs.Examples)
    : M (list Msgs.Step) :=
  let placeholdersValues :=
    map (fun placeholder => "<" +:+ placeholder +:+ ">") (Msgs.TableHeader example) in
  foldM (stepsFromExamplesRow sourceStep placeholdersValues) [] (Msgs.TableBody example).

(** The second loop of [getOutlineStep]: [stepsList[si][ci]] for every
    example table, every row index [ci] of it and every step index [si].
    [stepsList] has one entry per step; the inner index panics when that
    entry is too short. *)
Fixpoint pickSteps (stepsList : list (list Msgs.Step)) (newSteps : list Msgs.Step)
    (sis : list nat) (ci : nat) : Outcome (list Msgs.Step) :=
  match sis with
  | [] => Done newSteps
  | si :: rest =>
      match stepsList !! si with
      | None => Panic "index out of range"
      | Some l =>
          match l !! ci with
          | None => Panic "index out of range"
          | Some st => pickSteps stepsList (newSteps ++ [st]) rest ci
          end
      end
  end.

Fixpoint pickRows (stepsList : list (list Msgs.Step)) (newSteps : list Msgs.Step)
    (nsteps : nat) (cis : list nat) : Outcome (list Msgs.Step) :=
  match cis with
  | [] => Done newSteps
  | ci :: rest =>
      match pickSteps stepsList newSteps (seq 0 nsteps) ci with
      | Done newSteps' => pickRows stepsList newSteps' nsteps rest
      | o => o
      end
  end.

Fixpoint pickExamples (stepsList : list (list Msgs.Step)) (newSteps : list Msgs.Step)
    (nsteps : nat) (examples : list Msgs.Examples) : Outcome (list Msgs.Step) :=
  match examples with
  | [] => Done newSteps
  | ex :: rest =>
      match pickRows stepsList newSteps nsteps (seq 0 (length (Msgs.TableBody ex))) with
      | Done newSteps' => pickExamples stepsList newSteps' nsteps rest
      | o => o
      end
  end.

Definition getOutlineStep (steps : list Msgs.Step) (examples : list Msgs.Examples)
    : M (list Msgs.Step) :=
  stepsList <-
    foldM (fun stepsList outlineStep =>
             l <- foldM (fun acc example =>
                           more <- stepsFromExamples outlineStep example ;;
                           ret (acc ++ more)) [] examples ;;
             ret (stepsList ++ [l])) [] steps ;;
  if length stepsList =? 0 then ret []
  else lift (pickExamples stepsList [] (length steps) examples).


(* ===================================================================== *)
(** * The scenario and step executor *)
(* ===================================================================== *)


(** The loop of the four [call...] functions over the hooks of one kind *)
Definition callHooks (k : HookKind) (hooks : list Hook) (ctx : Context) : M unit :=
  forEach hooks (fun h =>
    emit (HookCall k (hookName h)) ;;
    m <- gets (content ctx) ;;
    applySets ctx (hookSets h m)).

Definition callBeforeScenarios (ctx : Context) : M unit :=
  s <- getSuite ;; callHooks BeforeScenario (beforeScenario (options s)) ctx.

Definition callAfterScenarios (ctx : Context) : M unit :=
  s <- getSuite ;; callHooks AfterScenario (afterScenario (options s)) ctx.

Definition callBeforeSteps (ctx : Context) : M unit :=
  s <- getSuite ;; callHooks BeforeStep (beforeStep (options s)) ctx.

Definition callAfterSteps (ctx : Context) : M unit :=
  s <- getSuite ;; callHooks AfterStep (afterStep (options s)) ctx.

(** ** Argument coercion *)

(** [paramType]: the capture as a value of the kind of [inType]; the
    error of the conversion is dropped. Any other kind keeps the bytes. *)
Definition paramType (param : string) (inType : gotype) : gvalue :=
  match inType with
  | TString => GString param
  | TInt => GInt (fst (Strconv.Atoi param))
  | TFloat32 => GFloat32 (toFloat32 (fst (ParseFloat param 32)))
  | TFloat64 => GFloat64 (fst (ParseFloat param 32))
  | _ => GBytes param
  end.

(** What [reflect] checks before a call: the argument can be assigned to
    the parameter. *)
Definition assignable (v : gvalue) (ty : gotype) : bool :=
  match v, ty with
  | GTesting _, TStepTest => true
  | GContext _, TContext => true
  | GString _, TString => true
  | GInt _, TInt => true
  | GFloat32 _, TFloat32 => true
  | GFloat64 _, TFloat64 => true
  | GBytes _, TBytes => true
  | _, _ => false
  end.

Fixpoint allAssignable (args : list gvalue) (tys : list gotype) : bool :=
  match args, tys with
  | [], [] => true
  | v :: args', ty :: tys' => assignable v ty && allAssignable args' tys'
  | _, _ => false
  end.

(** [reflect.Value.Call]: the call panics when an argument does not fit;
    otherwise the function runs on the test [t] and the context [ctx] it
    was given. *)
Definition Call (fn : StepFunc) (t : T) (ctx : Context) (args : list gvalue) : M unit :=
  if allAssignable args (fin fn) then
    emit (HandlerCall (fname fn) args) ;;
    m <- gets (content ctx) ;;
    let e := fbody fn args m in
    (if marksFailed e then tError t else ret tt) ;;
    applySets ctx (sets e) ;;
    match ending e with
    | Returns => ret tt
    | Panics v => panic v
    | FailsNow => tFatal t
    | SkipsNow => tSkipNow t
    end
  else panic "reflect: Call using a value of the wrong type".

(** The loop of [run] over the captures: capture [i] is coerced to the
    type of parameter [i+2]. *)
Fixpoint coerce (params : list string) (tys : list gotype) : list gvalue :=
  match params, tys with
  | v :: params', ty :: tys' => paramType v ty :: coerce params' tys'
  | _, _ => []
  end.

(** [stepDef.run] *)
Definition run (def : stepDef) (ctx : Context) (t : T) (params : list string) : M unit :=
  deferRecover tt (fun _ => tError t)
    (if length params + 2 =? length (fin (f def)) then
       Call (f def) t ctx
         (GTesting t :: GContext ctx :: coerce params (drop 2 (fin (f def))))
     else tFatal t).

(** ** Steps *)

Definition formatStep (ctx : Context) : M unit := Set_ ctx TimeKey VTime.

Definition check (ctx : Context) : M unit :=
  testingObj <- Get ctx TestingTKey ;;
  match testingObj with
  | Some (VTestingT _) => ret tt
  | _ => panic "interface conversion: not a *testing.T"
  end.

Definition generateFormattedStep (ctx : Context) (step : Msgs.Step)
    (isfailed isskipped : bool) : M Cucumber.Step :=
  start <- Get ctx TimeKey ;;
  match start with
  | Some VTime =>
      let status :=
        if isskipped then "skipped" else if isfailed then "failed" else "passed" in
      ret (Cucumber.UpdateResult
             (Cucumber.GenerateStep (Msgs.Step_Keyword step) (Msgs.Step_Text step)
                (Msgs.Step_Location step) EmptyString)
             status)
  | _ => panic "interface conversion: not a time.Time"
  end.

(** The function that [runStep] hands to [t.Run] *)
Definition stepBody (def : stepDef) (ctx : Context) (params : list string)
    (t : T) : M (bool * bool) :=
  Set_ ctx TestingTKey (VTestingT t) ;;
  defer (Set_ ctx TestingTKey VNil)
    (callBeforeSteps ctx ;;
     defer (callAfterSteps ctx)
       (defer (check ctx)
          (run def ctx t params ;;
           failed <- tFailed t ;;
           skipped <- tSkipped t ;;
           ret (failed, skipped)))).

Definition runStep (ctx : Context) (t : T) (step : Msgs.Step) : M Cucumber.Step :=
  deferRecover Cucumber.zeroStep (fun _ => tError t)
    (s <- getSuite ;;
     def <- match findStepDef s (Msgs.Step_Text step) with
            | Some def => ret def
            | None => tFatal t
            end ;;
     params <- match FindSubmatch (expr def) (Msgs.Step_Text step) with
               | Some (_ :: caps) => ret caps
               | _ => panic "slice bounds out of range"
               end ;;
     r <- tRun t (stepBody def ctx params) ;;
     generateFormattedStep ctx step (fst (default (false, false) r))
       (snd (default (false, false) r))).

Definition runSteps (ctx : Context) (t : T) (steps : list Msgs.Step)
    (formattedscenario : Cucumber.Scenario) : M Cucumber.Scenario :=
  foldM (fun formattedscenario step =>
           formatStep ctx ;;
           formattedstep <- runStep ctx t step ;;
           ret (Cucumber.AddStepObj formattedscenario formattedstep))
        formattedscenario steps.

(** ** Scenarios *)

(** The zero value [cucumber.Scenario{}] *)
Definition zeroScenario : Cucumber.Scenario :=
  {| Cucumber.Steps := []; Cucumber.Tags := [];
     Cucumber.Scenario_Id := EmptyString; Cucumber.Scenario_Keyword := EmptyString;
     Cucumber.Scenario_Name := EmptyString;
     Cucumber.Scenario_Description := EmptyString;
     Cucumber.Scenario_Type := EmptyString |}.

(** The function that [runScenario] hands to [t.Run] *)
Definition scenarioBody (ctx : Context) (scenario : Msgs.Scenario)
    (bkg : option Msgs.Background) (formattedscenario : Cucumber.Scenario)
    (t : T) : M Cucumber.Scenario :=
  Set_ ctx TestingTKey (VTestingT t) ;;
  defer (Set_ ctx TestingTKey VNil)
    (callBeforeScenarios ctx ;;
     defer (callAfterScenarios ctx)
       (match bkg with
        | Some b => runSteps ctx t (getBackgroundSteps b) zeroScenario ;; ret tt
        | None => ret tt
        end ;;
        if 0 <? length (Msgs.Scenario_Examples scenario) then
          c <- Clone ctx ;;
          steps <- getOutlineStep (Msgs.Scenario_Steps scenario)
                     (Msgs.Scenario_Examples scenario) ;;
          runSteps c t steps formattedscenario
        else
          c <- Clone ctx ;;
          runSteps c t (Msgs.Scenario_Steps scenario) formattedscenario)).

(** [runScenario]: the assignment to [formattedscenario] is the last
    statement of the function literal, so a scenario that is left early
    keeps the record without steps. *)
Definition runScenario (ctx : Context) (scenario : Msgs.Scenario)
    (bkg : option Msgs.Background) (t : T) : M Cucumber.Scenario :=
  let formattedscenario := Cucumber.FormatScenario scenario in
  r <- tRun t (scenarioBody ctx scenario bkg formattedscenario) ;;
  ret (default formattedscenario r).

(** ** Features *)

(** One turn of the loop of [runFeature] over the children; the state is
    [bkgSteps] and [formattedFeature]. *)
Definition runChild (t : T) (acc : option Msgs.Background * Cucumber.Feature)
    (child : Msgs.FeatureChild) : M (option Msgs.Background * Cucumber.Feature) :=
  let bkgSteps :=
    match Msgs.GetBackground child with
    | Some b => Some b
    | None => fst acc
    end in
  match Msgs.GetScenario child with
  | None => ret (bkgSteps, snd acc)
  | Some scenario =>
      ctx <- NewContext ;;
      s <- getSuite ;;
      if skipScenario s (Msgs.Scenario_Tags scenario) then
        ret (bkgSteps,
             Cucumber.AddScenario (snd acc)
               (Cucumber.FormatScenarioWithSteps scenario "skipped"))
      else
        formattedscenario <- runScenario ctx scenario bkgSteps t ;;
        ret (bkgSteps, Cucumber.AddScenario (snd acc) formattedscenario)
  end.

(** [runFeature]; its error result is always nil. The function handed to
    [t.Run] cannot leave through [Goexit], so its state is always there
    when [t.Run] returns. *)
Definition runFeature (feature : Msgs.Feature) : M Cucumber.Feature :=
  s <- getSuite ;;
  if existsb (fun tag => contains (ignoreTags (options s)) (Msgs.Tag_Name tag))
       (Msgs.Feature_Tags feature)
  then lift (Cucumber.FormatFeatureWithScenario feature)
  else
    let formattedFeature := Cucumber.FormatFeature feature in
    r <- tRun (t s) (fun t =>
           foldM (runChild t) (None, formattedFeature) (Msgs.Feature_Children feature)) ;;
    ret (match r with
         | Some acc => snd acc
         | None => formattedFeature
         end).

(** [executeFeature] on a parsed document; [None] is a document without a
    feature. *)
Definition executeFeature (doc : option Msgs.Feature) : M Cucumber.Feature :=
  match doc with
  | None => ret Cucumber.zeroFeature
  | Some feature => runFeature feature
  end.

(** [Run] over the documents of the feature files, in the order of the
    files. Finding, opening and parsing the files and writing the report
    are outside the engine. *)
Definition Run (docs : list (option Msgs.Feature)) : M (list Cucumber.Feature) :=
  s <- getSuite ;;
  if hasStepErrors s then tFatal (t s)
  else
    foldM (fun features doc =>
             formattedFeature <- executeFeature doc ;;
             ret (features ++ [formattedFeature])) [] docs.

(* ===================================================================== *)
(** * Properties of the lookup of step definitions *)
(* ===================================================================== *)


(** The pattern of [sd] matches [text]. *)
Definition matches (text : string) (sd : stepDef) : bool :=
  MatchString (expr sd) text.

(** The number of non-overlapping matches of the pattern of [sd] in [text] *)
Definition matchCount (text : string) (sd : stepDef) : nat :=
  length (FindAll (expr sd) text).

(** What the loop of [findStepDef] has found after the definitions [l]:
    nothing when none of them matches, and otherwise the first of those
    that match with the greatest count. *)
Inductive Best (text : string) (l : list stepDef) : nat * option stepDef -> Prop :=
| Best_none :
    (forall j sd, l !! j = Some sd -> matches text sd = false) ->
    Best text l (0, None)
| Best_some i sd :
    l !! i = Some sd ->
    matches text sd = true ->
    0 < matchCount text sd ->
    (forall j sd', l !! j = Some sd' -> matches text sd' = true ->
                   matchCount text sd' <= matchCount text sd) ->
    (forall j sd', j < i -> l !! j = Some sd' -> matches text sd' = true ->
                   matchCount text sd' < matchCount text sd) ->
    Best text l (matchCount text sd, Some sd).

Lemma matchCount_pos text sd : matches text sd = true -> 0 < matchCount text sd.
Proof.
  unfold matches, matchCount. intros Hm.
  apply FindAll_of_match in Hm.
  destruct (FindAll (expr sd) text); [congruence | cbn; lia].
Qed.

Lemma Best_snoc text l acc x :
  Best text l acc -> Best text (l ++ [x]) (findStepDefStep text acc x).
Proof.
  intros HB. unfold findStepDefStep.
  fold (matches text x). fold (matchCount text x).
  destruct (matches text x) eqn:Hx; cbn [negb].
  - (* the new definition matches *)
    pose proof (matchCount_pos _ _ Hx) as Hpos.
    destruct HB as [Hnone | i sd Hi Hm Hp Hmax Hfirst]; cbn [fst].
    + replace (0 <? matchCount text x) with true
        by (symmetry; apply Nat.ltb_lt; lia).
      apply (Best_some text (l ++ [x]) (length l) x); auto.
      * rewrite lookup_app_r, Nat.sub_diag by lia. reflexivity.
      * intros j sd' Hj Hm'. apply lookup_app_Some in Hj as [Hj | [_ Hj]].
        -- rewrite (Hnone _ _ Hj) in Hm'. discriminate.
        -- apply list_lookup_singleton_Some in Hj as [_ <-]. lia.
      * intros j sd' Hlt Hj Hm'. apply lookup_app_Some in Hj as [Hj | [Hge _]].
        -- rewrite (Hnone _ _ Hj) in Hm'. discriminate.
        -- lia.
    + destruct (matchCount text sd <? matchCount text x) eqn:Hcmp.
      * apply Nat.ltb_lt in Hcmp.
        apply (Best_some text (l ++ [x]) (length l) x); auto.
        -- rewrite lookup_app_r, Nat.sub_diag by lia. reflexivity.
        -- intros j sd' Hj Hm'. apply lookup_app_Some in Hj as [Hj | [_ Hj]].
           ++ specialize (Hmax _ _ Hj Hm'). lia.
           ++ apply list_lookup_singleton_Some in Hj as [_ <-]. lia.
        -- intros j sd' Hlt Hj Hm'. apply lookup_app_Some in Hj as [Hj | [Hge _]].
           ++ specialize (Hmax _ _ Hj Hm'). lia.
           ++ lia.
      * apply Nat.ltb_ge in Hcmp.
        apply (Best_some text (l ++ [x]) i sd); auto.
        -- apply lookup_app_l_Some. exact Hi.
        -- intros j sd' Hj Hm'. apply lookup_app_Some in Hj as [Hj | [_ Hj]].
           ++ eauto.
           ++ apply list_lookup_singleton_Some in Hj as [_ <-]. lia.
        -- intros j sd' Hlt Hj Hm'. apply lookup_app_Some in Hj as [Hj | [Hge _]].
           ++ eauto.
           ++ apply lookup_lt_Some in Hi. lia.
  - (* the new definition does not match *)
    destruct HB as [Hnone | i sd Hi Hm Hp Hmax Hfirst].
    + apply Best_none. intros j sd' Hj.
      apply lookup_app_Some in Hj as [Hj | [_ Hj]]; [eauto |].
      apply list_lookup_singleton_Some in Hj as [_ <-]. exact Hx.
    + apply (Best_some text (l ++ [x]) i sd); auto.
      * apply lookup_app_l_Some. exact Hi.
      * intros j sd' Hj Hm'. apply lookup_app_Some in Hj as [Hj | [_ Hj]].
        -- eauto.
        -- apply list_lookup_singleton_Some in Hj as [_ <-]. congruence.
      * intros j sd' Hlt Hj Hm'. apply lookup_app_Some in Hj as [Hj | [Hge _]].
        -- eauto.
        -- apply lookup_lt_Some in Hi. lia.
Qed.

Lemma Best_fold text l :
  Best text l (fold_left (findStepDefStep text) l (0, None)).
Proof.
  induction l as [|x l IH] using rev_ind.
  - apply Best_none. intros j sd Hj. rewrite lookup_nil in Hj. discriminate.
  - rewrite fold_left_app. cbn [fold_left]. apply Best_snoc. exact IH.
Qed.

(** The definition that [findStepDef] returns is registered at some index
    [i], matches, has the greatest count among the definitions that match
    and a greater count than those that match and come before it. *)
Lemma findStepDef_Some s text sd :
  findStepDef s text = Some sd ->
  exists i,
    steps s !! i = Some sd /\
    matches text sd = true /\
    (forall j sd', steps s !! j = Some sd' -> matches text sd' = true ->
                   matchCount text sd' <= matchCount text sd) /\
    (forall j sd', j < i -> steps s !! j = Some sd' -> matches text sd' = true ->
                   matchCount text sd' < matchCount text sd).
Proof.
  unfold findStepDef. intros H.
  destruct (Best_fold text (steps s)) as [Hnone | i sd0 Hi Hm Hp Hmax Hfirst];
    cbn [snd] in H; [discriminate |].
  injection H as <-. exists i. auto.
Qed.

Lemma findStepDef_None s text :
  findStepDef s text = None <->
  (forall j sd, steps s !! j = Some sd -> matches text sd = false).
Proof.
  unfold findStepDef.
  destruct (Best_fold text (steps s)) as [Hnone | i sd0 Hi Hm Hp Hmax Hfirst];
    cbn [snd]; split; intros H; auto; try discriminate.
  rewrite (H _ _ Hi) in Hm. discriminate.
Qed.

(** Registering more definitions does not lose a resolution. *)
Lemma findStepDef_mono s s' text :
  (exists more, steps s' = steps s ++ more) ->
  findStepDef s text <> None -> findStepDef s' text <> None.
Proof.
  intros [more Hs'] Hfound Hnone. apply Hfound.
  apply findStepDef_None. intros j sd Hj.
  apply (proj1 (findStepDef_None s' text) Hnone j).
  rewrite Hs'. apply lookup_app_l_Some. exact Hj.
Qed.

(* ===================================================================== *)
(** * Reasoning about runs *)
(* ===================================================================== *)

(** [sat m w Q]: the run of [m] from [w] ends in an outcome and a world
    that satisfy [Q]. *)
Definition sat {A} (m : M A) (w : World) (Q : Outcome A -> World -> Prop) : Prop :=
  Q (fst (m w)) (snd (m w)).

Lemma sat_eq {A} (m : M A) w o w' Q : m w = (o, w') -> Q o w' -> sat m w Q.
Proof. unfold sat. intros ->. exact id. Qed.

Lemma sat_weaken {A} (m : M A) w (Q Q' : Outcome A -> World -> Prop) :
  sat m w Q -> (forall o w', Q o w' -> Q' o w') -> sat m w Q'.
Proof. unfold sat. auto. Qed.

Lemma sat_ret {A} (a : A) w (Q : Outcome A -> World -> Prop) :
  Q (Done a) w -> sat (ret a) w Q.
Proof. exact id. Qed.

(** What [bind] and [defer] pass on when the first part does not return *)
Definition passOn {A B} (o : Outcome A) : Outcome B :=
  match o with
  | Done _ => Goexit
  | Goexit => Goexit
  | Panic v => Panic v
  | Crash => Crash
  end.

Lemma sat_bind {A B} (m : M A) (k : A -> M B) w (Q : Outcome B -> World -> Prop) :
  sat m w (fun o w1 =>
             match o with
             | Done a => sat (k a) w1 Q
             | _ => Q (passOn o) w1
             end) ->
  sat (bind m k) w Q.
Proof.
  unfold sat, bind. destruct (m w) as [[a| |v|] w1]; cbn; auto.
Qed.

Lemma sat_defer {A} (d : M unit) (body : M A) w (Q : Outcome A -> World -> Prop) :
  sat body w (fun o w1 =>
                match o with
                | Crash => Q Crash w1
                | _ => sat d w1 (fun od w2 =>
                                   match od with
                                   | Done _ => Q o w2
                                   | _ => Q (passOn od) w2
                                   end)
                end) ->
  sat (defer d body) w Q.
Proof.
  unfold sat, defer. destruct (body w) as [[a| |v|] w1]; cbn; auto;
    destruct (d w1) as [[u| |v'|] w2]; cbn; auto.
Qed.

Lemma sat_deferRecover {A} (zero : A) (h : string -> M unit) (body : M A) w
    (Q : Outcome A -> World -> Prop) :
  sat body w (fun o w1 =>
                match o with
                | Panic v => sat (h v) w1 (fun oh w2 =>
                                             match oh with
                                             | Done _ => Q (Done zero) w2
                                             | _ => Q (passOn oh) w2
                                             end)
                | _ => Q o w1
                end) ->
  sat (deferRecover zero h body) w Q.
Proof.
  unfold sat, deferRecover. destruct (body w) as [[a| |v|] w1]; cbn; auto.
  destruct (h v w1) as [[u| |v'|] w2]; cbn; auto.
Qed.

Lemma sat_tRun {A} (t : T) (body : T -> M A) w (Q : Outcome (option A) -> World -> Prop) :
  sat (body {| tid := length (tests w); parents := tid t :: parents t |})
      (setTests (tests w ++ [{| failed := false; skipped := false |}]) w)
      (fun o w1 =>
         match o with
         | Done a => Q (Done (Some a)) w1
         | Goexit => Q (Done None) w1
         | _ => Q Crash w1
         end) ->
  sat (tRun t body) w Q.
Proof.
  unfold sat, tRun.
  destruct (body _ _) as [[a| |v|] w1]; cbn; auto.
Qed.

Lemma sat_foldM {A S} (body : S -> A -> M S) (I : Outcome S -> World -> Prop) l :
  forall acc w,
    I (Done acc) w ->
    (forall acc w a, I (Done acc) w ->
                     sat (body acc a) w (fun o w' =>
                                           match o with
                                           | Done acc' => I (Done acc') w'
                                           | _ => I (passOn o) w'
                                           end)) ->
    sat (foldM body acc l) w I.
Proof.
  induction l as [|a l IH]; intros acc w HI Hbody; cbn [foldM].
  - apply sat_ret. exact HI.
  - apply sat_bind. eapply sat_weaken; [apply Hbody; exact HI|].
    intros [acc'| |v|] w' H; cbn in *; auto.
Qed.

Lemma foldM_app {A S} (body : S -> A -> M S) l1 l2 acc w :
  foldM body acc (l1 ++ l2) w = bind (foldM body acc l1) (fun acc' => foldM body acc' l2) w.
Proof.
  revert acc w. induction l1 as [|a l1 IH]; intros acc w; cbn [foldM app].
  - reflexivity.
  - unfold bind. destruct (body acc a w) as [[acc'| |v|] w']; auto.
Qed.

(** ** Worlds that differ by the work of user code *)

Definition isFailed (i : nat) (w : World) : Prop :=
  from_option failed false (tests w !! i) = true.

(** No test disappears and no failure is taken back. *)
Definition grows (w w' : World) : Prop :=
  length (tests w) <= length (tests w') /\
  (forall i, isFailed i w -> isFailed i w').

(** The two keys of the engine in the context [ctx] keep their values. *)
Definition sameEngineKeys (ctx : Context) (w w' : World) : Prop :=
  content ctx w' !! TestingTKey = content ctx w !! TestingTKey /\
  content ctx w' !! TimeKey = content ctx w !! TimeKey.

(** Only the user keys of [ctx] may have changed. *)
Definition quiet (ctx : Context) (w w' : World) : Prop :=
  suite w' = suite w /\ tests w' = tests w /\ trace w' = trace w /\
  sameEngineKeys ctx w w'.

Lemma grows_refl w : grows w w.
Proof. split; auto. Qed.

Lemma grows_trans w1 w2 w3 : grows w1 w2 -> grows w2 w3 -> grows w1 w3.
Proof. intros [H1 H2] [H3 H4]. split; [lia | auto]. Qed.

Lemma grows_same_tests w w' : tests w' = tests w -> grows w w'.
Proof. unfold grows, isFailed. intros ->. auto. Qed.

Lemma quiet_refl ctx w : quiet ctx w w.
Proof. repeat split. Qed.

Lemma quiet_trans ctx w1 w2 w3 : quiet ctx w1 w2 -> quiet ctx w2 w3 -> quiet ctx w1 w3.
Proof.
  unfold quiet, sameEngineKeys.
  intros (-> & -> & -> & <- & <-) (-> & -> & -> & <- & <-). repeat split.
Qed.

Lemma content_Set_ ctx k v w :
  content ctx (snd (Set_ ctx k v w)) = <[k := v]> (content ctx w).
Proof.
  unfold Set_, modify, content. cbn. rewrite lookup_insert_eq. reflexivity.
Qed.

Lemma Set_user_quiet ctx k v w :
  quiet ctx w (snd (Set_ ctx (UserKey k) v w)).
Proof.
  unfold quiet, sameEngineKeys. rewrite content_Set_.
  repeat split; rewrite lookup_insert_ne; auto; discriminate.
Qed.

Lemma applySets_spec ctx l w :
  exists w', applySets ctx l w = (Done tt, w') /\ quiet ctx w w'.
Proof.
  unfold applySets. revert w. induction l as [|[k v] l IH]; intros w; cbn [forEach].
  - exists w. split; [reflexivity | apply quiet_refl].
  - unfold bind. cbn [fst snd].
    destruct (IH (snd (Set_ ctx (UserKey k) v w))) as (w' & Hw' & Hq).
    exists w'. split.
    + unfold Set_, modify in *. cbn in *. exact Hw'.
    + eapply quiet_trans; [apply Set_user_quiet | exact Hq].
Qed.


(* ===================================================================== *)
(** * Argument coercion *)
(* ===================================================================== *)


















(* ===================================================================== *)
(** * Skipping by tags *)
(* ===================================================================== *)

Lemma contains_In a x : contains a x = true <-> In x a.
Proof.
  induction a as [|n a IH]; cbn [contains In]; [split; [discriminate | tauto]|].
  destruct (String.eqb_spec x n) as [-> | Hne].
  - split; auto.
  - rewrite IH. split; [auto | intros [Heq | H]; [congruence | exact H]].
Qed.

(** Some tag of [l] is named in [names]. *)
Definition tagged (names : list string) (l : list Msgs.Tag) : Prop :=
  exists tag, In tag l /\ In (Msgs.Tag_Name tag) names.

Lemma existsb_tagged names l :
  existsb (fun tag => contains names (Msgs.Tag_Name tag)) l = true <-> tagged names l.
Proof.
  unfold tagged. rewrite existsb_exists.
  split; intros (tag & Hin & H); exists tag; split; auto; apply contains_In; auto.
Qed.

(** The skip rule: an ignored tag, or an allow-list that is not empty and
    names none of the tags. *)
Lemma skipScenario_true s scenarioTags :
  skipScenario s scenarioTags = true <->
  tagged (ignoreTags (options s)) scenarioTags \/
  (tags (options s) <> [] /\ ~ tagged (tags (options s)) scenarioTags).
Proof.
  unfold skipScenario.
  pose proof (existsb_tagged (ignoreTags (options s)) scenarioTags) as Hign.
  pose proof (existsb_tagged (tags (options s)) scenarioTags) as Hallow.
  destruct (existsb (fun tag => contains (ignoreTags (options s)) (Msgs.Tag_Name tag))
              scenarioTags).
  - split; [intros _; left; apply Hign; reflexivity | reflexivity].
  - assert (Hn : ~ tagged (ignoreTags (options s)) scenarioTags).
    { intros H. apply Hign in H. discriminate. }
    destruct (tags (options s)) as [|tg tgs]; cbn [length Nat.eqb].
    + split; [discriminate | intros [H | [H _]]; [tauto | congruence]].
    + destruct (existsb (fun tag => contains (tg :: tgs) (Msgs.Tag_Name tag))
                  scenarioTags).
      * split; [discriminate|].
        intros [H | [_ H]]; [tauto | exfalso; apply H; apply Hallow; reflexivity].
      * split; [|reflexivity]. intros _. right. split; [discriminate|].
        intros H. apply Hallow in H. discriminate.
Qed.

(** The record of a step that did not run, with the given status *)
Definition unrunStep (status : string) (st : Msgs.Step) : Cucumber.Step :=
  {| Cucumber.StepResult :=
       {| Cucumber.ErrorMsg := EmptyString; Cucumber.RunStatus := status |};
     Cucumber.match_ := {| Cucumber.Location := EmptyString |};
     Cucumber.Step_Keyword := Msgs.Step_Keyword st;
     Cucumber.Step_Name := Msgs.Step_Text st;
     Cucumber.Step_Line := Msgs.Step_Location st |}.

Lemma FormatScenarioWithSteps_eq sc status :
  Cucumber.FormatScenarioWithSteps sc status =
  Cucumber.withSteps (Cucumber.FormatScenario sc)
    (map (unrunStep status) (Msgs.Scenario_Steps sc)).
Proof.
  unfold Cucumber.FormatScenarioWithSteps.
  assert (H : forall l acc,
             fold_left
               (fun sc0 steps =>
                  Cucumber.AddStep sc0 (Msgs.Step_Keyword steps) (Msgs.Step_Text steps)
                    (Msgs.Step_Location steps) EmptyString status) l acc
             = Cucumber.withSteps acc (Cucumber.Steps acc ++ map (unrunStep status) l)).
  { induction l as [|st l IH]; intros acc; cbn [fold_left map].
    - rewrite app_nil_r. destruct acc; reflexivity.
    - rewrite IH. unfold Cucumber.AddStep, Cucumber.withSteps. cbn.
      rewrite <- app_assoc. reflexivity. }
  rewrite H. reflexivity.
Qed.



(** A feature with an ignored tag is not run: [runFeature] answers what
    [FormatFeatureWithScenario] makes of it and leaves the world as it is. *)
Lemma runFeature_ignored (feature : Msgs.Feature) (w : World) :
  tagged (ignoreTags (options (suite w))) (Msgs.Feature_Tags feature) ->
  runFeature feature w = (Cucumber.FormatFeatureWithScenario feature, w).
Proof.
  intros H. apply existsb_tagged in H.
  unfold runFeature, bind, getSuite, gets. cbn [fst snd]. rewrite H. reflexivity.
Qed.


(* ===================================================================== *)
(** * The execution context *)
(* ===================================================================== *)

(** Any sequence of [Set] calls on one context *)
Definition setAll (ctx : Context) (kvs : list (key * value)) : M unit :=
  forEach kvs (fun kv => Set_ ctx (fst kv) (snd kv)).

Lemma Set_other ctx c k v w :
  c <> ctx -> heap (snd (Set_ c k v w)) !! ctx = heap w !! ctx.
Proof.
  intros Hne. unfold Set_, modify. cbn. apply lookup_insert_ne. exact Hne.
Qed.

Lemma setAll_other ctx c kvs w :
  c <> ctx ->
  fst (setAll c kvs w) = Done tt /\
  heap (snd (setAll c kvs w)) !! ctx = heap w !! ctx.
Proof.
  intros Hne. unfold setAll. revert w.
  induction kvs as [|[k v] kvs IH]; intros w; cbn [forEach].
  - split; reflexivity.
  - unfold bind. cbn [fst snd].
    change (Set_ c k v w) with (Done tt, snd (Set_ c k v w)).
    cbn iota. destruct (IH (snd (Set_ c k v w))) as [H1 H2].
    split; [exact H1|]. rewrite H2. apply Set_other. exact Hne.
Qed.

(** C9: the clone of a context of the world is another map with the same
    entries, and whatever keys are set or overwritten in the clone, every
    key of the original keeps its value. *)
Theorem clone_is_independent (ctx : Context) (w : World) :
  is_Some (heap w !! ctx) ->
  exists c w1,
    Clone ctx w = (Done c, w1) /\
    c <> ctx /\
    content c w1 = content ctx w /\
    content ctx w1 = content ctx w /\
    forall kvs : list (key * value),
      fst (setAll c kvs w1) = Done tt /\
      content ctx (snd (setAll c kvs w1)) = content ctx w /\
      forall k, content ctx (snd (setAll c kvs w1)) !! k = content ctx w !! k.
Proof.
  intros Hsome.
  set (c := fresh (dom (heap w))).
  assert (Hfresh : c ∉ dom (heap w)) by apply is_fresh.
  assert (Hne : c <> ctx).
  { intros ->. apply Hfresh. apply elem_of_dom. exact Hsome. }
  exists c, (setHeap (<[c := content ctx w]> (heap w)) w).
  split; [reflexivity|]. split; [exact Hne|].
  assert (Hsame : content ctx (setHeap (<[c := content ctx w]> (heap w)) w)
                  = content ctx w).
  { unfold content at 1. cbn. rewrite lookup_insert_ne by exact Hne. reflexivity. }
  split; [unfold content at 1; cbn; rewrite lookup_insert_eq; reflexivity|].
  split; [exact Hsame|].
  intros kvs. destruct (setAll_other ctx c kvs
                          (setHeap (<[c := content ctx w]> (heap w)) w) Hne)
    as [Hdone Hheap].
  split; [exact Hdone|].
  assert (Hc : content ctx (snd (setAll c kvs (setHeap (<[c := content ctx w]> (heap w)) w)))
               = content ctx w).
  { unfold content at 1. rewrite Hheap. exact Hsame. }
  split; [exact Hc|]. intros k. rewrite Hc. reflexivity.
Qed.


(* ===================================================================== *)
(** * Registration and parameter types *)
(* ===================================================================== *)

(** All the patterns compile, and to what. *)
Fixpoint compileAll (exprs : list string) : option (list Regexp) :=
  match exprs with
  | [] => Some []
  | e :: rest =>
      match Compile e, compileAll rest with
      | Some c, Some cs => Some (c :: cs)
      | _, _ => None
      end
  end.

(** The definitions that bind the compiled patterns to one handler *)
Definition bound (step : StepFunc) (res : list Regexp) : list stepDef :=
  map (fun c => {| expr := c; f := step |}) res.

(** The candidates that the entry of one token adds for [e] *)
Definition expansions (e : string) (entry : string * list string) : list string :=
  if Strings.Contains e (fst entry)
  then map (Strings.ReplaceAll e (fst entry)) (snd entry)
  else [].

Lemma applyParameterTypes_eq s e :
  applyParameterTypes s e = e :: flat_map (expansions e) (parameterTypes s).
Proof.
  unfold applyParameterTypes. f_equal.
  induction (parameterTypes s) as [|[from to] pt IH]; cbn [flat_map]; [reflexivity|].
  rewrite IH. f_equal. unfold expansions. cbn [fst snd].
  destruct (Strings.Contains e from).
  - induction to as [|t to IHto]; cbn; [reflexivity | rewrite IHto; reflexivity].
  - induction to as [|t to IHto]; cbn; [reflexivity | exact IHto].
Qed.

(** What registration leaves alone *)
Definition sameButSteps (w w' : World) : Prop :=
  options (suite w') = options (suite w) /\
  parameterTypes (suite w') = parameterTypes (suite w) /\
  t (suite w') = t (suite w) /\
  heap w' = heap w /\ trace w' = trace w /\
  length (tests w') = length (tests w).

Lemma sameButSteps_refl w : sameButSteps w w.
Proof. repeat split. Qed.

Lemma markFailed_length tt w : length (tests (markFailed tt w)) = length (tests w).
Proof.
  unfold markFailed. cbn [tests setTests].
  induction (tid tt :: parents tt) as [|i l IH]; cbn [foldr]; [reflexivity|].
  rewrite length_alter. exact IH.
Qed.

(** The loop of [AddStep]: the patterns that compile before the first one
    that does not are registered, in order, for the handler. *)
Lemma addCompiled_spec exprs step w :
  exists w' res,
    addCompiled exprs step w = (Done tt, w') /\
    steps (suite w') = steps (suite w) ++ bound step res /\
    sameButSteps w w' /\
    ((compileAll exprs = Some res /\
      hasStepErrors (suite w') = hasStepErrors (suite w) /\ tests w' = tests w)
     \/
     (exists pre bad post,
         exprs = pre ++ bad :: post /\ compileAll pre = Some res /\
         Compile bad = None /\ hasStepErrors (suite w') = true)).
Proof.
  revert w. induction exprs as [|e exprs IH]; intros w; cbn [addCompiled compileAll].
  - exists w, []. split; [reflexivity|]. cbn [bound map]. rewrite app_nil_r.
    split; [reflexivity|]. split; [apply sameButSteps_refl|]. left. auto.
  - destruct (Compile e) as [c|] eqn:Hc.
    + unfold bind at 1. unfold modifySuite at 1, modify at 1. cbn [fst snd].
      set (w1 := setSuite _ w).
      destruct (IH w1) as (w' & res & Hrun & Hsteps & Hsame & Hcases).
      exists w', (c :: res). split; [exact Hrun|].
      split.
      { rewrite Hsteps. subst w1. cbn. rewrite <- app_assoc. reflexivity. }
      split.
      { destruct Hsame as (H1 & H2 & H3 & H4 & H5 & H6).
        subst w1. cbn in *. repeat split; assumption. }
      destruct Hcases as [(Hall & Herr & Htests) | (pre & bad & post & Heq & Hpre & Hbad & Herr)].
      * left. rewrite Hall. subst w1. cbn in *. auto.
      * right. exists (e :: pre), bad, post. cbn [compileAll app].
        rewrite Hc, Hpre, Heq. auto.
    + unfold bind, getSuite, gets, tError, modify, modifySuite. cbn [fst snd].
      eexists. exists []. split; [reflexivity|].
      cbn [bound map]. rewrite app_nil_r.
      split; [reflexivity|].
      split.
      { unfold sameButSteps. repeat split; try reflexivity.
        cbn [tests setSuite]. apply markFailed_length. }
      right. exists [], e, exprs. cbn. auto.
Qed.

(** [AddStep] returns, and the definitions registered before are kept in
    front of those it adds. *)
Lemma AddStep_spec e step w :
  exists w' more,
    AddStep e step w = (Done tt, w') /\
    steps (suite w') = steps (suite w) ++ more /\
    sameButSteps w w'.
Proof.
  unfold AddStep. unfold bind at 1, getSuite at 1, gets at 1. cbn [fst snd].
  destruct (validateStepFunc step).
  - destruct (addCompiled_spec (applyParameterTypes (suite w) e) step w)
      as (w' & res & Hrun & Hsteps & Hsame & _).
    exists w', (bound step res). auto.
  - unfold bind, tError, modify, modifySuite. cbn [fst snd].
    eexists. exists []. split; [reflexivity|]. rewrite app_nil_r.
    split; [reflexivity|].
    unfold sameButSteps. repeat split; try reflexivity.
    cbn [tests setSuite]. apply markFailed_length.
Qed.





Lemma in_expansions e entry c :
  In c (expansions e entry) <->
  exists t, In t (snd entry) /\ Strings.Contains e (fst entry) = true /\
            c = Strings.ReplaceAll e (fst entry) t.
Proof.
  unfold expansions. destruct (Strings.Contains e (fst entry)).
  - rewrite in_map_iff. split.
    + intros (t & <- & Hin). eauto.
    + intros (t & Hin & _ & ->). eauto.
  - split; [intros [] | intros (t & _ & Hd & _); discriminate].
Qed.




(* ===================================================================== *)
(** * Outline expansion *)
(* ===================================================================== *)

(** The copy of the source step that carries the substituted text *)
Definition substituted (sourceStep : Msgs.Step) (text : string) : Msgs.Step :=
  {| Msgs.Step_Location := Msgs.Step_Location sourceStep;
     Msgs.Step_Keyword := Msgs.Step_Keyword sourceStep;
     Msgs.Step_Text := text;
     Msgs.Step_Argument := Msgs.Step_Argument sourceStep |}.

Lemma stepsFromExamplesRow_resolved sourceStep phs acc row w text e def :
  stepFromExample (Msgs.Step_Text sourceStep) row phs = Done (text, e) ->
  findStepDef (suite w) text = Some def ->
  exists w' more,
    stepsFromExamplesRow sourceStep phs acc row w
    = (Done (acc ++ [substituted sourceStep text]), w') /\
    steps (suite w') = steps (suite w) ++ more.
Proof.
  intros Hrow Hdef. unfold stepsFromExamplesRow.
  rewrite Hrow. unfold bind at 1, lift at 1. cbn [fst snd].
  unfold bind at 1, getSuite at 1, gets at 1. cbn [fst snd].
  rewrite Hdef.
  destruct (AddStep_spec e (f def) w) as (w' & more & Hadd & Hsteps & _).
  exists w', more. unfold bind. rewrite Hadd. auto.
Qed.

Lemma stepFromExample_row_1_2 :
  stepFromExample "add <a> and <b>" ["1"; "2"] ["<a>"; "<b>"]
  = Done ("add 1 and 2", "add (\d+) and (\d+)").
Proof. vm_compute. reflexivity. Qed.

Lemma stepFromExample_row_3_4 :
  stepFromExample "add <a> and <b>" ["3"; "4"] ["<a>"; "<b>"]
  = Done ("add 3 and 4", "add (\d+) and (\d+)").
Proof. vm_compute. reflexivity. Qed.

Lemma not_None_Some {A} (o : option A) : o <> None -> exists a, o = Some a.
Proof. destruct o; [eauto | congruence]. Qed.

(** Tables without rows: every step expands to nothing, and the suite is
    not touched. *)
Lemma expand_no_rows examples outlineStep w :
  Forall (fun ex => Msgs.TableBody ex = []) examples ->
  forall acc,
    foldM (fun acc example =>
             more <- stepsFromExamples outlineStep example ;;
             ret (acc ++ more)) acc examples w
    = (Done acc, w).
Proof.
  induction 1 as [|ex examples Hex _ IH]; intros acc; cbn [foldM]; [reflexivity|].
  unfold stepsFromExamples. rewrite Hex. cbn [foldM].
  unfold bind at 1 2, ret at 1 2. cbn [fst snd]. rewrite app_nil_r. apply IH.
Qed.

Lemma pickExamples_no_rows stepsList newSteps n examples :
  Forall (fun ex => Msgs.TableBody ex = []) examples ->
  pickExamples stepsList newSteps n examples = Done newSteps.
Proof.
  induction 1 as [|ex examples Hex _ IH]; cbn [pickExamples]; [reflexivity|].
  rewrite Hex. cbn. exact IH.
Qed.


Lemma registered_resolves (s : Suite) (text : string) (def : stepDef) :
  In def (steps s) -> MatchString (expr def) text = true ->
  exists d, findStepDef s text = Some d /\ In d (steps s) /\
            MatchString (expr d) text = true.
Proof.
  intros Hin Hm.
  apply list_elem_of_In, list_elem_of_lookup in Hin as [i Hi].
  destruct (findStepDef s text) as [d|] eqn:Hf.
  - exists d. split; [reflexivity|].
    apply findStepDef_Some in Hf as (k & Hk & Hmk & _).
    split; [|exact Hmk].
    apply list_elem_of_In, list_elem_of_lookup. eauto.
  - pose proof (proj1 (findStepDef_None s text) Hf i def Hi) as Hno.
    unfold matches in Hno. congruence.
Qed.

(** C3: the outline step [add <a> and <b>] with the header [a, b] and the
  rows [1, 2] and [3, 4] expands, in a suite where a registered pattern
  matches the substituted texts, to the steps [add 1 and 2] and
  [add 3 and 4], in this order, and each of them resolves, in the suite as
  the expansion leaves it, to a registered definition whose pattern matches
  it. Example tables without rows expand to no step, and the run goes
  on. *)
Theorem outline_expands_rows_in_order :
  (forall (w : World) (sourceStep : Msgs.Step) (def1 def2 : stepDef),
      Msgs.Step_Text sourceStep = "add <a> and <b>" ->
      In def1 (steps (suite w)) -> MatchString (expr def1) "add 1 and 2" = true ->
      In def2 (steps (suite w)) -> MatchString (expr def2) "add 3 and 4" = true ->
      exists w',
        getOutlineStep [sourceStep]
          [{| Msgs.TableHeader := ["a"; "b"];
              Msgs.TableBody := [["1"; "2"]; ["3"; "4"]] |}] w
        = (Done [substituted sourceStep "add 1 and 2";
                 substituted sourceStep "add 3 and 4"], w') /\
        (exists d, findStepDef (suite w') "add 1 and 2" = Some d /\
                   In d (steps (suite w')) /\
                   MatchString (expr d) "add 1 and 2" = true) /\
        (exists d, findStepDef (suite w') "add 3 and 4" = Some d /\
                   In d (steps (suite w')) /\
                   MatchString (expr d) "add 3 and 4" = true)) /\
  (forall (w : World) (steps : list Msgs.Step) (examples : list Msgs.Examples),
      Forall (fun ex => Msgs.TableBody ex = []) examples ->
      getOutlineStep steps examples w = (Done [], w)).
Proof.
split.
- intros w sourceStep reg1 reg2 Htext Hin1 Hm1 Hin2 Hm2.
  destruct (registered_resolves _ _ _ Hin1 Hm1) as (def1 & Hdef1 & _).
  destruct (stepsFromExamplesRow_resolved sourceStep ["<a>"; "<b>"] [] ["1"; "2"] w
              "add 1 and 2" "add (\d+) and (\d+)" def1)
    as (w1 & more1 & Hrow1 & Hsteps1); [rewrite Htext; apply stepFromExample_row_1_2 | exact Hdef1 |].
  assert (Hin2' : In reg2 (steps (suite w1))).
  { rewrite Hsteps1. apply in_or_app. left. exact Hin2. }
  destruct (registered_resolves _ _ _ Hin2' Hm2) as (def2 & Hdef2 & _).
  destruct (stepsFromExamplesRow_resolved sourceStep ["<a>"; "<b>"]
              ([] ++ [substituted sourceStep "add 1 and 2"]) ["3"; "4"] w1
              "add 3 and 4" "add (\d+) and (\d+)" def2)
    as (w2 & more2 & Hrow2 & Hsteps2); [rewrite Htext; apply stepFromExample_row_3_4 | exact Hdef2 |].
  exists w2. split.
  + unfold getOutlineStep. cbn [foldM]. unfold stepsFromExamples.
    cbn [Msgs.TableHeader Msgs.TableBody map foldM].
    change ("<" +:+ "a" +:+ ">") with "<a>". change ("<" +:+ "b" +:+ ">") with "<b>".
    unfold bind. rewrite Hrow1. cbn [fst snd]. rewrite Hrow2. reflexivity.
  + split.
    * apply (registered_resolves _ _ reg1); [|exact Hm1].
      rewrite Hsteps2, Hsteps1. apply in_or_app. left. apply in_or_app. left. exact Hin1.
    * apply (registered_resolves _ _ reg2); [|exact Hm2].
      rewrite Hsteps2. apply in_or_app. left. exact Hin2'.
- intros w steps examples Hempty.
  unfold getOutlineStep.
  assert (Hfold : forall acc,
             foldM (fun stepsList outlineStep =>
                      l <- foldM (fun acc example =>
                                    more <- stepsFromExamples outlineStep example ;;
                                    ret (acc ++ more)) [] examples ;;
                      ret (stepsList ++ [l])) acc steps w
             = (Done (acc ++ map (fun _ => []) steps), w)).
  { induction steps as [|st steps IH]; intros acc; cbn [foldM map].
    - rewrite app_nil_r. reflexivity.
    - unfold bind at 1. unfold bind at 1. rewrite (expand_no_rows examples st w Hempty).
      cbn [fst snd]. unfold ret at 1. rewrite IH, <- app_assoc. reflexivity. }
  unfold bind. rewrite Hfold. cbn [app].
  destruct (length (map (fun _ => []) steps) =? 0); [reflexivity|].
  unfold lift. rewrite pickExamples_no_rows by exact Hempty. reflexivity.
Qed.


(** ** Ties *)

(** C10: when several registered definitions match the text with the same,
    greatest number of non-overlapping matches, [findStepDef] returns the
    one that was registered earliest: the definition at index [i] is
    returned when it matches, no matching definition has a greater count,
    and no matching definition before [i] has the same count. *)
Theorem findStepDef_earliest_among_ties (s : Suite) (text : string)
    (i : nat) (sd : stepDef) :
  steps s !! i = Some sd ->
  matches text sd = true ->
  (forall j sd', steps s !! j = Some sd' -> matches text sd' = true ->
                 matchCount text sd' <= matchCount text sd) ->
  (forall j sd', j < i -> steps s !! j = Some sd' -> matches text sd' = true ->
                 matchCount text sd' <> matchCount text sd) ->
  findStepDef s text = Some sd.
Proof.
  intros Hi Hm Hmax Hties.
  destruct (findStepDef s text) as [sd0|] eqn:Hf.
  - apply findStepDef_Some in Hf as (i0 & Hi0 & Hm0 & Hmax0 & Hfirst0).
    assert (Heq : matchCount text sd0 = matchCount text sd).
    { specialize (Hmax _ _ Hi0 Hm0). specialize (Hmax0 _ _ Hi Hm). lia. }
    destruct (Nat.lt_trichotomy i0 i) as [Hlt | [-> | Hgt]].
    + exfalso. exact (Hties _ _ Hlt Hi0 Hm0 Heq).
    + congruence.
    + specialize (Hfirst0 _ _ Hgt Hi Hm). lia.
  - rewrite (proj1 (findStepDef_None s text) Hf _ _ Hi) in Hm. discriminate.
Qed.


(* ===================================================================== *)
(** * Steps and scenarios *)
(* ===================================================================== *)

(** ** Failure flags *)

Lemma fail_fail st : fail (fail st) = fail st.
Proof. reflexivity. Qed.

Lemma lookup_alter_all (l : list nat) (base : list TState) (i : nat) :
  foldr (fun j ts => alter fail j ts) base l !! i
  = (if bool_decide (i ∈ l) then fail else id) <$> (base !! i).
Proof.
  induction l as [|j l IH]; cbn [foldr].
  - rewrite bool_decide_eq_false_2 by apply not_elem_of_nil.
    destruct (base !! i); reflexivity.
  - destruct (decide (j = i)) as [-> | Hne].
    + rewrite list_lookup_alter_eq, IH.
      rewrite (bool_decide_eq_true_2 (i ∈ i :: l)) by apply list_elem_of_here.
      destruct (base !! i); cbn; [|reflexivity].
      destruct (bool_decide (i ∈ l)); reflexivity.
    + rewrite list_lookup_alter_ne by exact Hne. rewrite IH.
      destruct (bool_decide (i ∈ l)) eqn:Hin.
      * apply bool_decide_eq_true_1 in Hin.
        rewrite (bool_decide_eq_true_2 (i ∈ j :: l)) by (apply list_elem_of_further; exact Hin).
        reflexivity.
      * apply bool_decide_eq_false_1 in Hin.
        rewrite (bool_decide_eq_false_2 (i ∈ j :: l)); [reflexivity|].
        intros H. apply elem_of_cons in H as [H | H]; [congruence | tauto].
Qed.

Lemma markFailed_lookup t0 w i :
  tests (markFailed t0 w) !! i
  = (if bool_decide (i ∈ tid t0 :: parents t0) then fail else id) <$> (tests w !! i).
Proof. unfold markFailed. cbn [tests setTests]. apply lookup_alter_all. Qed.

Lemma markFailed_idem t0 w : tests (markFailed t0 (markFailed t0 w)) = tests (markFailed t0 w).
Proof.
  apply list_eq. intros i. rewrite !markFailed_lookup.
  destruct (tests w !! i) as [st|]; [|reflexivity]. cbn.
  destruct (bool_decide (i ∈ tid t0 :: parents t0)); reflexivity.
Qed.

Lemma grows_markFailed t0 w : grows w (markFailed t0 w).
Proof.
  split; [rewrite markFailed_length; lia|].
  unfold isFailed. intros i. rewrite markFailed_lookup.
  destruct (tests w !! i) as [st|]; cbn; [|auto].
  destruct (bool_decide (i ∈ tid t0 :: parents t0)); cbn; auto.
Qed.

Lemma isFailed_markFailed t0 w :
  tid t0 < length (tests w) -> isFailed (tid t0) (markFailed t0 w).
Proof.
  intros Hlt. unfold isFailed. rewrite markFailed_lookup.
  rewrite bool_decide_eq_true_2 by apply list_elem_of_here.
  destruct (lookup_lt_is_Some_2 _ _ Hlt) as [st ->]. reflexivity.
Qed.

Lemma grows_markSkipped t0 w : grows w (markSkipped t0 w).
Proof.
  unfold markSkipped. split; cbn [tests setTests].
  - rewrite length_alter. lia.
  - unfold isFailed. intros i. cbn [tests setTests].
    destruct (decide (tid t0 = i)) as [-> | Hne].
    + rewrite list_lookup_alter_eq. destruct (tests w !! i); cbn; auto.
    + rewrite list_lookup_alter_ne by exact Hne. auto.
Qed.

Lemma grows_new_test w st : grows w (setTests (tests w ++ [st]) w).
Proof.
  split; cbn [tests setTests].
  - rewrite length_app. lia.
  - unfold isFailed. intros i. cbn [tests setTests].
    destruct (tests w !! i) as [st'|] eqn:Hi; cbn; [|discriminate].
    rewrite (lookup_app_l_Some _ _ _ _ Hi). auto.
Qed.

(** ** Hooks *)

Definition hookCalls (k : HookKind) (hooks : list Hook) : list Event :=
  map (fun h => HookCall k (hookName h)) hooks.

Lemma callHooks_spec k hooks ctx w :
  exists w',
    callHooks k hooks ctx w = (Done tt, w') /\
    suite w' = suite w /\ tests w' = tests w /\
    trace w' = trace w ++ hookCalls k hooks /\
    sameEngineKeys ctx w w'.
Proof.
  unfold callHooks. revert w. induction hooks as [|h hooks IH]; intros w; cbn [forEach].
  - exists w. unfold hookCalls. cbn. rewrite app_nil_r. repeat split.
  - unfold bind at 1. unfold bind at 1. unfold emit at 1, modify at 1. cbn [fst snd].
    set (w1 := {| suite := suite w; tests := tests w; heap := heap w;
                  trace := trace w ++ [HookCall k (hookName h)] |}).
    unfold bind at 1, gets at 1. cbn [fst snd].
    destruct (applySets_spec ctx (hookSets h (content ctx w1)) w1) as (w2 & Hsets & Hq).
    rewrite Hsets.
    destruct (IH w2) as (w' & Hrun & Hs & Ht & Htr & Hk).
    exists w'. split; [exact Hrun|].
    destruct Hq as (Hs2 & Ht2 & Htr2 & Hk2a & Hk2b).
    destruct Hk as [Hka Hkb].
    split; [rewrite Hs, Hs2; reflexivity|].
    split; [rewrite Ht, Ht2; reflexivity|].
    split.
    + rewrite Htr, Htr2. subst w1. cbn [trace]. unfold hookCalls. cbn [map].
      rewrite <- app_assoc. reflexivity.
    + split; [rewrite Hka, Hk2a | rewrite Hkb, Hk2b]; reflexivity.
Qed.

(** ** What a step leaves of the world it starts in *)

(** The call returned or left through [runtime.Goexit]. *)
Definition calm {A} (o : Outcome A) : Prop :=
  match o with
  | Done _ | Goexit => True
  | _ => False
  end.

Definition evolves (ctx : Context) (w w' : World) : Prop :=
  suite w' = suite w /\ grows w w' /\ sameEngineKeys ctx w w'.

Lemma evolves_refl ctx w : evolves ctx w w.
Proof. repeat split; auto. Qed.

Lemma evolves_trans ctx w1 w2 w3 :
  evolves ctx w1 w2 -> evolves ctx w2 w3 -> evolves ctx w1 w3.
Proof.
  intros (Hs & Hg & Hk1 & Hk2) (Hs' & Hg' & Hk1' & Hk2').
  split; [congruence|]. split; [eapply grows_trans; eauto|].
  split; congruence.
Qed.

Lemma evolves_same_heap ctx w w' :
  suite w' = suite w -> grows w w' -> heap w' = heap w -> evolves ctx w w'.
Proof.
  intros Hs Hg Hh. split; [exact Hs|]. split; [exact Hg|].
  unfold sameEngineKeys, content. rewrite Hh. split; reflexivity.
Qed.

Lemma evolves_markFailed ctx t0 w : evolves ctx w (markFailed t0 w).
Proof. apply evolves_same_heap; [reflexivity | apply grows_markFailed | reflexivity]. Qed.

Lemma evolves_markSkipped ctx t0 w : evolves ctx w (markSkipped t0 w).
Proof. apply evolves_same_heap; [reflexivity | apply grows_markSkipped | reflexivity]. Qed.

Lemma evolves_quiet ctx w w' : quiet ctx w w' -> evolves ctx w w'.
Proof.
  intros (Hs & Ht & _ & Hk). split; [exact Hs|]. split; [|exact Hk].
  apply grows_same_tests. exact Ht.
Qed.

Lemma Call_sat fn t0 ctx args w :
  sat (Call fn t0 ctx args) w (fun o w' => o <> Crash /\ evolves ctx w w').
Proof.
  unfold Call. destruct (allAssignable args (fin fn)).
  - apply sat_bind. unfold sat at 1, emit, modify. cbn [fst snd].
    set (w1 := {| suite := suite w; tests := tests w; heap := heap w;
                  trace := trace w ++ [HandlerCall (fname fn) args] |}).
    assert (H1 : evolves ctx w w1).
    { apply evolves_same_heap; [reflexivity | apply grows_same_tests; reflexivity | reflexivity]. }
    apply sat_bind. unfold sat at 1, gets. cbn [fst snd].
    set (e := fbody fn args (content ctx w1)).
    apply sat_bind.
    assert (H2 : sat (if marksFailed e then tError t0 else ret ()) w1
                   (fun o w2 => o = Done () /\ evolves ctx w w2)).
    { destruct (marksFailed e); unfold sat, tError, modify, ret; cbn [fst snd].
      - split; [reflexivity|]. eapply evolves_trans; [exact H1 | apply evolves_markFailed].
      - auto. }
    eapply sat_weaken; [exact H2|]. intros o w2 [-> H2'].
    apply sat_bind.
    destruct (applySets_spec ctx (sets e) w2) as (w3 & Hsets & Hq).
    eapply sat_eq; [exact Hsets|].
    assert (H3 : evolves ctx w w3).
    { eapply evolves_trans; [exact H2' | apply evolves_quiet; exact Hq]. }
    destruct (ending e); unfold sat, ret, panic, lift, tFatal, tSkipNow; cbn [fst snd].
    + split; [discriminate | exact H3].
    + split; [discriminate | exact H3].
    + split; [discriminate|]. eapply evolves_trans; [exact H3 | apply evolves_markFailed].
    + split; [discriminate|]. eapply evolves_trans; [exact H3 | apply evolves_markSkipped].
  - unfold sat, panic, lift. cbn [fst snd]. split; [discriminate | apply evolves_refl].
Qed.

Lemma run_sat def ctx t0 params w :
  sat (run def ctx t0 params) w (fun o w' => calm o /\ evolves ctx w w').
Proof.
  unfold run. apply sat_deferRecover.
  destruct (length params + 2 =? length (fin (f def))).
  - eapply sat_weaken; [apply Call_sat|].
    intros [u| |v|] w1 [Hne Hev].
    + split; [exact I | exact Hev].
    + split; [exact I | exact Hev].
    + unfold sat, tError, modify. cbn [fst snd].
      split; [exact I|]. eapply evolves_trans; [exact Hev | apply evolves_markFailed].
    + congruence.
  - unfold sat, tFatal. cbn [fst snd]. split; [exact I | apply evolves_markFailed].
Qed.

Lemma check_Done ctx sub w :
  content ctx w !! TestingTKey = Some (VTestingT sub) -> check ctx w = (Done tt, w).
Proof.
  intros H. unfold check, bind, Get, gets. cbn [fst snd]. rewrite H. reflexivity.
Qed.

Lemma callBeforeSteps_eq ctx w :
  callBeforeSteps ctx w = callHooks BeforeStep (beforeStep (options (suite w))) ctx w.
Proof. reflexivity. Qed.

Lemma callAfterSteps_eq ctx w :
  callAfterSteps ctx w = callHooks AfterStep (afterStep (options (suite w))) ctx w.
Proof. reflexivity. Qed.

Lemma callHooks_sat k hooks ctx w :
  sat (callHooks k hooks ctx) w (fun o w' => o = Done tt /\ evolves ctx w w').
Proof.
  destruct (callHooks_spec k hooks ctx w) as (w' & Hrun & Hs & Ht & _ & Hk).
  eapply sat_eq; [exact Hrun|]. split; [reflexivity|].
  split; [exact Hs|]. split; [apply grows_same_tests; exact Ht | exact Hk].
Qed.

Lemma callBeforeSteps_sat ctx w :
  sat (callBeforeSteps ctx) w (fun o w' => o = Done tt /\ evolves ctx w w').
Proof. unfold sat. rewrite callBeforeSteps_eq. apply callHooks_sat. Qed.

Lemma callAfterSteps_sat ctx w :
  sat (callAfterSteps ctx) w (fun o w' => o = Done tt /\ evolves ctx w w').
Proof. unfold sat. rewrite callAfterSteps_eq. apply callHooks_sat. Qed.

(** A step keeps the suite, the tests and their failures, and the start
    time under [TimeKey]; the function handed to [t.Run] does not panic. *)
Definition stepKeeps (ctx : Context) (w w' : World) : Prop :=
  suite w' = suite w /\ grows w w' /\
  content ctx w' !! TimeKey = content ctx w !! TimeKey.

Lemma stepKeeps_trans ctx w1 w2 w3 :
  stepKeeps ctx w1 w2 -> stepKeeps ctx w2 w3 -> stepKeeps ctx w1 w3.
Proof.
  intros (Hs & Hg & Hk) (Hs' & Hg' & Hk').
  split; [congruence|]. split; [eapply grows_trans; eauto | congruence].
Qed.

Lemma stepKeeps_evolves ctx w w' : evolves ctx w w' -> stepKeeps ctx w w'.
Proof. intros (Hs & Hg & _ & Hk). repeat split; auto; apply Hg. Qed.

Lemma stepKeeps_Set_TestingT ctx v w : stepKeeps ctx w (snd (Set_ ctx TestingTKey v w)).
Proof.
  split; [reflexivity|]. split; [apply grows_same_tests; reflexivity|].
  rewrite content_Set_. apply lookup_insert_ne. discriminate.
Qed.

Lemma stepBody_sat def ctx params sub w :
  sat (stepBody def ctx params sub) w (fun o w' => calm o /\ stepKeeps ctx w w').
Proof.
  unfold stepBody. apply sat_bind. unfold sat at 1.
  change (Set_ ctx TestingTKey (VTestingT sub) w)
    with (Done tt, snd (Set_ ctx TestingTKey (VTestingT sub) w)).
  cbn [fst snd]. set (w1 := snd (Set_ ctx TestingTKey (VTestingT sub) w)).
  assert (Hk1 : content ctx w1 !! TestingTKey = Some (VTestingT sub)).
  { subst w1. rewrite content_Set_. apply lookup_insert_eq. }
  assert (H1 : stepKeeps ctx w w1) by apply stepKeeps_Set_TestingT.
  (* whatever happens in between, the handle is cleared at the end *)
  assert (Hend : forall A (o : Outcome A) w', calm o -> evolves ctx w1 w' ->
            sat (Set_ ctx TestingTKey VNil) w'
              (fun od w2 => match od with
                            | Done _ => calm o /\ stepKeeps ctx w w2
                            | _ => calm (@passOn unit A od) /\ stepKeeps ctx w w2
                            end)).
  { intros A o w' Hc Hev. unfold sat.
    change (Set_ ctx TestingTKey VNil w') with (Done tt, snd (Set_ ctx TestingTKey VNil w')).
    cbn [fst snd]. split; [exact Hc|].
    eapply stepKeeps_trans; [exact H1|].
    eapply stepKeeps_trans; [apply stepKeeps_evolves; exact Hev|].
    apply stepKeeps_Set_TestingT. }
  apply sat_defer. apply sat_bind.
  eapply sat_weaken; [apply callBeforeSteps_sat|]. intros o w2 [-> H2].
  (* the three deferred calls, from the innermost *)
  assert (Hinner :
    sat (defer (callAfterSteps ctx)
           (defer (check ctx)
              (run def ctx sub params ;;
               failed <- tFailed sub ;; skipped <- tSkipped sub ;; ret (failed, skipped))))
        w2 (fun o w' => calm o /\ evolves ctx w1 w')).
  { apply sat_defer. apply sat_defer. apply sat_bind.
    eapply sat_weaken; [apply run_sat|].
    intros [u| |v|] w3 [Hc H3]; cbn in Hc; try contradiction.
    - (* the handler returned, or its panic was recovered *)
      unfold sat at 1, bind, tFailed, tSkipped, gets, ret. cbn [fst snd].
      assert (H13 : evolves ctx w1 w3) by (eapply evolves_trans; eauto).
      eapply sat_eq;
        [apply (check_Done ctx sub w3); destruct H13 as (_ & _ & Hk & _);
         rewrite Hk; exact Hk1|].
      cbn iota.
      eapply sat_weaken; [apply callAfterSteps_sat|]. intros o w4 [-> H4].
      split; [exact I|]. eapply evolves_trans; eauto.
    - (* the handler left through Goexit *)
      cbn [passOn].
      assert (H13 : evolves ctx w1 w3) by (eapply evolves_trans; eauto).
      eapply sat_eq;
        [apply (check_Done ctx sub w3); destruct H13 as (_ & _ & Hk & _);
         rewrite Hk; exact Hk1|].
      cbn iota.
      eapply sat_weaken; [apply callAfterSteps_sat|]. intros o w4 [-> H4].
      split; [exact I|]. eapply evolves_trans; eauto. }
  eapply sat_weaken; [exact Hinner|].
  intros [r| |v|] w' [Hc Hev]; cbn in Hc; try contradiction.
  - apply (Hend _ (Done r) w' I Hev).
  - apply (Hend _ (@Goexit (bool * bool)) w' I Hev).
Qed.

(** A step returns its record, or ends the scenario because its text does
    not resolve; in the world it leaves, the failure of the test of the
    scenario is then recorded. It never panics. *)
Lemma runStep_sat ctx t0 step w :
  sat (runStep ctx t0 step) w
    (fun o w' =>
       stepKeeps ctx w w' /\
       ((exists r, o = Done r) \/
        (o = Goexit /\ findStepDef (suite w) (Msgs.Step_Text step) = None /\
         w' = markFailed t0 w))).
Proof.
  assert (Hkeep_fail : forall w', stepKeeps ctx w w' -> stepKeeps ctx w (markFailed t0 w')).
  { intros w' H. eapply stepKeeps_trans; [exact H|].
    apply stepKeeps_evolves. apply evolves_markFailed. }
  unfold runStep. apply sat_deferRecover. apply sat_bind.
  unfold sat at 1, getSuite, gets. cbn [fst snd].
  apply sat_bind.
  destruct (findStepDef (suite w) (Msgs.Step_Text step)) as [def|] eqn:Hdef.
  - unfold sat at 1, ret. cbn [fst snd]. apply sat_bind.
    destruct (FindSubmatch (expr def) (Msgs.Step_Text step)) as [[|m caps]|].
    + unfold sat, panic, lift, tError, modify. cbn [fst snd].
      split; [apply Hkeep_fail; apply stepKeeps_evolves, evolves_refl | eauto].
    + unfold sat at 1, ret. cbn [fst snd]. apply sat_bind. apply sat_tRun.
      set (w0 := setTests (tests w ++ [{| failed := false; skipped := false |}]) w).
      assert (H0 : stepKeeps ctx w w0).
      { split; [reflexivity|]. split; [apply grows_new_test | reflexivity]. }
      eapply sat_weaken; [apply stepBody_sat|].
      intros [r| |v|] w1 [Hc H1]; cbn in Hc; try contradiction.
      * assert (H01 : stepKeeps ctx w w1) by (eapply stepKeeps_trans; eauto).
        unfold generateFormattedStep. apply sat_bind.
        unfold sat at 1, Get, gets. cbn [fst snd].
        destruct (content ctx w1 !! TimeKey) as [[]|];
          unfold sat, ret, panic, lift, tError, modify; cbn [fst snd];
          (split; [first [exact H01 | apply Hkeep_fail; exact H01] | eauto]).
      * assert (H01 : stepKeeps ctx w w1) by (eapply stepKeeps_trans; eauto).
        unfold generateFormattedStep. apply sat_bind.
        unfold sat at 1, Get, gets. cbn [fst snd].
        destruct (content ctx w1 !! TimeKey) as [[]|];
          unfold sat, ret, panic, lift, tError, modify; cbn [fst snd];
          (split; [first [exact H01 | apply Hkeep_fail; exact H01] | eauto]).
    + unfold sat, panic, lift, tError, modify. cbn [fst snd].
      split; [apply Hkeep_fail; apply stepKeeps_evolves, evolves_refl | eauto].
  - unfold sat, tFatal. cbn [fst snd].
    split; [apply Hkeep_fail; apply stepKeeps_evolves, evolves_refl|].
    right. auto.
Qed.

Lemma runStep_unresolved ctx t0 step w :
  findStepDef (suite w) (Msgs.Step_Text step) = None ->
  runStep ctx t0 step w = (Goexit, markFailed t0 w).
Proof.
  intros H. unfold runStep, deferRecover, bind, getSuite, gets. cbn [fst snd].
  rewrite H. reflexivity.
Qed.

Lemma formatStep_eq ctx w : formatStep ctx w = (Done tt, snd (Set_ ctx TimeKey VTime w)).
Proof. reflexivity. Qed.

(** The steps of a scenario keep the suite; they return, or end the
    scenario at a step that does not resolve, with the test of the scenario
    failed. *)
Lemma runSteps_sat ctx t0 steps fs w :
  sat (runSteps ctx t0 steps fs) w
    (fun o w' =>
       suite w' = suite w /\ grows w w' /\
       ((exists r, o = Done r) \/
        (o = Goexit /\ (tid t0 < length (tests w) -> isFailed (tid t0) w')))).
Proof.
  unfold runSteps.
  apply (sat_foldM _
           (fun o w' =>
              suite w' = suite w /\ grows w w' /\
              ((exists r, o = Done r) \/
               (o = Goexit /\ (tid t0 < length (tests w) -> isFailed (tid t0) w'))))).
  - split; [reflexivity|]. split; [apply grows_refl | eauto].
  - intros acc w1 step (Hs & Hg & _).
    apply sat_bind. unfold sat at 1. rewrite formatStep_eq. cbn [fst snd].
    set (w2 := snd (Set_ ctx TimeKey VTime w1)).
    assert (Hs2 : suite w2 = suite w) by exact Hs.
    assert (Hg2 : grows w w2).
    { eapply grows_trans; [exact Hg | apply grows_same_tests; reflexivity]. }
    apply sat_bind. eapply sat_weaken; [apply runStep_sat|].
    intros o w3 [(Hs3 & Hg3 & _) Hcases].
    assert (Hs' : suite w3 = suite w) by congruence.
    assert (Hg' : grows w w3) by (eapply grows_trans; eauto).
    destruct Hcases as [[r ->] | (-> & _ & Hw3)].
    + unfold sat, ret. cbn [fst snd]. split; [exact Hs'|]. split; [exact Hg' | eauto].
    + cbn [passOn]. split; [exact Hs'|]. split; [exact Hg'|]. right.
      split; [reflexivity|]. intros Hlt. subst w3.
      apply isFailed_markFailed. destruct Hg2 as [Hlen _]. lia.
Qed.

(** A step that does not resolve ends the run of the steps: what comes
    after it in the list has no part in the run. *)
Lemma runSteps_unresolved ctx t0 pre st post fs w :
  findStepDef (suite w) (Msgs.Step_Text st) = None ->
  runSteps ctx t0 (pre ++ st :: post) fs w
  = (runSteps ctx t0 pre fs ;; formatStep ctx ;; tFatal t0) w.
Proof.
  intros Hnone. unfold runSteps at 1. rewrite foldM_app. fold (runSteps ctx t0 pre fs).
  pose proof (runSteps_sat ctx t0 pre fs w) as Hsat. unfold sat in Hsat.
  unfold bind at 1 4.
  destruct (runSteps ctx t0 pre fs w) as [[fs'| |v|] w1]; try reflexivity.
  cbn [fst snd] in Hsat. destruct Hsat as (Hs & _).
  cbn [foldM]. unfold bind. rewrite formatStep_eq.
  rewrite runStep_unresolved by (cbn; rewrite Hs; exact Hnone). reflexivity.
Qed.

(** ** A scenario with a step that does not resolve *)

(** The run of the steps ends at the first step that does not resolve, with
    the test of the scenario failed, whatever follows that step. *)
Lemma runSteps_ends ctx t0 pre st post fs w :
  findStepDef (suite w) (Msgs.Step_Text st) = None ->
  tid t0 < length (tests w) ->
  exists w',
    runSteps ctx t0 (pre ++ st :: post) fs w = (Goexit, w') /\
    (forall post', runSteps ctx t0 (pre ++ st :: post') fs w = (Goexit, w')) /\
    isFailed (tid t0) w' /\ suite w' = suite w /\ grows w w'.
Proof.
  intros Hnone Hlt.
  assert (Hrhs : exists w',
             (runSteps ctx t0 pre fs ;; formatStep ctx ;;
              tFatal (A := Cucumber.Scenario) t0) w = (Goexit, w') /\
             isFailed (tid t0) w' /\ suite w' = suite w /\ grows w w').
  { pose proof (runSteps_sat ctx t0 pre fs w) as Hsat. unfold sat in Hsat.
    unfold bind at 1.
    destruct (runSteps ctx t0 pre fs w) as [o w1]. cbn [fst snd] in Hsat.
    destruct Hsat as (Hs & Hg & [[r ->] | [-> Hf]]).
    - unfold bind, tFatal. rewrite formatStep_eq.
      eexists. split; [reflexivity|].
      assert (Hg2 : grows w (snd (Set_ ctx TimeKey VTime w1))).
      { eapply grows_trans; [exact Hg | apply grows_same_tests; reflexivity]. }
      split; [apply isFailed_markFailed; destruct Hg2 as [Hlen _]; lia|].
      split; [exact Hs|]. eapply grows_trans; [exact Hg2 | apply grows_markFailed].
    - exists w1. auto. }
  destruct Hrhs as (w' & Hrun & Hf & Hs & Hg).
  exists w'. split; [rewrite runSteps_unresolved by exact Hnone; exact Hrun|].
  split; [|auto]. intros post'. rewrite runSteps_unresolved by exact Hnone. exact Hrun.
Qed.

(** What [scenarioBody] runs between its scenario hooks *)
Definition scenarioSteps (ctx : Context) (scenario : Msgs.Scenario)
    (bkg : option Msgs.Background) (formattedscenario : Cucumber.Scenario)
    (t0 : T) : M Cucumber.Scenario :=
  match bkg with
  | Some b => runSteps ctx t0 (getBackgroundSteps b) zeroScenario ;; ret tt
  | None => ret tt
  end ;;
  if 0 <? length (Msgs.Scenario_Examples scenario) then
    c <- Clone ctx ;;
    steps <- getOutlineStep (Msgs.Scenario_Steps scenario)
               (Msgs.Scenario_Examples scenario) ;;
    runSteps c t0 steps formattedscenario
  else
    c <- Clone ctx ;;
    runSteps c t0 (Msgs.Scenario_Steps scenario) formattedscenario.

(** The frame of [scenarioBody] around them *)
Definition betweenScenarioHooks {A} (ctx : Context) (t0 : T) (inner : M A) : M A :=
  Set_ ctx TestingTKey (VTestingT t0) ;;
  defer (Set_ ctx TestingTKey VNil)
    (callBeforeScenarios ctx ;; defer (callAfterScenarios ctx) inner).

Lemma scenarioBody_eq ctx scenario bkg fs t0 :
  scenarioBody ctx scenario bkg fs t0
  = betweenScenarioHooks ctx t0 (scenarioSteps ctx scenario bkg fs t0).
Proof. reflexivity. Qed.

Lemma callBeforeScenarios_Done ctx w :
  exists w', callBeforeScenarios ctx w = (Done tt, w') /\
             suite w' = suite w /\ tests w' = tests w.
Proof.
  destruct (callHooks_spec BeforeScenario (beforeScenario (options (suite w))) ctx w)
    as (w' & Hrun & Hs & Ht & _).
  exists w'. auto.
Qed.

Lemma callAfterScenarios_Done ctx w :
  exists w', callAfterScenarios ctx w = (Done tt, w') /\
             suite w' = suite w /\ tests w' = tests w.
Proof.
  destruct (callHooks_spec AfterScenario (afterScenario (options (suite w))) ctx w)
    as (w' & Hrun & Hs & Ht & _).
  exists w'. auto.
Qed.

(** A body that ends in [Goexit]: the scenario hooks after it still run. *)
Lemma betweenScenarioHooks_Goexit_1 {A} ctx t0 (inner : M A) w w2 w3 w4 :
  callBeforeScenarios ctx (snd (Set_ ctx TestingTKey (VTestingT t0) w)) = (Done tt, w2) ->
  inner w2 = (Goexit, w3) ->
  callAfterScenarios ctx w3 = (Done tt, w4) ->
  betweenScenarioHooks ctx t0 inner w = (Goexit, snd (Set_ ctx TestingTKey VNil w4)).
Proof.
  intros H2 H3 H4. unfold betweenScenarioHooks.
  unfold bind at 1.
  change (Set_ ctx TestingTKey (VTestingT t0) w)
    with (Done tt, snd (Set_ ctx TestingTKey (VTestingT t0) w)).
  cbn iota. unfold defer at 1. unfold bind at 1. rewrite H2.
  unfold defer at 1. rewrite H3, H4. reflexivity.
Qed.

(** Two bodies that both end in [Goexit] in the same world, with the test
    [i] failed, give the same run between the scenario hooks. *)
Lemma betweenScenarioHooks_Goexit {A} ctx t0 (inner1 inner2 : M A) i w :
  (forall w2, suite w2 = suite w -> tests w2 = tests w ->
              exists w3, inner1 w2 = (Goexit, w3) /\ inner2 w2 = (Goexit, w3) /\
                         isFailed i w3 /\ suite w3 = suite w) ->
  exists w',
    betweenScenarioHooks ctx t0 inner1 w = (Goexit, w') /\
    betweenScenarioHooks ctx t0 inner2 w = (Goexit, w') /\
    isFailed i w' /\ suite w' = suite w.
Proof.
  intros Hinner.
  destruct (callBeforeScenarios_Done ctx (snd (Set_ ctx TestingTKey (VTestingT t0) w)))
    as (w2 & H2 & Hs2 & Ht2).
  destruct (Hinner w2 Hs2 Ht2) as (w3 & H31 & H32 & Hf & Hs3).
  destruct (callAfterScenarios_Done ctx w3) as (w4 & H4 & Hs4 & Ht4).
  exists (snd (Set_ ctx TestingTKey VNil w4)).
  split; [eapply betweenScenarioHooks_Goexit_1; eauto|].
  split; [eapply betweenScenarioHooks_Goexit_1; eauto|].
  split.
  - unfold isFailed in *. cbn [Set_ modify snd tests setHeap]. rewrite Ht4. exact Hf.
  - cbn [Set_ modify snd suite setHeap]. congruence.
Qed.

Definition withSteps (sc : Msgs.Scenario) (steps : list Msgs.Step) : Msgs.Scenario :=
  {| Msgs.Scenario_Tags := Msgs.Scenario_Tags sc;
     Msgs.Scenario_Id := Msgs.Scenario_Id sc;
     Msgs.Scenario_Keyword := Msgs.Scenario_Keyword sc;
     Msgs.Scenario_Name := Msgs.Scenario_Name sc;
     Msgs.Scenario_Description := Msgs.Scenario_Description sc;
     Msgs.Scenario_Steps := steps;
     Msgs.Scenario_Examples := Msgs.Scenario_Examples sc |}.

(** [UnresolvedAt s sc bkg sc' bkg']: a step that is handed to the step
    runner for the scenario [sc] with the background [bkg] does not resolve
    in the suite [s]; [sc'] and [bkg'] are the scenario and the background
    cut after that step. The step is a step of the background, or a step of
    the scenario when this is not an outline. *)
Inductive UnresolvedAt (s : Suite) (sc : Msgs.Scenario) (bkg : option Msgs.Background)
  : Msgs.Scenario -> option Msgs.Background -> Prop :=
| Unresolved_in_background b pre st post :
    bkg = Some b ->
    Msgs.Background_Steps b = pre ++ st :: post ->
    findStepDef s (Msgs.Step_Text st) = None ->
    UnresolvedAt s sc bkg (withSteps sc [])
      (Some {| Msgs.Background_Steps := pre ++ [st] |})
| Unresolved_in_scenario pre st post :
    Msgs.Scenario_Examples sc = [] ->
    Msgs.Scenario_Steps sc = pre ++ st :: post ->
    findStepDef s (Msgs.Step_Text st) = None ->
    UnresolvedAt s sc bkg (withSteps sc (pre ++ [st])) bkg.

(** The background, if any, runs in front of the steps. *)
Definition backgroundFirst (ctx : Context) (bkg : option Msgs.Background) (t0 : T)
    : M unit :=
  match bkg with
  | Some b => runSteps ctx t0 (getBackgroundSteps b) zeroScenario ;; ret tt
  | None => ret tt
  end.

Lemma backgroundFirst_sat ctx bkg t0 w :
  sat (backgroundFirst ctx bkg t0) w
    (fun o w' =>
       suite w' = suite w /\ grows w w' /\
       (o = Done tt \/
        (o = Goexit /\ (tid t0 < length (tests w) -> isFailed (tid t0) w')))).
Proof.
  unfold backgroundFirst. destruct bkg as [b|].
  - apply sat_bind. eapply sat_weaken; [apply runSteps_sat|].
    intros o w' (Hs & Hg & [[r ->] | [-> Hf]]).
    + unfold sat, ret. cbn [fst snd]. auto.
    + cbn [passOn]. auto.
  - unfold sat, ret. cbn [fst snd]. split; [reflexivity|].
    split; [apply grows_refl | auto].
Qed.

(** The steps of a scenario that is no outline, behind the background: the
    run ends at the step that does not resolve, whatever follows it. *)
Lemma plainSteps_end ctx bkg t0 pre st fs w0 w2 :
  findStepDef (suite w0) (Msgs.Step_Text st) = None ->
  suite w2 = suite w0 ->
  tid t0 < length (tests w2) ->
  exists w3,
    (forall post,
        (backgroundFirst ctx bkg t0 ;;
         c <- Clone ctx ;; runSteps c t0 (pre ++ st :: post) fs) w2 = (Goexit, w3)) /\
    isFailed (tid t0) w3 /\ suite w3 = suite w0.
Proof.
  intros Hnone Hs2 Hlt.
  pose proof (backgroundFirst_sat ctx bkg t0 w2) as Hsat. unfold sat in Hsat.
  destruct (backgroundFirst ctx bkg t0 w2) as [o w3] eqn:Hbkg. cbn [fst snd] in Hsat.
  destruct Hsat as (Hs3 & Hg3 & [-> | [-> Hf]]).
  - set (w4 := snd (Clone ctx w3)).
    assert (Hnone4 : findStepDef (suite w4) (Msgs.Step_Text st) = None).
    { subst w4. cbn [Clone snd suite setHeap]. rewrite Hs3, Hs2. exact Hnone. }
    assert (Hlt4 : tid t0 < length (tests w4)).
    { subst w4. cbn [Clone snd tests setHeap]. destruct Hg3 as [Hlen _]. lia. }
    destruct (runSteps_ends (fresh (dom (heap w3))) t0 pre st [] fs w4 Hnone4 Hlt4)
      as (w5 & _ & Hany & Hf & Hs5 & _).
    exists w5. split.
    + intros post. unfold bind at 1. rewrite Hbkg. unfold bind. cbn [Clone fst snd].
      apply Hany.
    + split; [exact Hf|]. rewrite Hs5. subst w4. cbn [Clone snd suite setHeap]. congruence.
  - exists w3. split.
    + intros post. unfold bind at 1. rewrite Hbkg. reflexivity.
    + split; [exact (Hf Hlt) | congruence].
Qed.

Lemma scenarioSteps_plain ctx sc bkg fs t0 :
  Msgs.Scenario_Examples sc = [] ->
  scenarioSteps ctx sc bkg fs t0
  = (backgroundFirst ctx bkg t0 ;;
     c <- Clone ctx ;; runSteps c t0 (Msgs.Scenario_Steps sc) fs).
Proof. intros Hex. unfold scenarioSteps. rewrite Hex. reflexivity. Qed.

Lemma scenarioSteps_unresolved ctx sc bkg sc' bkg' fs t0 w0 w2 :
  UnresolvedAt (suite w0) sc bkg sc' bkg' ->
  suite w2 = suite w0 ->
  tid t0 < length (tests w2) ->
  exists w3,
    scenarioSteps ctx sc bkg fs t0 w2 = (Goexit, w3) /\
    scenarioSteps ctx sc' bkg' fs t0 w2 = (Goexit, w3) /\
    isFailed (tid t0) w3 /\ suite w3 = suite w0.
Proof.
  intros Hun Hs2 Hlt.
  destruct Hun as [b pre st post -> Hb Hnone | pre st post Hex Hsteps Hnone].
  - (* in the background *)
    rewrite <- Hs2 in Hnone.
    destruct (runSteps_ends ctx t0 pre st post zeroScenario w2 Hnone Hlt)
      as (w3 & _ & Hany & Hf & Hs3 & _).
    exists w3.
    assert (Hend : forall sc0 post',
               scenarioSteps ctx sc0 (Some {| Msgs.Background_Steps := pre ++ st :: post' |})
                 fs t0 w2 = (Goexit, w3)).
    { intros sc0 post'. unfold scenarioSteps, getBackgroundSteps.
      cbn [Msgs.Background_Steps]. unfold bind. rewrite (Hany post'). reflexivity. }
    split.
    + destruct b as [bsteps]. cbn [Msgs.Background_Steps] in Hb. subst bsteps. apply Hend.
    + split; [apply (Hend _ [])|]. split; [exact Hf | congruence].
  - (* in the scenario, which has no example tables *)
    destruct (plainSteps_end ctx bkg t0 pre st fs w0 w2 Hnone Hs2 Hlt)
      as (w3 & Hany & Hf & Hs3).
    exists w3. rewrite !scenarioSteps_plain by (try exact Hex; cbn; exact Hex).
    cbn [withSteps Msgs.Scenario_Steps]. rewrite Hsteps.
    split; [apply Hany|]. split; [apply (Hany [])|]. auto.
Qed.

(** C6, for the steps of a background and of a scenario without example
    tables: when such a step resolves to no registered definition, the
    scenario ends there: [runScenario] returns to the loop over the
    scenarios with the record of the scenario, without steps, so the
    scenarios and features that follow are run; the test of the scenario is
    marked failed; and the run is, call for call and state for state, the
    run of the scenario cut after the unresolved step, so no handler and no
    step hook runs for the steps after it. *)
Theorem unresolved_step_ends_scenario (ctx : Context) (sc : Msgs.Scenario)
    (bkg : option Msgs.Background) (t0 : T) (w : World)
    (sc' : Msgs.Scenario) (bkg' : option Msgs.Background) :
  UnresolvedAt (suite w) sc bkg sc' bkg' ->
  exists w',
    runScenario ctx sc bkg t0 w = (Done (Cucumber.FormatScenario sc), w') /\
    isFailed (length (tests w)) w' /\
    runScenario ctx sc' bkg' t0 w = (Done (Cucumber.FormatScenario sc), w') /\
    suite w' = suite w.
Proof.
  intros Hun. unfold runScenario.
  set (tsc := {| tid := length (tests w); parents := tid t0 :: parents t0 |}).
  set (w0 := setTests (tests w ++ [{| failed := false; skipped := false |}]) w).
  assert (Hfmt : Cucumber.FormatScenario sc' = Cucumber.FormatScenario sc).
  { destruct Hun; reflexivity. }
  rewrite Hfmt.
  destruct (betweenScenarioHooks_Goexit ctx tsc
              (scenarioSteps ctx sc bkg (Cucumber.FormatScenario sc) tsc)
              (scenarioSteps ctx sc' bkg' (Cucumber.FormatScenario sc) tsc)
              (tid tsc) w0) as (w' & H1 & H2 & Hf & Hs).
  { intros w2 Hs2 Ht2.
    apply (scenarioSteps_unresolved ctx sc bkg sc' bkg' _ tsc w0 w2).
    - exact Hun.
    - exact Hs2.
    - rewrite Ht2. subst w0 tsc. cbn [tests setTests tid]. rewrite length_app. cbn. lia. }
  exists w'. unfold bind, tRun. fold tsc. fold w0.
  rewrite !scenarioBody_eq, H1, H2. unfold ret. cbn [default].
  split; [reflexivity|]. split; [exact Hf|]. split; [reflexivity | exact Hs].
Qed.

(** ** A handler that panics *)

Lemma bind_Done {A B} (m : M A) (k : A -> M B) w a w' :
  m w = (Done a, w') -> bind m k w = k a w'.
Proof. unfold bind. intros ->. reflexivity. Qed.

Lemma defer_Done {A} (d : M unit) (body : M A) w a w1 w2 :
  body w = (Done a, w1) -> d w1 = (Done tt, w2) -> defer d body w = (Done a, w2).
Proof. unfold defer. intros -> ->. reflexivity. Qed.

Lemma markFailed_tests t0 w w' :
  tests w' = tests w -> tests (markFailed t0 w') = tests (markFailed t0 w).
Proof. unfold markFailed. cbn [tests setTests]. intros ->. reflexivity. Qed.

(** The arguments of the call of the handler of [def] for the captures *)
Definition callArgs (def : stepDef) (ctx : Context) (t0 : T) (params : list string)
    : list gvalue :=
  GTesting t0 :: GContext ctx :: coerce params (drop 2 (fin (f def))).


(** The test that [t.Run] creates in [w] under [t0] *)
Definition subTest (t0 : T) (w : World) : T :=
  {| tid := length (tests w); parents := tid t0 :: parents t0 |}.

(** The world in which the handler of a step that starts in [w] is called:
    the start time is stored, the test of the step is created and stored,
    and the before-step hooks have run. *)
Definition atHandlerCall (ctx : Context) (t0 : T) (w : World) : World :=
  snd ((Set_ ctx TestingTKey (VTestingT (subTest t0 w)) ;; callBeforeSteps ctx)
         (setTests (tests w ++ [{| failed := false; skipped := false |}])
            (snd (formatStep ctx w)))).


(** The captures that [runStep] hands to the handler of [def]:
    [FindStringSubmatch(text)[1:]] *)
Definition captures (def : stepDef) (text : string) : list string :=
  match FindSubmatch (expr def) text with
  | Some (_ :: caps) => caps
  | _ => []
  end.


(* ===================================================================== *)
(** * More of the suite: tags, records, registration *)
(* ===================================================================== *)

(** ** Tags *)

Lemma tagged_dec names l : tagged names l \/ ~ tagged names l.
Proof.
  destruct (existsb (fun tag => contains names (Msgs.Tag_Name tag)) l) eqn:E.
  - left. apply existsb_tagged. exact E.
  - right. intros H. apply existsb_tagged in H. congruence.
Qed.

(** X1: A scenario is run exactly when none of its tags is ignored and the
    allow-list is empty or names one of its tags: an ignored tag wins over
    an allowed one. *)
Theorem skipScenario_false_iff (s : Suite) (scenarioTags : list Msgs.Tag) :
  skipScenario s scenarioTags = false <->
  ~ tagged (ignoreTags (options s)) scenarioTags /\
  (tags (options s) = [] \/ tagged (tags (options s)) scenarioTags).
Proof.
  rewrite <- Bool.not_true_iff_false, skipScenario_true. split.
  - intros H. split; [intros Hi; apply H; left; exact Hi|].
    destruct (tagged_dec (tags (options s)) scenarioTags) as [Ha | Ha]; [right; exact Ha|].
    destruct (tags (options s)) as [|tg tgs] eqn:Htags; [left; reflexivity|].
    exfalso. apply H. right. split; [discriminate | exact Ha].
  - intros [Hi Hor] [H1 | [H1 H2]]; [tauto|].
    destruct Hor; [congruence | tauto].
Qed.

(** ** The records of steps that are not run *)

(** X2: [FormatScenarioWithSteps] records every step of the scenario once, in
    order, with its keyword, text and line and with the given status, under
    the head that [FormatScenario] gives the scenario. *)
Theorem FormatScenarioWithSteps_records_every_step (sc : Msgs.Scenario)
    (status : string) :
  let r := Cucumber.FormatScenarioWithSteps sc status in
  map Cucumber.Step_Name (Cucumber.Steps r) = map Msgs.Step_Text (Msgs.Scenario_Steps sc) /\
  map Cucumber.Step_Keyword (Cucumber.Steps r)
  = map Msgs.Step_Keyword (Msgs.Scenario_Steps sc) /\
  map Cucumber.Step_Line (Cucumber.Steps r)
  = map Msgs.Step_Location (Msgs.Scenario_Steps sc) /\
  Forall (fun st => Cucumber.RunStatus (Cucumber.StepResult st) = status)
         (Cucumber.Steps r) /\
  Cucumber.withSteps r [] = Cucumber.FormatScenario sc.
Proof.
  cbv zeta. rewrite FormatScenarioWithSteps_eq. cbn [Cucumber.withSteps Cucumber.Steps].
  rewrite !map_map. cbn [unrunStep Cucumber.Step_Name Cucumber.Step_Keyword Cucumber.Step_Line].
  repeat split.
  apply Forall_forall. intros st Hin. apply list_elem_of_In in Hin.
  apply in_map_iff in Hin as (st0 & <- & _). reflexivity.
Qed.

(** The scenarios among the children, when every child is a scenario *)
Fixpoint allScenarios (children : list Msgs.FeatureChild) : option (list Msgs.Scenario) :=
  match children with
  | [] => Some []
  | child :: rest =>
      match Msgs.GetScenario child, allScenarios rest with
      | Some sc, Some scs => Some (sc :: scs)
      | _, _ => None
      end
  end.

Lemma formatChildren_spec children ft :
  Cucumber.formatChildren ft children
  = match allScenarios children with
    | Some scs =>
        Done (fold_left Cucumber.AddScenario
                (map (fun sc => Cucumber.FormatScenarioWithSteps sc EmptyString) scs) ft)
    | None => Panic "invalid memory address or nil pointer dereference"
    end.
Proof.
  revert ft. induction children as [|child rest IH]; intros ft;
    cbn [Cucumber.formatChildren allScenarios]; [reflexivity|].
  destruct (Msgs.GetScenario child) as [sc|]; [|reflexivity].
  rewrite IH. destruct (allScenarios rest); reflexivity.
Qed.

Lemma Elements_fold_AddScenario l ft :
  Cucumber.Elements (fold_left Cucumber.AddScenario l ft) = Cucumber.Elements ft ++ l.
Proof.
  revert ft. induction l as [|sc l IH]; intros ft; cbn [fold_left].
  - rewrite app_nil_r. reflexivity.
  - rewrite IH. cbn [Cucumber.AddScenario Cucumber.Elements].
    rewrite <- app_assoc. reflexivity.
Qed.

Lemma allScenarios_None children :
  allScenarios children = None <->
  exists child, In child children /\ Msgs.GetScenario child = None.
Proof.
  induction children as [|child rest IH]; cbn [allScenarios In].
  - split; [discriminate | intros (c & [] & _)].
  - destruct (Msgs.GetScenario child) as [sc|] eqn:Hc.
    + destruct (allScenarios rest) as [scs|].
      * split; [discriminate|]. intros (c & [<- | Hin] & Hn); [congruence|].
        exfalso. assert (Hno : Some scs = None) by (apply IH; eauto). discriminate.
      * split; [|reflexivity]. intros _.
        destruct (proj1 IH eq_refl) as (c & Hin & Hn). eauto.
    + split; [|reflexivity]. intros _. exists child. auto.
Qed.

(** X3: [FormatFeatureWithScenario] gives one element for every child, in
    order, each with its steps recorded under the empty status, when every
    child is a scenario; it panics exactly when some child is not one. *)
Theorem FormatFeatureWithScenario_spec (ft : Msgs.Feature) :
  match Cucumber.FormatFeatureWithScenario ft with
  | Done r =>
      exists scs,
        map Msgs.Child_Scenario scs = Msgs.Feature_Children ft /\
        Cucumber.Elements r
        = map (fun sc => Cucumber.FormatScenarioWithSteps sc EmptyString) scs /\
        Cucumber.Feature_Name r = Msgs.Feature_Name ft /\
        Cucumber.Feature_Linenumber r = Msgs.Feature_Location ft
  | Panic _ =>
      exists child, In child (Msgs.Feature_Children ft) /\ Msgs.GetScenario child = None
  | _ => False
  end.
Proof.
  unfold Cucumber.FormatFeatureWithScenario. rewrite formatChildren_spec.
  destruct (allScenarios (Msgs.Feature_Children ft)) as [scs|] eqn:Hall.
  - exists scs. split.
    + revert scs Hall. induction (Msgs.Feature_Children ft) as [|child rest IH];
        intros scs; cbn [allScenarios].
      * intros [= <-]. reflexivity.
      * destruct child as [b|sc|]; cbn [Msgs.GetScenario]; [discriminate| |discriminate].
        destruct (allScenarios rest) as [scs'|]; [|discriminate].
        intros [= <-]. cbn [map]. rewrite (IH scs' eq_refl). reflexivity.
    + split; [rewrite Elements_fold_AddScenario; reflexivity|].
      assert (H : forall l f0,
                 Cucumber.Feature_Name (fold_left Cucumber.AddScenario l f0)
                 = Cucumber.Feature_Name f0 /\
                 Cucumber.Feature_Linenumber (fold_left Cucumber.AddScenario l f0)
                 = Cucumber.Feature_Linenumber f0).
      { induction l as [|x l IH]; intros f0; cbn [fold_left]; [auto|].
        destruct (IH (Cucumber.AddScenario f0 x)) as [-> ->]. auto. }
      destruct (H (map (fun sc => Cucumber.FormatScenarioWithSteps sc EmptyString) scs)
                  (Cucumber.FormatFeature ft)) as [-> ->]. auto.
  - apply allScenarios_None. exact Hall.
Qed.

(** ** The cells of a row *)

Lemma stepFromExampleLoop_bounds placeholders row :
  forall i stepName e,
    match stepFromExampleLoop i placeholders row stepName e with
    | Done _ => i + length placeholders <= length row \/ placeholders = []
    | Panic _ => length row < i + length placeholders
    | _ => False
    end.
Proof.
  induction placeholders as [|ph rest IH]; intros i stepName e; cbn [stepFromExampleLoop].
  - right. reflexivity.
  - destruct (row !! i) as [cell|] eqn:Hcell.
    + apply lookup_lt_Some in Hcell.
      specialize (IH (S i) (Strings.ReplaceAll stepName ph cell)
                     (Strings.ReplaceAll e ph (getRegexpForVar cell))).
      destruct (stepFromExampleLoop (S i) rest row _ _); cbn [length] in *; try lia.
      left. destruct IH as [IH | ->]; cbn [length] in *; lia.
    + apply lookup_ge_None in Hcell. cbn [length]. lia.
Qed.

(** X4: [stepFromExample] reads one cell of the row for every placeholder of
    the header: it returns when the row has at least as many cells as the
    header and panics, index out of range, when it has fewer. *)
Theorem stepFromExample_bounds (stepName : string) (row placeholders : list string) :
  match stepFromExample stepName row placeholders with
  | Done _ => length placeholders <= length row
  | Panic _ => length row < length placeholders
  | _ => False
  end.
Proof.
  unfold stepFromExample.
  pose proof (stepFromExampleLoop_bounds placeholders row 0 stepName stepName) as H.
  destruct (stepFromExampleLoop 0 placeholders row stepName stepName); try lia.
  destruct H as [H | ->]; cbn [length] in *; lia.
Qed.

(** ** Registration and lookup *)

Lemma findStepDef_of_registered s text i sd :
  steps s !! i = Some sd -> matches text sd = true -> findStepDef s text <> None.
Proof.
  intros Hi Hm Hnone.
  rewrite (proj1 (findStepDef_None s text) Hnone i sd Hi) in Hm. discriminate.
Qed.

(** X5: [AddRegexStep] with a handler that [validateStepFunc] accepts appends
    one definition, the regular expression bound to the handler, and from
    then on every text that the expression matches resolves. *)
Theorem AddRegexStep_registers (e : Regexp) (step : StepFunc) (w : World) :
  validateStepFunc step = true ->
  exists w',
    AddRegexStep e step w = (Done tt, w') /\
    steps (suite w') = steps (suite w) ++ [{| expr := e; f := step |}] /\
    hasStepErrors (suite w') = hasStepErrors (suite w) /\
    tests w' = tests w /\
    forall text, MatchString e text = true -> findStepDef (suite w') text <> None.
Proof.
  intros Hvalid. unfold AddRegexStep, bind, getSuite, gets. cbn [fst snd].
  rewrite Hvalid. unfold modifySuite, modify.
  eexists. split; [reflexivity|]. cbn [suite setSuite steps setSteps hasStepErrors tests].
  repeat split.
  intros text Hm.
  apply (findStepDef_of_registered _ text (length (steps (suite w)))
           {| expr := e; f := step |}); [|exact Hm].
  cbn [steps setSteps]. rewrite lookup_app_r, Nat.sub_diag by lia. reflexivity.
Qed.

(** X6: [AddStep] with an accepted handler and a pattern that compiles
    registers the compiled pattern first, in front of whatever the
    parameter types add, and every text it matches resolves afterwards. *)
Theorem AddStep_registers (e : string) (step : StepFunc) (w : World) (re : Regexp) :
  validateStepFunc step = true ->
  Compile e = Some re ->
  exists w' more,
    AddStep e step w = (Done tt, w') /\
    steps (suite w') = steps (suite w) ++ {| expr := re; f := step |} :: more /\
    forall text, MatchString re text = true -> findStepDef (suite w') text <> None.
Proof.
  intros Hvalid Hre. unfold AddStep. unfold bind at 1, getSuite at 1, gets at 1.
  cbn [fst snd]. rewrite Hvalid, applyParameterTypes_eq. cbn [addCompiled]. rewrite Hre.
  unfold bind at 1. unfold modifySuite at 1, modify at 1. cbn [fst snd].
  set (w1 := setSuite _ w).
  destruct (addCompiled_spec (flat_map (expansions e) (parameterTypes (suite w))) step w1)
    as (w' & res & Hrun & Hsteps & _).
  exists w', (bound step res). split; [exact Hrun|].
  assert (Heq : steps (suite w') = steps (suite w) ++ {| expr := re; f := step |} :: bound step res).
  { rewrite Hsteps. subst w1. cbn [suite setSuite steps setSteps].
    rewrite <- app_assoc. reflexivity. }
  split; [exact Heq|].
  intros text Hm.
  apply (findStepDef_of_registered _ text (length (steps (suite w)))
           {| expr := re; f := step |}); [|exact Hm].
  rewrite Heq, lookup_app_r, Nat.sub_diag by lia. reflexivity.
Qed.

(** X7: Registration never takes a resolution away: a text that resolves
    before [AddStep] resolves after it, whatever is added. *)
Theorem AddStep_keeps_resolution (e : string) (step : StepFunc) (w : World)
    (text : string) :
  findStepDef (suite w) text <> None ->
  findStepDef (suite (snd (AddStep e step w))) text <> None.
Proof.
  intros H. destruct (AddStep_spec e step w) as (w' & more & Hrun & Hsteps & _).
  rewrite Hrun. cbn [snd].
  eapply findStepDef_mono; [exists more; exact Hsteps | exact H].
Qed.

(** X8: A registration that fails, because [validateStepFunc] rejects the
    handler or because the pattern does not compile, registers nothing,
    reports the error on the test of the suite and sets [hasStepErrors];
    [Run] then ends the test at once and runs nothing, whatever the
    features are. *)
Theorem failed_registration_blocks_Run (e : string) (step : StepFunc) (w : World) :
  validateStepFunc step = false \/ Compile e = None ->
  exists w1,
    AddStep e step w = (Done tt, w1) /\
    steps (suite w1) = steps (suite w) /\
    hasStepErrors (suite w1) = true /\
    tests w1 = tests (markFailed (t (suite w)) w) /\
    forall docs,
      exists w2,
        Run docs w1 = (Goexit, w2) /\
        trace w2 = trace w /\
        tests w2 = tests w1 /\
        suite w2 = suite w1.
Proof.
  intros Hbad.
  assert (Hadd : AddStep e step w
                 = (Done tt, setSuite (setHasStepErrors true (suite w))
                               (markFailed (t (suite w)) w))).
  { unfold AddStep. unfold bind at 1, getSuite at 1, gets at 1. cbn [fst snd].
    destruct (validateStepFunc step) eqn:Hvalid.
    - destruct Hbad as [Hbad | Hbad]; [discriminate|].
      rewrite applyParameterTypes_eq. cbn [addCompiled]. rewrite Hbad. reflexivity.
    - reflexivity. }
  eexists. split; [exact Hadd|].
  cbn [suite setSuite steps setHasStepErrors hasStepErrors tests markFailed setTests].
  repeat split.
  intros docs. unfold Run, bind, getSuite, gets, tFatal.
  cbn [fst snd suite setSuite hasStepErrors setHasStepErrors t].
  eexists. split; [reflexivity|].
  split; [reflexivity|]. split; [|reflexivity].
  change (tests (markFailed (t (suite w))
                   (setSuite (setHasStepErrors true (suite w)) (markFailed (t (suite w)) w)))
          = tests (markFailed (t (suite w)) w)).
  etransitivity; [|apply markFailed_idem]. apply markFailed_tests. reflexivity.
Qed.

(** ** Parameter types *)

(** [s.parameterTypes[from]], nil when the key is missing *)
Fixpoint fragmentsOf (from : string) (pt : list (string * list string)) : list string :=
  match pt with
  | [] => []
  | (k, frags) :: rest => if String.eqb k from then frags else fragmentsOf from rest
  end.

Lemma fragmentsOf_appendFragment from to pt k :
  fragmentsOf k (appendFragment from to pt)
  = if String.eqb k from then fragmentsOf from pt ++ [to] else fragmentsOf k pt.
Proof.
  induction pt as [|[k0 frags] rest IH]; cbn [appendFragment fragmentsOf].
  - rewrite (String.eqb_sym from k). destruct (String.eqb k from); reflexivity.
  - destruct (String.eqb_spec k0 from) as [E | Hne]; cbn [fragmentsOf].
    + rewrite E, (String.eqb_sym from k). destruct (String.eqb k from); reflexivity.
    + rewrite IH. destruct (String.eqb_spec k0 k) as [E | Hk0]; [|reflexivity].
      destruct (String.eqb_spec k from); [congruence | reflexivity].
Qed.

Lemma fragmentsOf_In from pt t0 :
  In t0 (fragmentsOf from pt) -> exists entry, In entry pt /\ fst entry = from /\ In t0 (snd entry).
Proof.
  induction pt as [|[k frags] rest IH]; cbn [fragmentsOf]; [intros []|].
  destruct (String.eqb_spec k from) as [-> | Hne].
  - intros H. exists (from, frags). cbn. auto.
  - intros H. destruct (IH H) as (entry & Hin & Hk & Ht). exists entry. cbn. auto.
Qed.

Lemma AddParameterTypes_run from to :
  forall w,
    Forall (fun t0 => Compile t0 <> None) to ->
    exists w',
      AddParameterTypes from to w = (Done tt, w') /\
      (forall k, fragmentsOf k (parameterTypes (suite w'))
                 = if String.eqb k from
                   then fragmentsOf from (parameterTypes (suite w)) ++ to
                   else fragmentsOf k (parameterTypes (suite w))) /\
      steps (suite w') = steps (suite w) /\ options (suite w') = options (suite w) /\
      tests w' = tests w /\ trace w' = trace w.
Proof.
  induction to as [|to1 rest IH]; intros w Hall; cbn [AddParameterTypes].
  - exists w. split; [reflexivity|]. split; [|auto].
    intros k. rewrite app_nil_r. destruct (String.eqb_spec k from); congruence.
  - inversion Hall as [|? ? Hc Hrest]; subst.
    unfold bind at 1, getSuite at 1, gets at 1. cbn [fst snd].
    destruct (Compile to1) as [c|]; [|congruence].
    unfold bind at 1, ret at 1. cbn [fst snd].
    unfold bind at 1. unfold modifySuite at 1, modify at 1. cbn [fst snd].
    set (w1 := setSuite _ w).
    destruct (IH w1 Hrest) as (w' & Hrun & Hfr & Hst & Hop & Hte & Htr).
    exists w'. split; [exact Hrun|]. split; [|subst w1; cbn in *; auto].
    intros k. rewrite Hfr. subst w1. cbn [suite setSuite parameterTypes setParameterTypes].
    rewrite !fragmentsOf_appendFragment, String.eqb_refl.
    destruct (String.eqb k from); [rewrite <- app_assoc; reflexivity | reflexivity].
Qed.

(** X9: [AddParameterTypes] with fragments that compile adds them, in order,
    behind the fragments the token already has, and leaves the other tokens
    alone; a pattern that contains the token then has one candidate for
    each of the new fragments. *)
Theorem AddParameterTypes_accumulates (from : string) (to : list string) (w : World) :
  Forall (fun t0 => Compile t0 <> None) to ->
  exists w',
    AddParameterTypes from to w = (Done tt, w') /\
    fragmentsOf from (parameterTypes (suite w'))
    = fragmentsOf from (parameterTypes (suite w)) ++ to /\
    (forall k, k <> from ->
               fragmentsOf k (parameterTypes (suite w'))
               = fragmentsOf k (parameterTypes (suite w))) /\
    (forall e t0, In t0 to -> Strings.Contains e from = true ->
                  In (Strings.ReplaceAll e from t0) (applyParameterTypes (suite w') e)) /\
    steps (suite w') = steps (suite w) /\ tests w' = tests w.
Proof.
  intros Hall.
  destruct (AddParameterTypes_run from to w Hall) as (w' & Hrun & Hfr & Hst & _ & Hte & _).
  exists w'. split; [exact Hrun|].
  assert (Hfrom : fragmentsOf from (parameterTypes (suite w'))
                  = fragmentsOf from (parameterTypes (suite w)) ++ to).
  { rewrite Hfr, String.eqb_refl. reflexivity. }
  split; [exact Hfrom|].
  split.
  { intros k Hk. rewrite Hfr. destruct (String.eqb_spec k from); [congruence | reflexivity]. }
  split; [|auto].
  intros e t0 Hin Hc.
  destruct (fragmentsOf_In from (parameterTypes (suite w')) t0) as (entry & Hentry & Hk & Ht).
  { rewrite Hfrom. apply in_or_app. right. exact Hin. }
  rewrite applyParameterTypes_eq. right.
  apply in_flat_map. exists entry. split; [exact Hentry|].
  apply in_expansions. exists t0. rewrite Hk. auto.
Qed.

(** X10: A fragment that does not compile is fatal: [AddParameterTypes] ends
    the test of the suite there, failed; the fragments in front of it are
    registered, the fragment itself and those behind it are not. *)
Theorem AddParameterTypes_stops_at_bad_fragment (from : string)
    (pre : list string) (bad : string) (post : list string) (w : World) :
  Forall (fun t0 => Compile t0 <> None) pre ->
  Compile bad = None ->
  exists w',
    AddParameterTypes from (pre ++ bad :: post) w = (Goexit, w') /\
    fragmentsOf from (parameterTypes (suite w'))
    = fragmentsOf from (parameterTypes (suite w)) ++ pre /\
    tests w' = tests (markFailed (t (suite w)) w) /\
    trace w' = trace w.
Proof.
  revert w. induction pre as [|to1 rest IH]; intros w Hall Hbad; cbn [app AddParameterTypes].
  - unfold bind, getSuite, gets, tFatal. cbn [fst snd]. rewrite Hbad.
    eexists. split; [reflexivity|]. rewrite app_nil_r. repeat split.
  - inversion Hall as [|? ? Hc Hrest]; subst.
    unfold bind at 1, getSuite at 1, gets at 1. cbn [fst snd].
    destruct (Compile to1) as [c|]; [|congruence].
    unfold bind at 1, ret at 1. cbn [fst snd].
    unfold bind at 1. unfold modifySuite at 1, modify at 1. cbn [fst snd].
    set (w1 := setSuite _ w).
    destruct (IH w1 Hrest Hbad) as (w' & Hrun & Hfr & Hte & Htr).
    exists w'. split; [exact Hrun|].
    split.
    { rewrite Hfr. subst w1. cbn [suite setSuite parameterTypes setParameterTypes].
      rewrite fragmentsOf_appendFragment, String.eqb_refl, <- app_assoc. reflexivity. }
    split; [rewrite Hte; reflexivity | exact Htr].
Qed.

(* ===================================================================== *)
(** * The run of one step, however the handler ends *)
(* ===================================================================== *)

(** The user keys that a call stores, in the order of its [ctx.Set] calls *)
Definition withSets (m : gmap key value) (l : list (string * value)) : gmap key value :=
  fold_left (fun m kv => <[UserKey (fst kv) := snd kv]> m) l m.

(** The content of a context after the hooks of one kind: every hook sees
    what the hooks before it have stored. *)
Definition afterHooks (hooks : list Hook) (m : gmap key value) : gmap key value :=
  fold_left (fun m h => withSets m (hookSets h m)) hooks m.

Lemma applySets_Done ctx l w : applySets ctx l w = (Done tt, snd (applySets ctx l w)).
Proof. destruct (applySets_spec ctx l w) as (w' & -> & _). reflexivity. Qed.

Lemma applySets_content ctx l w :
  content ctx (snd (applySets ctx l w)) = withSets (content ctx w) l.
Proof.
  unfold applySets, withSets. revert w.
  induction l as [|kv l IH]; intros w; cbn [forEach fold_left]; [reflexivity|].
  unfold bind.
  change (Set_ ctx (UserKey (fst kv)) (snd kv) w)
    with (Done tt, snd (Set_ ctx (UserKey (fst kv)) (snd kv) w)).
  cbn iota. rewrite IH, content_Set_. reflexivity.
Qed.

Lemma callHooks_Done k hooks ctx w :
  callHooks k hooks ctx w = (Done tt, snd (callHooks k hooks ctx w)).
Proof. destruct (callHooks_spec k hooks ctx w) as (w' & -> & _). reflexivity. Qed.

Lemma callHooks_content k hooks ctx w :
  content ctx (snd (callHooks k hooks ctx w)) = afterHooks hooks (content ctx w).
Proof.
  unfold callHooks, afterHooks. revert w.
  induction hooks as [|h hooks IH]; intros w; cbn [forEach fold_left]; [reflexivity|].
  unfold bind at 1. unfold bind at 1. unfold emit at 1, modify at 1. cbn [fst snd].
  set (w1 := {| suite := suite w; tests := tests w; heap := heap w;
                trace := trace w ++ [HookCall k (hookName h)] |}).
  unfold bind at 1, gets at 1. cbn [fst snd].
  rewrite applySets_Done. rewrite IH, applySets_content. reflexivity.
Qed.

Lemma withSets_engine m l k :
  (forall u, k <> UserKey u) -> withSets m l !! k = m !! k.
Proof.
  intros Hk. unfold withSets. revert m.
  induction l as [|kv l IH]; intros m; cbn [fold_left]; [reflexivity|].
  rewrite IH. apply lookup_insert_ne. intros H. apply (Hk (fst kv)). auto.
Qed.

Lemma afterHooks_engine hooks m k :
  (forall u, k <> UserKey u) -> afterHooks hooks m !! k = m !! k.
Proof.
  intros Hk. unfold afterHooks. revert m.
  induction hooks as [|h hooks IH]; intros m; cbn [fold_left]; [reflexivity|].
  rewrite IH. apply withSets_engine. exact Hk.
Qed.

Lemma bind_calm {A B} (m : M A) (k : A -> M B) w w' :
  m w = (Goexit, w') -> bind m k w = (Goexit, w').
Proof. unfold bind. intros ->. reflexivity. Qed.

Lemma defer_Goexit {A} (d : M unit) (body : M A) w w1 w2 :
  body w = (Goexit, w1) -> d w1 = (Done tt, w2) -> defer d body w = (Goexit, w2).
Proof. unfold defer. intros -> ->. reflexivity. Qed.

(** [t.Failed()] and [t.Skipped()] of a test *)
Definition flags (sub : T) (w : World) : bool * bool :=
  (from_option failed false (tests w !! tid sub),
   from_option skipped false (tests w !! tid sub)).

(** The status that [generateFormattedStep] writes *)
Definition statusOf (fl : bool * bool) : string :=
  if snd fl then "skipped" else if fst fl then "failed" else "passed".

(** The record that [generateFormattedStep] makes of a step *)
Definition stepRecord (step : Msgs.Step) (status : string) : Cucumber.Step :=
  Cucumber.UpdateResult
    (Cucumber.GenerateStep (Msgs.Step_Keyword step) (Msgs.Step_Text step)
       (Msgs.Step_Location step) EmptyString)
    status.

(** What [runStep] makes of the answer of [t.Run]: the flags are read only
    when the function handed to [t.Run] returned. *)
Definition seen {A} (o : Outcome A) (fl : bool * bool) : bool * bool :=
  match o with
  | Done _ => fl
  | _ => (false, false)
  end.

(** The function handed to [t.Run], around the call of [run] *)
Lemma stepBody_around def ctx params sub w0 :
  let w2 := snd ((Set_ ctx TestingTKey (VTestingT sub) ;; callBeforeSteps ctx) w0) in
  let r := run def ctx sub params w2 in
  exists w7,
    stepBody def ctx params sub w0
    = (match fst r with Done _ => Done (flags sub (snd r)) | _ => Goexit end, w7) /\
    calm (fst r) /\
    suite w2 = suite w0 /\ tests w2 = tests w0 /\
    trace w2 = trace w0 ++ hookCalls BeforeStep (beforeStep (options (suite w0))) /\
    content ctx w2
    = afterHooks (beforeStep (options (suite w0)))
        (<[TestingTKey := VTestingT sub]> (content ctx w0)) /\
    suite w7 = suite w0 /\ tests w7 = tests (snd r) /\
    trace w7 = trace (snd r) ++ hookCalls AfterStep (afterStep (options (suite w0))) /\
    content ctx w7
    = <[TestingTKey := VNil]>
        (afterHooks (afterStep (options (suite w0))) (content ctx (snd r))).
Proof.
  intros w2 r.
  set (w1 := snd (Set_ ctx TestingTKey (VTestingT sub) w0)).
  assert (Hset1 : Set_ ctx TestingTKey (VTestingT sub) w0 = (Done tt, w1)) by reflexivity.
  destruct (callHooks_spec BeforeStep (beforeStep (options (suite w1))) ctx w1)
    as (w2' & Hrun2 & Hs2 & Ht2 & Htr2 & Hk2a & Hk2b).
  assert (Hbefore : callBeforeSteps ctx w1 = (Done tt, w2')) by exact Hrun2.
  assert (Hat : w2 = w2').
  { subst w2. rewrite (bind_Done _ _ _ _ _ Hset1), Hbefore. reflexivity. }
  assert (Hc2 : content ctx w2
                = afterHooks (beforeStep (options (suite w0)))
                    (<[TestingTKey := VTestingT sub]> (content ctx w0))).
  { rewrite Hat. change w2' with (snd (Done tt, w2')). rewrite <- Hrun2.
    rewrite callHooks_content. subst w1. rewrite content_Set_. reflexivity. }
  clearbody w2. subst w2'.
  pose proof (run_sat def ctx sub params w2) as Hsat. unfold sat in Hsat. fold r in Hsat.
  destruct r as [o w5] eqn:Hr. cbn [fst snd] in *.
  destruct Hsat as (Hc & Hs5 & Hg5 & Hk5a & Hk5b).
  assert (Hkey5 : content ctx w5 !! TestingTKey = Some (VTestingT sub)).
  { rewrite Hk5a, Hk2a. subst w1. rewrite content_Set_. apply lookup_insert_eq. }
  destruct (callHooks_spec AfterStep (afterStep (options (suite w5))) ctx w5)
    as (w6 & Hrun6 & Hs6 & Ht6 & Htr6 & Hk6a & Hk6b).
  assert (Hafter : callAfterSteps ctx w5 = (Done tt, w6)) by exact Hrun6.
  assert (Hc6 : content ctx w6 = afterHooks (afterStep (options (suite w0))) (content ctx w5)).
  { change w6 with (snd (Done tt, w6)). rewrite <- Hrun6, callHooks_content.
    rewrite Hs5, Hs2. reflexivity. }
  exists (snd (Set_ ctx TestingTKey VNil w6)).
  split.
  - unfold stepBody. rewrite (bind_Done _ _ _ _ _ Hset1).
    destruct o as [[]| |v|]; cbn in Hc; try contradiction.
    + eapply defer_Done; [|reflexivity].
      rewrite (bind_Done _ _ _ _ _ Hbefore).
      eapply defer_Done; [|exact Hafter].
      eapply defer_Done; [|apply (check_Done ctx sub w5 Hkey5)].
      subst r. rewrite (bind_Done _ _ _ _ _ Hr). reflexivity.
    + eapply defer_Goexit; [|reflexivity].
      rewrite (bind_Done _ _ _ _ _ Hbefore).
      eapply defer_Goexit; [|exact Hafter].
      eapply defer_Goexit; [|apply (check_Done ctx sub w5 Hkey5)].
      subst r. apply bind_calm. exact Hr.
  - split; [exact Hc|].
    split; [rewrite Hs2; reflexivity|].
    split; [rewrite Ht2; reflexivity|].
    split; [rewrite Htr2; reflexivity|].
    split; [exact Hc2|].
    split; [change (suite w6 = suite w0); rewrite Hs6, Hs5, Hs2; reflexivity|].
    split; [change (tests w6 = tests w5); exact Ht6|].
    split.
    { change (trace w6 = trace w5 ++ hookCalls AfterStep (afterStep (options (suite w0)))).
      rewrite Htr6, Hs5, Hs2. reflexivity. }
    rewrite content_Set_, Hc6. reflexivity.
Qed.

(** One turn of the loop of [runSteps] for a step that resolves to [def] *)
Lemma runStep_around ctx t0 step rest fs w def :
  findStepDef (suite w) (Msgs.Step_Text step) = Some def ->
  let sub := subTest t0 w in
  let w2 := atHandlerCall ctx t0 w in
  let r := run def ctx sub (captures def (Msgs.Step_Text step)) w2 in
  let record := stepRecord step (statusOf (seen (fst r) (flags sub (snd r)))) in
  exists w7,
    (formatStep ctx ;; runStep ctx t0 step) w = (Done record, w7) /\
    runSteps ctx t0 (step :: rest) fs w
    = runSteps ctx t0 rest (Cucumber.AddStepObj fs record) w7 /\
    calm (fst r) /\
    suite w2 = suite w /\
    tests w2 = tests w ++ [{| failed := false; skipped := false |}] /\
    trace w2 = trace w ++ hookCalls BeforeStep (beforeStep (options (suite w))) /\
    content ctx w2
    = afterHooks (beforeStep (options (suite w)))
        (<[TestingTKey := VTestingT sub]> (<[TimeKey := VTime]> (content ctx w))) /\
    suite w7 = suite w /\ tests w7 = tests (snd r) /\
    trace w7 = trace (snd r) ++ hookCalls AfterStep (afterStep (options (suite w))) /\
    content ctx w7
    = <[TestingTKey := VNil]>
        (afterHooks (afterStep (options (suite w))) (content ctx (snd r))).
Proof.
  intros Hdef sub w2 r record.
  destruct (findStepDef_Some _ _ _ Hdef) as (i & _ & Hmatch & _).
  destruct (FindSubmatch_of_match _ _ Hmatch) as (m & caps' & Hsub).
  assert (Hcaps : captures def (Msgs.Step_Text step) = caps')
    by (unfold captures; rewrite Hsub; reflexivity).
  set (wf := snd (formatStep ctx w)).
  assert (Hfmt : formatStep ctx w = (Done tt, wf)) by reflexivity.
  set (w0 := setTests (tests wf ++ [{| failed := false; skipped := false |}]) wf).
  assert (Hsubtest : sub = {| tid := length (tests wf); parents := tid t0 :: parents t0 |})
    by reflexivity.
  destruct (stepBody_around def ctx (captures def (Msgs.Step_Text step)) sub w0)
    as (w7 & Hbody & Hc & Hs2 & Ht2 & Htr2 & Hc2 & Hs7 & Ht7 & Htr7 & Hc7).
  change (snd ((Set_ ctx TestingTKey (VTestingT sub) ;; callBeforeSteps ctx) w0))
    with w2 in *.
  fold r in Hbody, Hc, Ht7, Htr7, Hc7.
  assert (Htime : content ctx w7 !! TimeKey = Some VTime).
  { rewrite Hc7, lookup_insert_ne by discriminate.
    rewrite afterHooks_engine by (intros u; discriminate).
    pose proof (run_sat def ctx sub (captures def (Msgs.Step_Text step)) w2) as Hsat.
    unfold sat in Hsat. fold r in Hsat. destruct Hsat as (_ & _ & _ & _ & Hk).
    rewrite Hk, Hc2. rewrite afterHooks_engine by (intros u; discriminate).
    rewrite lookup_insert_ne by discriminate.
    subst w0 wf. unfold content. cbn [heap setTests].
    fold (content ctx (snd (formatStep ctx w))). unfold formatStep.
    rewrite content_Set_. apply lookup_insert_eq. }
  assert (Hstep : runStep ctx t0 step wf = (Done record, w7)).
  { unfold runStep, deferRecover.
    unfold bind at 1, getSuite at 1, gets at 1. cbn [fst snd].
    change (suite wf) with (suite w). rewrite Hdef.
    unfold bind at 1, ret at 1. cbn [fst snd]. rewrite Hsub.
    unfold bind at 1, ret at 1. cbn [fst snd]. rewrite <- Hcaps.
    unfold bind at 1, tRun. rewrite <- Hsubtest. fold w0. rewrite Hbody.
    subst record. clearbody r. destruct r as [[[]| |v|] w5]; cbn in Hc; try contradiction;
      cbn [fst snd seen];
      unfold generateFormattedStep, bind, Get, gets, ret; cbn [fst snd default];
      rewrite Htime; reflexivity. }
  exists w7.
  split; [rewrite (bind_Done _ _ _ _ _ Hfmt); exact Hstep|].
  split.
  { unfold runSteps. cbn [foldM].
    unfold bind at 1. unfold bind at 1. rewrite Hfmt.
    unfold bind at 1. rewrite Hstep. reflexivity. }
  split; [exact Hc|].
  split; [rewrite Hs2; reflexivity|].
  split; [rewrite Ht2; reflexivity|].
  split; [rewrite Htr2; reflexivity|].
  split.
  { rewrite Hc2. subst w0 wf. unfold content at 1. cbn [heap setTests].
    fold (content ctx (snd (formatStep ctx w))). unfold formatStep.
    rewrite content_Set_. reflexivity. }
  split; [rewrite Hs7; reflexivity|].
  split; [exact Ht7|].
  split; [exact Htr7 | exact Hc7].
Qed.

(** ** What [run] does *)

Lemma markSkipped_tests t0 w w' :
  tests w' = tests w -> tests (markSkipped t0 w') = tests (markSkipped t0 w).
Proof. unfold markSkipped. cbn [tests setTests]. intros ->. reflexivity. Qed.

(** The world after the [t.Error] calls of a handler, if any *)
Definition reported (e : Effect) (t0 : T) (w : World) : World :=
  if marksFailed e then markFailed t0 w else w.

(** A call whose arguments fit: the handler runs to its end. *)
Lemma Call_assignable fn t0 ctx args w :
  allAssignable args (fin fn) = true ->
  let e := fbody fn args (content ctx w) in
  exists w3,
    Call fn t0 ctx args w
    = match ending e with
      | Returns => (Done tt, w3)
      | Panics v => (Panic v, w3)
      | FailsNow => (Goexit, markFailed t0 w3)
      | SkipsNow => (Goexit, markSkipped t0 w3)
      end /\
    suite w3 = suite w /\
    trace w3 = trace w ++ [HandlerCall (fname fn) args] /\
    content ctx w3 = withSets (content ctx w) (sets e) /\
    tests w3 = tests (reported e t0 w).
Proof.
  intros Hok e. unfold Call. rewrite Hok.
  unfold bind at 1. unfold emit at 1, modify at 1. cbn [fst snd].
  set (w1 := {| suite := suite w; tests := tests w; heap := heap w;
                trace := trace w ++ [HandlerCall (fname fn) args] |}).
  unfold bind at 1, gets at 1. cbn [fst snd].
  change (content ctx w1) with (content ctx w). fold e.
  assert (Hmark : (if marksFailed e then tError t0 else ret tt) w1
                  = (Done tt, reported e t0 w1)).
  { unfold reported. destruct (marksFailed e); reflexivity. }
  unfold bind at 1. rewrite Hmark.
  destruct (applySets_spec ctx (sets e) (reported e t0 w1))
    as (w3 & Hsets & Hs3 & Ht3 & Htr3 & _).
  unfold bind at 1. rewrite Hsets.
  exists w3. split; [destruct (ending e); reflexivity|].
  split; [rewrite Hs3; unfold reported; destruct (marksFailed e); reflexivity|].
  split; [rewrite Htr3; unfold reported; destruct (marksFailed e); reflexivity|].
  split.
  - change w3 with (snd (Done tt, w3)). rewrite <- Hsets, applySets_content.
    unfold reported. destruct (marksFailed e); reflexivity.
  - rewrite Ht3. unfold reported. destruct (marksFailed e); reflexivity.
Qed.

(** The captures fit the parameters of the handler: the handler is called
    once; [run] returns when the handler returns or panics and leaves the
    goroutine when the handler ends the test. *)
Lemma run_called def ctx t0 params w :
  length params + 2 = length (fin (f def)) ->
  allAssignable (callArgs def ctx t0 params) (fin (f def)) = true ->
  let e := fbody (f def) (callArgs def ctx t0 params) (content ctx w) in
  exists w',
    run def ctx t0 params w
    = (match ending e with Returns | Panics _ => Done tt | _ => Goexit end, w') /\
    suite w' = suite w /\
    trace w' = trace w ++ [HandlerCall (fname (f def)) (callArgs def ctx t0 params)] /\
    content ctx w' = withSets (content ctx w) (sets e) /\
    tests w'
    = tests match ending e with
            | Returns => reported e t0 w
            | Panics _ | FailsNow => markFailed t0 (reported e t0 w)
            | SkipsNow => markSkipped t0 (reported e t0 w)
            end.
Proof.
  intros Hlen Hok e. unfold run, deferRecover.
  replace (length params + 2 =? length (fin (f def))) with true
    by (symmetry; apply Nat.eqb_eq; exact Hlen).
  fold (callArgs def ctx t0 params).
  destruct (Call_assignable (f def) t0 ctx (callArgs def ctx t0 params) w Hok)
    as (w3 & Hcall & Hs3 & Htr3 & Hc3 & Ht3).
  fold e in Hcall, Hc3, Ht3. rewrite Hcall.
  destruct (ending e) as [|v| |].
  - exists w3. auto.
  - exists (markFailed t0 w3). split; [reflexivity|].
    split; [exact Hs3|]. split; [exact Htr3|]. split; [exact Hc3|].
    apply markFailed_tests. exact Ht3.
  - exists (markFailed t0 w3). split; [reflexivity|].
    split; [exact Hs3|]. split; [exact Htr3|]. split; [exact Hc3|].
    apply markFailed_tests. exact Ht3.
  - exists (markSkipped t0 w3). split; [reflexivity|].
    split; [exact Hs3|]. split; [exact Htr3|]. split; [exact Hc3|].
    apply markSkipped_tests. exact Ht3.
Qed.

Lemma run_arity def ctx t0 params w :
  length params + 2 <> length (fin (f def)) ->
  run def ctx t0 params w = (Goexit, markFailed t0 w).
Proof.
  intros Hlen. unfold run, deferRecover.
  replace (length params + 2 =? length (fin (f def))) with false
    by (symmetry; apply Nat.eqb_neq; exact Hlen).
  reflexivity.
Qed.

Lemma run_not_assignable def ctx t0 params w :
  length params + 2 = length (fin (f def)) ->
  allAssignable (callArgs def ctx t0 params) (fin (f def)) = false ->
  run def ctx t0 params w = (Done tt, markFailed t0 w).
Proof.
  intros Hlen Hno. unfold run, deferRecover.
  replace (length params + 2 =? length (fin (f def))) with true
    by (symmetry; apply Nat.eqb_eq; exact Hlen).
  fold (callArgs def ctx t0 params). unfold Call. rewrite Hno. reflexivity.
Qed.

(** The flags of the test of a step that starts in [w] *)
Lemma subTest_fresh t0 w w2 :
  tests w2 = tests w ++ [{| failed := false; skipped := false |}] ->
  tests w2 !! tid (subTest t0 w) = Some {| failed := false; skipped := false |}.
Proof.
  intros ->. cbn [subTest tid]. rewrite lookup_app_r, Nat.sub_diag by lia. reflexivity.
Qed.

Lemma subTest_failed t0 w w2 :
  tests w2 !! tid (subTest t0 w) = Some {| failed := false; skipped := false |} ->
  tests (markFailed (subTest t0 w) w2) !! tid (subTest t0 w)
  = Some {| failed := true; skipped := false |}.
Proof.
  intros H. rewrite markFailed_lookup.
  rewrite bool_decide_eq_true_2 by apply list_elem_of_here.
  rewrite H. reflexivity.
Qed.

Lemma subTest_reported e t0 w w2 :
  tests w2 !! tid (subTest t0 w) = Some {| failed := false; skipped := false |} ->
  tests (reported e (subTest t0 w) w2) !! tid (subTest t0 w)
  = Some {| failed := marksFailed e; skipped := false |}.
Proof.
  intros H. unfold reported. destruct (marksFailed e); [|exact H].
  apply subTest_failed. exact H.
Qed.

Lemma subTest_failed_reported e t0 w w2 :
  tests w2 !! tid (subTest t0 w) = Some {| failed := false; skipped := false |} ->
  tests (markFailed (subTest t0 w) (reported e (subTest t0 w) w2)) !! tid (subTest t0 w)
  = Some {| failed := true; skipped := false |}.
Proof.
  intros H. rewrite markFailed_lookup.
  rewrite bool_decide_eq_true_2 by apply list_elem_of_here.
  rewrite (subTest_reported e t0 w w2 H). reflexivity.
Qed.

(** ** The outcomes of a step *)


(** X12: A step whose handler ends its test with [t.FailNow] ([t.Fatal]): the
    test of the step is failed, and every after-step hook still runs once;
    the lines that read the flags of the test are not reached, so the
    record of the step says passed. *)
Theorem step_with_handler_that_fails_now (ctx : Context) (t0 : T) (step : Msgs.Step)
    (rest : list Msgs.Step) (fs : Cucumber.Scenario) (w : World) (def : stepDef) :
  let sub := subTest t0 w in
  let args := callArgs def ctx sub (captures def (Msgs.Step_Text step)) in
  let e := fbody (f def) args (content ctx (atHandlerCall ctx t0 w)) in
  findStepDef (suite w) (Msgs.Step_Text step) = Some def ->
  length (captures def (Msgs.Step_Text step)) + 2 = length (fin (f def)) ->
  allAssignable args (fin (f def)) = true ->
  ending e = FailsNow ->
  exists w',
    (formatStep ctx ;; runStep ctx t0 step) w = (Done (stepRecord step "passed"), w') /\
    tests w' !! length (tests w) = Some {| failed := true; skipped := false |} /\
    trace w' = trace w ++ hookCalls BeforeStep (beforeStep (options (suite w)))
                 ++ [HandlerCall (fname (f def)) args]
                 ++ hookCalls AfterStep (afterStep (options (suite w))) /\
    suite w' = suite w /\
    runSteps ctx t0 (step :: rest) fs w
    = runSteps ctx t0 rest (Cucumber.AddStepObj fs (stepRecord step "passed")) w'.
Proof.
  intros sub args e Hdef Hlen Hok Hend.
  destruct (runStep_around ctx t0 step rest fs w def Hdef)
    as (w7 & Hrun & Hloop & _ & Hs2 & Ht2 & Htr2 & _ & Hs7 & Ht7 & Htr7 & _).
  fold sub in Hrun, Hloop, Ht7, Htr7.
  destruct (run_called def ctx sub (captures def (Msgs.Step_Text step))
              (atHandlerCall ctx t0 w) Hlen Hok)
    as (w5 & Hr & Hs5 & Htr5 & _ & Ht5).
  fold args in Hr, Htr5, Ht5. fold e in Hr, Ht5. rewrite Hend in Hr, Ht5.
  rewrite Hr in Hrun, Hloop, Ht7, Htr7. cbn [fst snd seen] in *.
  exists w7. split; [exact Hrun|].
  split.
  { rewrite Ht7, Ht5. change (length (tests w)) with (tid sub).
    apply subTest_failed_reported. apply subTest_fresh. exact Ht2. }
  split; [rewrite Htr7, Htr5, Htr2, <- !app_assoc; reflexivity|].
  split; [exact Hs7 | exact Hloop].
Qed.

(** X13: A step whose captures are not as many as the parameters of the handler
    after the first two: the handler is not called and [run] ends the test
    of the step, failed; the hooks run, and the record says passed. *)
Theorem step_with_wrong_number_of_captures (ctx : Context) (t0 : T) (step : Msgs.Step)
    (rest : list Msgs.Step) (fs : Cucumber.Scenario) (w : World) (def : stepDef) :
  findStepDef (suite w) (Msgs.Step_Text step) = Some def ->
  length (captures def (Msgs.Step_Text step)) + 2 <> length (fin (f def)) ->
  exists w',
    (formatStep ctx ;; runStep ctx t0 step) w = (Done (stepRecord step "passed"), w') /\
    tests w' !! length (tests w) = Some {| failed := true; skipped := false |} /\
    trace w' = trace w ++ hookCalls BeforeStep (beforeStep (options (suite w)))
                 ++ hookCalls AfterStep (afterStep (options (suite w))) /\
    suite w' = suite w /\
    runSteps ctx t0 (step :: rest) fs w
    = runSteps ctx t0 rest (Cucumber.AddStepObj fs (stepRecord step "passed")) w'.
Proof.
  intros Hdef Hlen.
  destruct (runStep_around ctx t0 step rest fs w def Hdef)
    as (w7 & Hrun & Hloop & _ & Hs2 & Ht2 & Htr2 & _ & Hs7 & Ht7 & Htr7 & _).
  rewrite (run_arity def ctx (subTest t0 w) _ (atHandlerCall ctx t0 w) Hlen)
    in Hrun, Hloop, Ht7, Htr7.
  cbn [fst snd seen] in *.
  exists w7. split; [exact Hrun|].
  split.
  { rewrite Ht7. change (length (tests w)) with (tid (subTest t0 w)).
    apply subTest_failed. apply subTest_fresh. exact Ht2. }
  split; [rewrite Htr7; cbn [trace markFailed setTests]; rewrite Htr2, <- app_assoc; reflexivity|].
  split; [exact Hs7 | exact Hloop].
Qed.

(** X14: A step whose captures cannot be passed to the handler, a parameter
    being of a kind that [paramType] does not convert to: the reflective
    call panics before the handler runs; [run] recovers the panic and
    reports it, and the record says failed. *)
Theorem step_with_argument_that_does_not_fit (ctx : Context) (t0 : T) (step : Msgs.Step)
    (rest : list Msgs.Step) (fs : Cucumber.Scenario) (w : World) (def : stepDef) :
  let sub := subTest t0 w in
  let args := callArgs def ctx sub (captures def (Msgs.Step_Text step)) in
  findStepDef (suite w) (Msgs.Step_Text step) = Some def ->
  length (captures def (Msgs.Step_Text step)) + 2 = length (fin (f def)) ->
  allAssignable args (fin (f def)) = false ->
  exists w',
    (formatStep ctx ;; runStep ctx t0 step) w = (Done (stepRecord step "failed"), w') /\
    tests w' !! length (tests w) = Some {| failed := true; skipped := false |} /\
    trace w' = trace w ++ hookCalls BeforeStep (beforeStep (options (suite w)))
                 ++ hookCalls AfterStep (afterStep (options (suite w))) /\
    suite w' = suite w /\
    runSteps ctx t0 (step :: rest) fs w
    = runSteps ctx t0 rest (Cucumber.AddStepObj fs (stepRecord step "failed")) w'.
Proof.
  intros sub args Hdef Hlen Hno.
  destruct (runStep_around ctx t0 step rest fs w def Hdef)
    as (w7 & Hrun & Hloop & _ & Hs2 & Ht2 & Htr2 & _ & Hs7 & Ht7 & Htr7 & _).
  fold sub in Hrun, Hloop, Ht7, Htr7.
  rewrite (run_not_assignable def ctx sub _ (atHandlerCall ctx t0 w) Hlen Hno)
    in Hrun, Hloop, Ht7, Htr7.
  cbn [fst snd seen] in *.
  assert (Hflag : tests (markFailed sub (atHandlerCall ctx t0 w)) !! tid sub
                  = Some {| failed := true; skipped := false |}).
  { apply subTest_failed. apply subTest_fresh. exact Ht2. }
  assert (Hfl : statusOf (flags sub (markFailed sub (atHandlerCall ctx t0 w))) = "failed").
  { unfold flags. rewrite Hflag. reflexivity. }
  rewrite Hfl in Hrun, Hloop.
  exists w7. split; [exact Hrun|].
  split; [rewrite Ht7; exact Hflag|].
  split; [rewrite Htr7; cbn [trace markFailed setTests]; rewrite Htr2, <- app_assoc; reflexivity|].
  split; [exact Hs7 | exact Hloop].
Qed.

(** X15: With hooks that return and a handler that ends, by returning, by a
    panic or by [t.FailNow] or [t.SkipNow], and with hooks and handler
    storing under keys of their own only (not under [TestingTKey{}] or
    [time.Time{}]): a step that resolves returns one record, named after
    the step, whose status is passed, failed or skipped, whichever of these
    ways the handler ends; the before-step hooks run once, then the handler
    at most once, then the after-step hooks once; the suite is as it was,
    and the loop goes on. *)
Theorem resolved_step_always_returns (ctx : Context) (t0 : T) (step : Msgs.Step)
    (rest : list Msgs.Step) (fs : Cucumber.Scenario) (w : World) (def : stepDef) :
  findStepDef (suite w) (Msgs.Step_Text step) = Some def ->
  exists status calls w',
    (formatStep ctx ;; runStep ctx t0 step) w = (Done (stepRecord step status), w') /\
    (status = "passed" \/ status = "failed" \/ status = "skipped") /\
    (calls = [] \/
     calls = [HandlerCall (fname (f def))
                (callArgs def ctx (subTest t0 w) (captures def (Msgs.Step_Text step)))]) /\
    trace w' = trace w ++ hookCalls BeforeStep (beforeStep (options (suite w)))
                 ++ calls ++ hookCalls AfterStep (afterStep (options (suite w))) /\
    suite w' = suite w /\
    runSteps ctx t0 (step :: rest) fs w
    = runSteps ctx t0 rest (Cucumber.AddStepObj fs (stepRecord step status)) w'.
Proof.
  intros Hdef.
  destruct (runStep_around ctx t0 step rest fs w def Hdef)
    as (w7 & Hrun & Hloop & _ & Hs2 & Ht2 & Htr2 & _ & Hs7 & Ht7 & Htr7 & _).
  set (sub := subTest t0 w) in *.
  set (caps := captures def (Msgs.Step_Text step)) in *.
  set (r := run def ctx sub caps (atHandlerCall ctx t0 w)) in *.
  assert (Hcalls : exists calls,
             (calls = [] \/ calls = [HandlerCall (fname (f def)) (callArgs def ctx sub caps)]) /\
             trace (snd r) = trace (atHandlerCall ctx t0 w) ++ calls).
  { destruct (Nat.eq_dec (length caps + 2) (length (fin (f def)))) as [Hlen | Hlen].
    - destruct (allAssignable (callArgs def ctx sub caps) (fin (f def))) eqn:Hok.
      + destruct (run_called def ctx sub caps (atHandlerCall ctx t0 w) Hlen Hok)
          as (w5 & Hr & _ & Htr5 & _).
        eexists. split; [right; reflexivity|]. subst r. rewrite Hr. exact Htr5.
      + exists []. split; [left; reflexivity|]. subst r.
        rewrite (run_not_assignable def ctx sub caps _ Hlen Hok).
        cbn [snd trace markFailed setTests]. rewrite app_nil_r. reflexivity.
    - exists []. split; [left; reflexivity|]. subst r.
      rewrite (run_arity def ctx sub caps _ Hlen).
      cbn [snd trace markFailed setTests]. rewrite app_nil_r. reflexivity. }
  destruct Hcalls as (calls & Hshape & Htr5).
  exists (statusOf (seen (fst r) (flags sub (snd r)))), calls, w7.
  split; [exact Hrun|].
  split.
  { unfold statusOf. destruct (seen (fst r) (flags sub (snd r))) as [[] []]; cbn; auto. }
  split; [exact Hshape|].
  split; [rewrite Htr7, Htr5, Htr2, <- !app_assoc; reflexivity|].
  split; [exact Hs7 | exact Hloop].
Qed.

(* ===================================================================== *)
(** * The steps of a scenario *)
(* ===================================================================== *)

(** ** The record of a scenario whose steps resolve *)

Definition knownStatus (st : Cucumber.Step) : Prop :=
  Cucumber.RunStatus (Cucumber.StepResult st) = "passed" \/
  Cucumber.RunStatus (Cucumber.StepResult st) = "failed" \/
  Cucumber.RunStatus (Cucumber.StepResult st) = "skipped".

Lemma statusOf_known step fl : knownStatus (stepRecord step (statusOf fl)).
Proof. unfold knownStatus, statusOf. destruct fl as [[] []]; cbn; auto. Qed.

(** When every step resolves, the loop over the steps returns, with one
    record for every step behind the records it was given. *)
Lemma runSteps_resolved ctx t0 steps :
  forall fs w,
    Forall (fun st => findStepDef (suite w) (Msgs.Step_Text st) <> None) steps ->
    exists rs w',
      runSteps ctx t0 steps fs w
      = (Done (Cucumber.withSteps fs (Cucumber.Steps fs ++ rs)), w') /\
      map Cucumber.Step_Name rs = map Msgs.Step_Text steps /\
      Forall knownStatus rs /\
      suite w' = suite w.
Proof.
  induction steps as [|step rest IH]; intros fs w Hall.
  - exists [], w. split; [|auto]. rewrite app_nil_r. destruct fs; reflexivity.
  - inversion Hall as [|? ? Hstep Hrest]; subst.
    destruct (not_None_Some _ Hstep) as [def Hdef].
    destruct (runStep_around ctx t0 step rest fs w def Hdef)
      as (w7 & _ & Hloop & _ & _ & _ & _ & _ & Hs7 & _).
    cbv zeta in Hloop. rewrite Hloop.
    set (record := stepRecord step _) in *.
    destruct (IH (Cucumber.AddStepObj fs record) w7) as (rs & w' & Hrun & Hnames & Hst & Hs').
    { rewrite Hs7. exact Hrest. }
    exists (record :: rs), w'. split.
    + rewrite Hrun. unfold Cucumber.AddStepObj, Cucumber.withSteps. cbn.
      rewrite <- app_assoc. reflexivity.
    + split; [cbn [map]; rewrite Hnames; reflexivity|].
      split; [constructor; [apply statusOf_known | exact Hst] | congruence].
Qed.

Lemma betweenScenarioHooks_Done_1 {A} ctx t0 (inner : M A) w w2 a w3 w4 :
  callBeforeScenarios ctx (snd (Set_ ctx TestingTKey (VTestingT t0) w)) = (Done tt, w2) ->
  inner w2 = (Done a, w3) ->
  callAfterScenarios ctx w3 = (Done tt, w4) ->
  betweenScenarioHooks ctx t0 inner w = (Done a, snd (Set_ ctx TestingTKey VNil w4)).
Proof.
  intros H2 H3 H4. unfold betweenScenarioHooks.
  unfold bind at 1.
  change (Set_ ctx TestingTKey (VTestingT t0) w)
    with (Done tt, snd (Set_ ctx TestingTKey (VTestingT t0) w)).
  cbn iota. unfold defer at 1. unfold bind at 1. rewrite H2.
  unfold defer at 1. rewrite H3, H4. reflexivity.
Qed.

(** The steps of the background of a scenario, if it has one *)
Definition backgroundSteps (bkg : option Msgs.Background) : list Msgs.Step :=
  match bkg with
  | Some b => getBackgroundSteps b
  | None => []
  end.


(** ** What a run leaves alone *)

Section Invariant.

(** [P] is a property of the world that the bookkeeping of tests keeps,
    that storing in the context [c] keeps, and that the calls in [E] keep;
    the calls that a step makes are in [E]. *)
Variable c : Context.
Variable P : World -> Prop.
Variable E : Event -> Prop.
Hypothesis P_tests : forall w ts, P w -> P (setTests ts w).
Hypothesis P_emit : forall w e,
  E e ->
  P w -> P {| suite := suite w; tests := tests w; heap := heap w; trace := trace w ++ [e] |}.
Hypothesis P_Set : forall w k v, P w -> P (snd (Set_ c k v w)).
Hypothesis E_handler : forall name args, E (HandlerCall name args).
Hypothesis E_before : forall name, E (HookCall BeforeStep name).
Hypothesis E_after : forall name, E (HookCall AfterStep name).

Definition keeps {A} (m : M A) : Prop := forall w, P w -> P (snd (m w)).

Lemma keeps_ret {A} (a : A) : keeps (ret a).
Proof. intros w H. exact H. Qed.

Lemma keeps_lift {A} (o : Outcome A) : keeps (lift o).
Proof. intros w H. exact H. Qed.

Lemma keeps_gets {A} (g : World -> A) : keeps (gets g).
Proof. intros w H. exact H. Qed.

Lemma keeps_bind {A B} (m : M A) (k : A -> M B) :
  keeps m -> (forall a, keeps (k a)) -> keeps (bind m k).
Proof.
  intros Hm Hk w H. unfold bind. specialize (Hm w H).
  destruct (m w) as [[a| |v|] w1]; cbn [snd] in *; auto. apply Hk. exact Hm.
Qed.

Lemma keeps_defer {A} (d : M unit) (body : M A) :
  keeps body -> keeps d -> keeps (defer d body).
Proof.
  intros Hb Hd w H. unfold defer. specialize (Hb w H).
  destruct (body w) as [[a| |v|] w1]; cbn [snd] in *; auto;
    specialize (Hd w1 Hb); destruct (d w1) as [[u| |v'|] w2]; cbn [snd] in *; auto.
Qed.

Lemma keeps_deferRecover {A} (zero : A) (h : string -> M unit) (body : M A) :
  keeps body -> (forall v, keeps (h v)) -> keeps (deferRecover zero h body).
Proof.
  intros Hb Hh w H. unfold deferRecover. specialize (Hb w H).
  destruct (body w) as [[a| |v|] w1]; cbn [snd] in *; auto.
  specialize (Hh v w1 Hb). destruct (h v w1) as [[u| |v'|] w2]; cbn [snd] in *; auto.
Qed.

Lemma keeps_tRun {A} (t0 : T) (body : T -> M A) :
  (forall sub, keeps (body sub)) -> keeps (tRun t0 body).
Proof.
  intros Hb w H. unfold tRun.
  specialize (Hb {| tid := length (tests w); parents := tid t0 :: parents t0 |}
                 (setTests (tests w ++ [{| failed := false; skipped := false |}]) w)
                 (P_tests _ _ H)).
  destruct (body _ _) as [[a| |v|] w1]; cbn [snd] in *; auto.
Qed.

Lemma keeps_forEach {A} (l : list A) (body : A -> M unit) :
  (forall a, keeps (body a)) -> keeps (forEach l body).
Proof.
  intros Hb. induction l as [|a l IH]; cbn [forEach]; [apply keeps_ret|].
  apply keeps_bind; auto.
Qed.

Lemma keeps_foldM {A S} (body : S -> A -> M S) (l : list A) :
  (forall acc a, keeps (body acc a)) -> forall acc, keeps (foldM body acc l).
Proof.
  intros Hb. induction l as [|a l IH]; intros acc; cbn [foldM]; [apply keeps_ret|].
  apply keeps_bind; auto.
Qed.

Lemma keeps_tError t0 : keeps (tError t0).
Proof. intros w H. apply P_tests. exact H. Qed.

Lemma keeps_tFatal {A} t0 : keeps (tFatal (A := A) t0).
Proof. intros w H. apply P_tests. exact H. Qed.

Lemma keeps_tSkipNow {A} t0 : keeps (tSkipNow (A := A) t0).
Proof. intros w H. apply P_tests. exact H. Qed.

Lemma keeps_emit e : E e -> keeps (emit e).
Proof. intros He w H. apply P_emit; assumption. Qed.

Lemma keeps_Set k v : keeps (Set_ c k v).
Proof. intros w H. apply P_Set. exact H. Qed.

Lemma keeps_applySets l : keeps (applySets c l).
Proof. apply keeps_forEach. intros kv. apply keeps_Set. Qed.

Lemma keeps_callHooks k hooks :
  (forall name, E (HookCall k name)) -> keeps (callHooks k hooks c).
Proof.
  intros Hk. apply keeps_forEach. intros h.
  apply keeps_bind; [apply keeps_emit, Hk|]. intros _.
  apply keeps_bind; [apply keeps_gets|]. intros m. apply keeps_applySets.
Qed.

Lemma keeps_Call fn t0 args : keeps (Call fn t0 c args).
Proof.
  unfold Call. destruct (allAssignable args (fin fn)); [|apply keeps_lift].
  apply keeps_bind; [apply keeps_emit, E_handler|]. intros _.
  apply keeps_bind; [apply keeps_gets|]. intros m.
  apply keeps_bind; [destruct (marksFailed _); [apply keeps_tError | apply keeps_ret]|].
  intros _. apply keeps_bind; [apply keeps_applySets|]. intros _.
  destruct (ending _); [apply keeps_ret | apply keeps_lift | apply keeps_tFatal
                       | apply keeps_tSkipNow].
Qed.

Lemma keeps_run def t0 params : keeps (run def c t0 params).
Proof.
  unfold run. apply keeps_deferRecover; [|intros _; apply keeps_tError].
  destruct (_ =? _); [apply keeps_Call | apply keeps_tFatal].
Qed.

Lemma keeps_check : keeps (check c).
Proof.
  unfold check. apply keeps_bind; [apply keeps_gets|].
  intros [[]|]; first [apply keeps_ret | apply keeps_lift].
Qed.

Lemma keeps_stepBody def params sub : keeps (stepBody def c params sub).
Proof.
  unfold stepBody. apply keeps_bind; [apply keeps_Set|]. intros _.
  apply keeps_defer; [|apply keeps_Set].
  apply keeps_bind;
    [apply keeps_bind; [apply keeps_gets | intros s; apply keeps_callHooks, E_before]|].
  intros _. apply keeps_defer;
    [|apply keeps_bind; [apply keeps_gets | intros s; apply keeps_callHooks, E_after]].
  apply keeps_defer; [|apply keeps_check].
  apply keeps_bind; [apply keeps_run|]. intros _.
  apply keeps_bind; [apply keeps_gets|]. intros fl.
  apply keeps_bind; [apply keeps_gets|]. intros sk. apply keeps_ret.
Qed.

Lemma keeps_runStep t0 step : keeps (runStep c t0 step).
Proof.
  unfold runStep. apply keeps_deferRecover; [|intros _; apply keeps_tError].
  apply keeps_bind; [apply keeps_gets|]. intros s.
  apply keeps_bind; [destruct (findStepDef _ _); [apply keeps_ret | apply keeps_tFatal]|].
  intros def.
  apply keeps_bind;
    [destruct (FindSubmatch _ _) as [[|m caps]|]; first [apply keeps_ret | apply keeps_lift]|].
  intros params.
  apply keeps_bind; [apply keeps_tRun; intros sub; apply keeps_stepBody|].
  intros r. unfold generateFormattedStep.
  apply keeps_bind; [apply keeps_gets|].
  intros [[]|]; first [apply keeps_ret | apply keeps_lift].
Qed.

Lemma keeps_runSteps t0 steps fs : keeps (runSteps c t0 steps fs).
Proof.
  unfold runSteps. apply keeps_foldM. intros acc step.
  apply keeps_bind; [apply keeps_Set|]. intros _.
  apply keeps_bind; [apply keeps_runStep|]. intros r. apply keeps_ret.
Qed.

End Invariant.

(** The steps that run on the context [c] leave every other context as it
    is. *)
Lemma runSteps_other_contexts c ctx t0 steps fs w :
  c <> ctx -> heap (snd (runSteps c t0 steps fs w)) !! ctx = heap w !! ctx.
Proof.
  intros Hne.
  apply (keeps_runSteps c (fun w' => heap w' !! ctx = heap w !! ctx) (fun _ => True));
    auto.
  intros w' k v H. rewrite Set_other by exact Hne. exact H.
Qed.

Lemma callHooks_keeps_context k hooks ctx w :
  is_Some (heap w !! ctx) -> is_Some (heap (snd (callHooks k hooks ctx w)) !! ctx).
Proof.
  apply (keeps_callHooks ctx (fun w' => is_Some (heap w' !! ctx)) (fun _ => True)); auto.
  intros w' k0 v _. unfold Set_, modify. cbn [snd heap setHeap].
  rewrite lookup_insert_eq. eauto.
Qed.

(** X17: The steps of a scenario work on a clone of its context. A scenario
    without background and without example tables leaves in its context
    what its scenario hooks stored and nothing of what its steps stored:
    the after-scenario hooks see the context as the before-scenario hooks
    left it. *)
Theorem scenario_steps_work_on_a_clone (ctx : Context) (sc : Msgs.Scenario)
    (t0 : T) (w : World) :
  Msgs.Scenario_Examples sc = [] ->
  content ctx (snd (runScenario ctx sc None t0 w))
  = <[TestingTKey := VNil]>
      (afterHooks (afterScenario (options (suite w)))
         (afterHooks (beforeScenario (options (suite w)))
            (<[TestingTKey := VTestingT (subTest t0 w)]> (content ctx w)))).
Proof.
  intros Hex. unfold runScenario.
  set (sub := subTest t0 w).
  set (w0 := setTests (tests w ++ [{| failed := false; skipped := false |}]) w).
  set (w1 := snd (Set_ ctx TestingTKey (VTestingT sub) w0)).
  destruct (callHooks_spec BeforeScenario (beforeScenario (options (suite w1))) ctx w1)
    as (w2 & H2 & Hs2 & _).
  assert (H2' : callBeforeScenarios ctx w1 = (Done tt, w2)) by exact H2.
  assert (Hc2 : content ctx w2
                = afterHooks (beforeScenario (options (suite w)))
                    (<[TestingTKey := VTestingT sub]> (content ctx w))).
  { change w2 with (snd (Done tt, w2)). rewrite <- H2, callHooks_content.
    subst w1. rewrite content_Set_. reflexivity. }
  assert (Hin2 : is_Some (heap w2 !! ctx)).
  { change w2 with (snd (Done tt, w2)). rewrite <- H2. apply callHooks_keeps_context.
    subst w1. unfold Set_, modify. cbn [snd heap setHeap]. rewrite lookup_insert_eq. eauto. }
  (* the steps, on the clone *)
  set (cl := fresh (dom (heap w2))).
  assert (Hne : cl <> ctx).
  { intros Heq. apply (is_fresh (dom (heap w2))). fold cl. rewrite Heq.
    apply elem_of_dom. exact Hin2. }
  set (w4 := snd (Clone ctx w2)).
  pose proof (runSteps_sat cl sub (Msgs.Scenario_Steps sc) (Cucumber.FormatScenario sc) w4)
    as Hsat. unfold sat in Hsat.
  pose proof (runSteps_other_contexts cl ctx sub (Msgs.Scenario_Steps sc)
                (Cucumber.FormatScenario sc) w4 Hne) as Hframe.
  destruct (runSteps cl sub (Msgs.Scenario_Steps sc) (Cucumber.FormatScenario sc) w4)
    as [o w5] eqn:Hrun.
  cbn [fst snd] in Hsat, Hframe. destruct Hsat as (Hs5 & _ & Hcases).
  assert (Hc5 : content ctx w5 = content ctx w2).
  { unfold content. rewrite Hframe. subst w4. cbn [Clone snd heap setHeap].
    fold cl. rewrite lookup_insert_ne by exact Hne. reflexivity. }
  assert (Hinner : scenarioSteps ctx sc None (Cucumber.FormatScenario sc) sub w2 = (o, w5)).
  { rewrite scenarioSteps_plain by exact Hex.
    unfold backgroundFirst, bind, ret. cbn [Clone fst snd]. exact Hrun. }
  destruct (callHooks_spec AfterScenario (afterScenario (options (suite w5))) ctx w5)
    as (w6 & H6 & _).
  assert (H6' : callAfterScenarios ctx w5 = (Done tt, w6)) by exact H6.
  assert (Hc6 : content ctx w6
                = afterHooks (afterScenario (options (suite w))) (content ctx w2)).
  { change w6 with (snd (Done tt, w6)). rewrite <- H6, callHooks_content, Hc5.
    rewrite Hs5. subst w4. cbn [Clone snd suite setHeap]. rewrite Hs2. reflexivity. }
  assert (Hend : snd (scenarioBody ctx sc None (Cucumber.FormatScenario sc) sub w0)
                 = snd (Set_ ctx TestingTKey VNil w6)).
  { rewrite scenarioBody_eq.
    destruct Hcases as [[r ->] | [-> _]].
    - rewrite (betweenScenarioHooks_Done_1 ctx sub _ w0 w2 r w5 w6 H2' Hinner H6').
      reflexivity.
    - rewrite (betweenScenarioHooks_Goexit_1 ctx sub _ w0 w2 w5 w6 H2' Hinner H6').
      reflexivity. }
  assert (Hworld : snd ((r <- tRun t0 (scenarioBody ctx sc None (Cucumber.FormatScenario sc)) ;;
                         ret (default (Cucumber.FormatScenario sc) r)) w)
                   = snd (scenarioBody ctx sc None (Cucumber.FormatScenario sc) sub w0)).
  { unfold bind, tRun.
    change {| tid := length (tests w); parents := tid t0 :: parents t0 |} with sub.
    fold w0.
    destruct (scenarioBody ctx sc None (Cucumber.FormatScenario sc) sub w0)
      as [[a| |v|] wz]; reflexivity. }
  rewrite Hworld, Hend, content_Set_, Hc6, Hc2. reflexivity.
Qed.

(* ===================================================================== *)
(** * Features without outlines *)
(* ===================================================================== *)

(** The loop over the steps adds to the record it is given and keeps the
    head of that record. *)
Lemma runSteps_head ctx t0 steps :
  forall fs w r w',
    runSteps ctx t0 steps fs w = (Done r, w') ->
    Cucumber.withSteps r [] = Cucumber.withSteps fs [].
Proof.
  unfold runSteps. induction steps as [|step rest IH]; intros fs w r w'; cbn [foldM].
  - intros [= <- <-]. reflexivity.
  - unfold bind at 1. unfold bind at 1. rewrite formatStep_eq.
    unfold bind at 1.
    destruct (runStep ctx t0 step _) as [[rec| |v|] w1]; try discriminate.
    unfold ret at 1. intros H. apply IH in H. rewrite H. reflexivity.
Qed.

(** A scenario without example tables always returns to the loop over the
    scenarios, however its handlers end. *)
Lemma runScenario_plain ctx sc bkg t0 w :
  Msgs.Scenario_Examples sc = [] ->
  exists r w',
    runScenario ctx sc bkg t0 w = (Done r, w') /\
    Cucumber.withSteps r [] = Cucumber.FormatScenario sc /\
    suite w' = suite w.
Proof.
  intros Hex. unfold runScenario.
  set (sub := {| tid := length (tests w); parents := tid t0 :: parents t0 |}).
  set (w0 := setTests (tests w ++ [{| failed := false; skipped := false |}]) w).
  destruct (callBeforeScenarios_Done ctx (snd (Set_ ctx TestingTKey (VTestingT sub) w0)))
    as (w2 & H2 & Hs2 & _).
  change (suite (snd (Set_ ctx TestingTKey (VTestingT sub) w0))) with (suite w) in Hs2.
  assert (Hinner : exists o w5,
             scenarioSteps ctx sc bkg (Cucumber.FormatScenario sc) sub w2 = (o, w5) /\
             suite w5 = suite w /\
             ((exists r, o = Done r /\
                         Cucumber.withSteps r [] = Cucumber.FormatScenario sc) \/
              o = Goexit)).
  { rewrite scenarioSteps_plain by exact Hex.
    pose proof (backgroundFirst_sat ctx bkg sub w2) as Hb. unfold sat in Hb.
    unfold bind at 1.
    destruct (backgroundFirst ctx bkg sub w2) as [ob w3]. cbn [fst snd] in Hb.
    destruct Hb as (Hs3 & _ & [-> | [-> _]]).
    - unfold bind. cbn [Clone fst snd].
      set (w4 := setHeap _ w3).
      pose proof (runSteps_sat (fresh (dom (heap w3))) sub (Msgs.Scenario_Steps sc)
                    (Cucumber.FormatScenario sc) w4) as Hr. unfold sat in Hr.
      pose proof (runSteps_head (fresh (dom (heap w3))) sub (Msgs.Scenario_Steps sc)
                    (Cucumber.FormatScenario sc) w4) as Hh.
      destruct (runSteps _ sub (Msgs.Scenario_Steps sc) (Cucumber.FormatScenario sc) w4)
        as [o w5]. cbn [fst snd] in Hr.
      destruct Hr as (Hs5 & _ & [[r ->] | [-> _]]).
      + exists (Done r), w5. split; [reflexivity|].
        split; [rewrite Hs5; subst w4; cbn [suite setHeap]; congruence|].
        left. exists r. split; [reflexivity|]. apply (Hh r w5 eq_refl).
      + exists Goexit, w5. split; [reflexivity|].
        split; [rewrite Hs5; subst w4; cbn [suite setHeap]; congruence | auto].
    - exists Goexit, w3. split; [reflexivity|]. split; [congruence | auto]. }
  destruct Hinner as (o & w5 & Hinner & Hs5 & Hcases).
  destruct (callAfterScenarios_Done ctx w5) as (w6 & H6 & Hs6 & _).
  unfold bind, tRun. fold sub. fold w0. rewrite scenarioBody_eq.
  destruct Hcases as [(r & -> & Hhead) | ->].
  - rewrite (betweenScenarioHooks_Done_1 ctx sub _ w0 w2 r w5 w6 H2 Hinner H6).
    eexists. eexists. split; [reflexivity|]. cbn [default].
    split; [exact Hhead|]. cbn [Set_ modify snd suite setHeap]. congruence.
  - rewrite (betweenScenarioHooks_Goexit_1 ctx sub _ w0 w2 w5 w6 H2 Hinner H6).
    eexists. eexists. split; [reflexivity|]. cbn [default].
    split; [reflexivity|]. cbn [Set_ modify snd suite setHeap]. congruence.
Qed.

(** The scenarios among the children of a feature, in order *)
Definition scenariosOf (children : list Msgs.FeatureChild) : list Msgs.Scenario :=
  flat_map (fun child => match Msgs.GetScenario child with
                         | Some sc => [sc]
                         | None => []
                         end) children.

(** The child is not an outline. *)
Definition plainChild (child : Msgs.FeatureChild) : Prop :=
  match Msgs.GetScenario child with
  | Some sc => Msgs.Scenario_Examples sc = []
  | None => True
  end.

(** An element of the record of a feature is the record of the scenario
    [sc]: its head is what [FormatScenario] makes of [sc]. *)
Definition recordOf (sc : Msgs.Scenario) (el : Cucumber.Scenario) : Prop :=
  Cucumber.withSteps el [] = Cucumber.FormatScenario sc.

Lemma runChildren_plain t0 children :
  forall acc w,
    Forall plainChild children ->
    exists bkg' els w',
      foldM (runChild t0) acc children w
      = (Done (bkg', fold_left Cucumber.AddScenario els (snd acc)), w') /\
      Forall2 recordOf (scenariosOf children) els /\
      suite w' = suite w.
Proof.
  induction children as [|child rest IH]; intros acc w Hall; cbn [foldM].
  - exists (fst acc), [], w. destruct acc. repeat split. constructor.
  - inversion Hall as [|? ? Hchild Hrest]; subst.
    unfold plainChild in Hchild. unfold scenariosOf. cbn [flat_map].
    fold (scenariosOf rest). unfold bind at 1. unfold runChild at 1.
    destruct (Msgs.GetScenario child) as [sc|] eqn:Hsc.
    + unfold bind at 1. cbn [NewContext fst snd].
      set (w1 := setHeap _ w).
      unfold bind at 1, getSuite at 1, gets at 1. cbn [fst snd].
      destruct (skipScenario (suite w1) (Msgs.Scenario_Tags sc)).
      * unfold ret at 1.
        destruct (IH (match Msgs.GetBackground child with
                      | Some b => Some b | None => fst acc end,
                      Cucumber.AddScenario (snd acc)
                        (Cucumber.FormatScenarioWithSteps sc "skipped")) w1 Hrest)
          as (bkg' & els & w' & Hrun & Hels & Hs').
        exists bkg', (Cucumber.FormatScenarioWithSteps sc "skipped" :: els), w'.
        split; [exact Hrun|]. split; [|exact Hs'].
        cbn [app]. constructor; [|exact Hels].
        unfold recordOf. rewrite FormatScenarioWithSteps_eq. reflexivity.
      * destruct (runScenario_plain (fresh (dom (heap w))) sc
                    (match Msgs.GetBackground child with
                     | Some b => Some b | None => fst acc end) t0 w1 Hchild)
          as (r & w2 & Hrun2 & Hhead & Hs2).
        unfold bind at 1. rewrite Hrun2. unfold ret at 1.
        destruct (IH (match Msgs.GetBackground child with
                      | Some b => Some b | None => fst acc end,
                      Cucumber.AddScenario (snd acc) r) w2 Hrest)
          as (bkg' & els & w' & Hrun & Hels & Hs').
        exists bkg', (r :: els), w'.
        split; [exact Hrun|]. split; [|rewrite Hs', Hs2; reflexivity].
        cbn [app]. constructor; [exact Hhead | exact Hels].
    + unfold ret at 1.
      destruct (IH (match Msgs.GetBackground child with
                    | Some b => Some b | None => fst acc end, snd acc) w Hrest)
        as (bkg' & els & w' & Hrun & Hels & Hs').
      exists bkg', els, w'. auto.
Qed.

Lemma Feature_Name_fold l f0 :
  Cucumber.Feature_Name (fold_left Cucumber.AddScenario l f0) = Cucumber.Feature_Name f0.
Proof.
  revert f0. induction l as [|x l IH]; intros f0; cbn [fold_left]; [reflexivity|].
  rewrite IH. reflexivity.
Qed.

(** The run of a feature that is not ignored and has no outline, as the
    loop over its children leaves it *)
Lemma feature_runs (ft : Msgs.Feature) (w : World) :
  ~ tagged (ignoreTags (options (suite w))) (Msgs.Feature_Tags ft) ->
  Forall plainChild (Msgs.Feature_Children ft) ->
  exists els w',
    runFeature ft w
    = (Done (fold_left Cucumber.AddScenario els (Cucumber.FormatFeature ft)), w') /\
    Forall2 recordOf (scenariosOf (Msgs.Feature_Children ft)) els /\
    suite w' = suite w.
Proof.
  intros Hign Hplain.
  unfold runFeature. unfold bind at 1, getSuite at 1, gets at 1. cbn [fst snd].
  destruct (existsb _ (Msgs.Feature_Tags ft)) eqn:E.
  { exfalso. apply Hign. apply existsb_tagged. exact E. }
  unfold bind, tRun.
  destruct (runChildren_plain
              {| tid := length (tests w); parents := tid (t (suite w)) :: parents (t (suite w)) |}
              (Msgs.Feature_Children ft) (None, Cucumber.FormatFeature ft)
              (setTests (tests w ++ [{| failed := false; skipped := false |}]) w) Hplain)
    as (bkg' & els & w' & Hrun & Hels & Hs').
  rewrite Hrun. unfold ret. cbn [snd].
  exists els, w'. auto.
Qed.

(** X19: With hooks that return and handlers that end, by returning, by a
    panic or by [t.FailNow] or [t.SkipNow], and with hooks and handlers
    storing under keys of their own only (not under [TestingTKey{}] or
    [time.Time{}]): a feature that is not ignored and has no outline runs
    to its end, whichever of these ways its handlers end and whether or not
    its steps resolve: [runFeature] returns the record of the feature with
    one element for every scenario among its children, in order, skipped or
    run; a background gives no element. *)
Theorem feature_without_outlines_returns (ft : Msgs.Feature) (w : World) :
  ~ tagged (ignoreTags (options (suite w))) (Msgs.Feature_Tags ft) ->
  Forall plainChild (Msgs.Feature_Children ft) ->
  exists r w',
    runFeature ft w = (Done r, w') /\
    Forall2 recordOf (scenariosOf (Msgs.Feature_Children ft)) (Cucumber.Elements r) /\
    Cucumber.Feature_Name r = Msgs.Feature_Name ft /\
    suite w' = suite w.
Proof.
  intros Hign Hplain.
  destruct (feature_runs ft w Hign Hplain) as (els & w' & Hrun & Hels & Hs').
  exists (fold_left Cucumber.AddScenario els (Cucumber.FormatFeature ft)), w'.
  split; [exact Hrun|].
  split; [rewrite Elements_fold_AddScenario; exact Hels|].
  split; [rewrite Feature_Name_fold; reflexivity | exact Hs'].
Qed.





(* ===================================================================== *)
(** * Outlines whose rows resolve *)
(* ===================================================================== *)

(** The placeholders of a table: its header cells in angle brackets *)
Definition placeholdersOf (ex : Msgs.Examples) : list string :=
  map (fun placeholder => "<" +:+ placeholder +:+ ">") (Msgs.TableHeader ex).

(** The rows of all the tables, each with its table, in order *)
Definition allRows (examples : list Msgs.Examples) : list (Msgs.Examples * list string) :=
  flat_map (fun ex => map (pair ex) (Msgs.TableBody ex)) examples.

(** The step [st] with the values of the row [p] put in *)
Definition instance (st : Msgs.Step) (p : Msgs.Examples * list string) : Msgs.Step :=
  substituted st
    match stepFromExample (Msgs.Step_Text st) (snd p) (placeholdersOf (fst p)) with
    | Done q => fst q
    | _ => Msgs.Step_Text st
    end.

(** The row has a cell for every placeholder, and the text it gives the
    step resolves in the suite. *)
Definition resolvable (s : Suite) (st : Msgs.Step) (p : Msgs.Examples * list string) : Prop :=
  exists text e,
    stepFromExample (Msgs.Step_Text st) (snd p) (placeholdersOf (fst p)) = Done (text, e) /\
    findStepDef s text <> None.

(** The suite of [w'] has the definitions of the suite of [w], and
    possibly more behind them. *)
Definition extends (w w' : World) : Prop :=
  exists more, steps (suite w') = steps (suite w) ++ more.

Lemma extends_refl w : extends w w.
Proof. exists []. rewrite app_nil_r. reflexivity. Qed.

Lemma extends_trans w1 w2 w3 : extends w1 w2 -> extends w2 w3 -> extends w1 w3.
Proof.
  intros [m1 H1] [m2 H2]. exists (m1 ++ m2). rewrite H2, H1, app_assoc. reflexivity.
Qed.

Lemma resolvable_extends w w' st p :
  extends w w' -> resolvable (suite w) st p -> resolvable (suite w') st p.
Proof.
  intros Hext (text & e & Hrow & Hdef). exists text, e. split; [exact Hrow|].
  eapply findStepDef_mono; [exact Hext | exact Hdef].
Qed.

(** What the expansion gives: for every table, as many rows as the table
    has, counted from the first row of the first table, and for every such
    row the steps in order. *)
Definition outlineSteps (steps : list Msgs.Step) (examples : list Msgs.Examples)
    : list Msgs.Step :=
  flat_map
    (fun ex =>
       flat_map (fun p => map (fun st => instance st p) steps)
         (take (length (Msgs.TableBody ex)) (allRows examples)))
    examples.

Lemma rows_resolved st ex rows :
  forall acc w,
    Forall (fun row => resolvable (suite w) st (ex, row)) rows ->
    exists w',
      foldM (stepsFromExamplesRow st (placeholdersOf ex)) acc rows w
      = (Done (acc ++ map (fun row => instance st (ex, row)) rows), w') /\
      extends w w'.
Proof.
  induction rows as [|row rows IH]; intros acc w Hall; cbn [foldM map].
  - exists w. rewrite app_nil_r. split; [reflexivity | apply extends_refl].
  - inversion Hall as [|? ? Hrow Hrest]; subst.
    destruct Hrow as (text & e & Hrow & Hdef). cbn [fst snd] in Hrow.
    destruct (not_None_Some _ Hdef) as [def Hdef'].
    destruct (stepsFromExamplesRow_resolved st (placeholdersOf ex) acc row w text e def
                Hrow Hdef') as (w1 & more & Hrun1 & Hsteps1).
    assert (Hext1 : extends w w1) by (exists more; exact Hsteps1).
    destruct (IH (acc ++ [substituted st text]) w1) as (w' & Hrun & Hext).
    { eapply Forall_impl; [exact Hrest|]. intros r Hr.
      eapply resolvable_extends; [exact Hext1 | exact Hr]. }
    exists w'. split; [|eapply extends_trans; eauto].
    unfold bind. rewrite Hrun1, Hrun, <- app_assoc.
    unfold instance. cbn [fst snd]. rewrite Hrow. reflexivity.
Qed.

Lemma stepsFromExamples_eq st ex :
  stepsFromExamples st ex
  = foldM (stepsFromExamplesRow st (placeholdersOf ex)) [] (Msgs.TableBody ex).
Proof. reflexivity. Qed.

Lemma examples_resolved st examples :
  forall acc w,
    Forall (resolvable (suite w) st) (allRows examples) ->
    exists w',
      foldM (fun acc example =>
               more <- stepsFromExamples st example ;; ret (acc ++ more)) acc examples w
      = (Done (acc ++ map (instance st) (allRows examples)), w') /\
      extends w w'.
Proof.
  induction examples as [|ex rest IH]; intros acc w Hall; cbn [foldM].
  - exists w. cbn. rewrite app_nil_r. split; [reflexivity | apply extends_refl].
  - unfold allRows in Hall. cbn [flat_map] in Hall. fold (allRows rest) in Hall.
    apply Forall_app in Hall as [Hex Hrest].
    destruct (rows_resolved st ex (Msgs.TableBody ex) [] w) as (w1 & Hrun1 & Hext1).
    { apply Forall_forall. intros row Hin.
      apply (proj1 (Forall_forall _ _) Hex (ex, row)).
      apply list_elem_of_In, in_map, list_elem_of_In. exact Hin. }
    destruct (IH (acc ++ map (fun row => instance st (ex, row)) (Msgs.TableBody ex)) w1)
      as (w' & Hrun & Hext).
    { eapply Forall_impl; [exact Hrest|]. intros p Hp.
      eapply resolvable_extends; [exact Hext1 | exact Hp]. }
    exists w'. split; [|eapply extends_trans; eauto].
    unfold bind at 1. unfold bind at 1. rewrite (stepsFromExamples_eq st ex), Hrun1.
    unfold ret at 1. cbn [app].
    rewrite Hrun. unfold allRows. cbn [flat_map]. fold (allRows rest).
    rewrite map_app, map_map, <- app_assoc. reflexivity.
Qed.

Lemma stepsList_resolved examples steps :
  forall acc w,
    Forall (fun st => Forall (resolvable (suite w) st) (allRows examples)) steps ->
    exists w',
      foldM (fun stepsList outlineStep =>
               l <- foldM (fun acc example =>
                             more <- stepsFromExamples outlineStep example ;;
                             ret (acc ++ more)) [] examples ;;
               ret (stepsList ++ [l])) acc steps w
      = (Done (acc ++ map (fun st => map (instance st) (allRows examples)) steps), w') /\
      extends w w'.
Proof.
  induction steps as [|st steps IH]; intros acc w Hall; cbn [foldM map].
  - exists w. rewrite app_nil_r. split; [reflexivity | apply extends_refl].
  - inversion Hall as [|? ? Hst Hrest]; subst.
    destruct (examples_resolved st examples [] w Hst) as (w1 & Hrun1 & Hext1).
    destruct (IH (acc ++ [map (instance st) (allRows examples)]) w1) as (w' & Hrun & Hext).
    { eapply Forall_impl; [exact Hrest|]. intros st' Hst'.
      eapply Forall_impl; [exact Hst'|]. intros p Hp.
      eapply resolvable_extends; [exact Hext1 | exact Hp]. }
    exists w'. split; [|eapply extends_trans; eauto].
    unfold bind at 1. unfold bind at 1. rewrite Hrun1. unfold ret at 1. cbn [app].
    rewrite Hrun, <- app_assoc. reflexivity.
Qed.

(** The second loop, when every index is in range *)
Definition cellIs (stepsList : list (list Msgs.Step)) (ci si : nat) (st : Msgs.Step) : Prop :=
  exists l, stepsList !! si = Some l /\ l !! ci = Some st.

Lemma pickSteps_ok stepsList ci sis :
  forall cells acc,
    Forall2 (cellIs stepsList ci) sis cells ->
    pickSteps stepsList acc sis ci = Done (acc ++ cells).
Proof.
  induction sis as [|si sis IH]; intros cells acc H; inversion H as [|? st ? cells' Hc Hrest];
    subst; cbn [pickSteps].
  - rewrite app_nil_r. reflexivity.
  - destruct Hc as (l & -> & ->). rewrite (IH cells' _ Hrest), <- app_assoc. reflexivity.
Qed.

Lemma pickRows_ok stepsList n cis :
  forall groups acc,
    Forall2 (fun ci cells => Forall2 (cellIs stepsList ci) (seq 0 n) cells) cis groups ->
    pickRows stepsList acc n cis = Done (acc ++ concat groups).
Proof.
  induction cis as [|ci cis IH]; intros groups acc H;
    inversion H as [|? cells ? groups' Hc Hrest]; subst; cbn [pickRows concat].
  - rewrite app_nil_r. reflexivity.
  - rewrite (pickSteps_ok stepsList ci (seq 0 n) cells acc Hc).
    rewrite (IH groups' _ Hrest), <- app_assoc. reflexivity.
Qed.

Lemma pickExamples_ok stepsList n examples :
  forall tables acc,
    Forall2 (fun ex groups =>
               Forall2 (fun ci cells => Forall2 (cellIs stepsList ci) (seq 0 n) cells)
                       (seq 0 (length (Msgs.TableBody ex))) groups)
            examples tables ->
    pickExamples stepsList acc n examples = Done (acc ++ concat (map (@concat _) tables)).
Proof.
  induction examples as [|ex examples IH]; intros tables acc H;
    inversion H as [|? groups ? tables' Hc Hrest]; subst; cbn [pickExamples map concat].
  - rewrite app_nil_r. reflexivity.
  - rewrite (pickRows_ok stepsList n _ groups acc Hc).
    rewrite (IH tables' _ Hrest), <- app_assoc. reflexivity.
Qed.

Lemma map_lookup_Some {A B} (g : A -> B) (l : list A) i x :
  l !! i = Some x -> map g l !! i = Some (g x).
Proof.
  revert i. induction l as [|a l IH]; intros [|i]; cbn; try discriminate.
  - intros [= ->]. reflexivity.
  - apply IH.
Qed.

Lemma Forall2_seq_map {A B} (Q : nat -> B -> Prop) (g : A -> B) (l : list A) :
  forall k,
    (forall i x, l !! i = Some x -> Q (k + i) (g x)) ->
    Forall2 Q (seq k (length l)) (map g l).
Proof.
  induction l as [|a l IH]; intros k H; cbn [length seq map]; constructor.
  - rewrite <- (Nat.add_0_r k). apply (H 0 a). reflexivity.
  - apply IH. intros i x Hi. rewrite Nat.add_succ_l, <- Nat.add_succ_r. apply (H (S i) x Hi).
Qed.

Lemma allRows_length examples ex :
  In ex examples -> length (Msgs.TableBody ex) <= length (allRows examples).
Proof.
  unfold allRows. induction examples as [|ex0 rest IH]; cbn [In flat_map]; [intros []|].
  rewrite length_app, length_map. intros [-> | Hin]; [lia|]. specialize (IH Hin). lia.
Qed.

Lemma picked steps examples :
  pickExamples (map (fun st => map (instance st) (allRows examples)) steps) []
    (length steps) examples
  = Done (outlineSteps steps examples).
Proof.
  set (stepsList := map (fun st => map (instance st) (allRows examples)) steps).
  set (group := fun p : Msgs.Examples * list string => map (fun st => instance st p) steps).
  set (table := fun ex : Msgs.Examples =>
                  map group (take (length (Msgs.TableBody ex)) (allRows examples))).
  assert (Hcells : forall ci p, allRows examples !! ci = Some p ->
                     Forall2 (cellIs stepsList ci) (seq 0 (length steps)) (group p)).
  { intros ci p Hp. apply Forall2_seq_map. intros si st Hst. cbn [Nat.add].
    exists (map (instance st) (allRows examples)).
    split; [apply (map_lookup_Some (fun st0 => map (instance st0) (allRows examples)));
            exact Hst|].
    apply map_lookup_Some. exact Hp. }
  assert (Htables : forall l, (forall ex, In ex l -> In ex examples) ->
             Forall2 (fun ex groups =>
                        Forall2 (fun ci cells =>
                                   Forall2 (cellIs stepsList ci) (seq 0 (length steps)) cells)
                                (seq 0 (length (Msgs.TableBody ex))) groups)
                     l (map table l)).
  { induction l as [|ex l IH]; intros Hin; cbn [map]; constructor.
    - subst table. cbn beta.
      set (n := length (Msgs.TableBody ex)).
      assert (Hn : n <= length (allRows examples))
        by (apply allRows_length, Hin; left; reflexivity).
      replace n with (length (take n (allRows examples))) at 1
        by (rewrite length_take; lia).
      apply Forall2_seq_map. intros i p Hp. cbn [Nat.add].
      apply Hcells. apply lookup_take_Some in Hp. tauto.
    - apply IH. intros ex' H'. apply Hin. right. exact H'. }
  rewrite (pickExamples_ok stepsList (length steps) examples (map table examples) []
             (Htables examples (fun ex H => H))).
  cbn [app]. f_equal. unfold outlineSteps.
  rewrite flat_map_concat_map, map_map. f_equal.
  apply map_ext. intros ex. subst table. cbn beta.
  rewrite flat_map_concat_map. reflexivity.
Qed.

Lemma outlineSteps_no_steps examples : outlineSteps [] examples = [].
Proof.
  unfold outlineSteps. generalize (allRows examples). intros R.
  induction examples as [|ex rest IH]; cbn [flat_map]; [reflexivity|].
  rewrite IH, app_nil_r.
  induction (take _ R) as [|p l IHl]; cbn [flat_map map]; [reflexivity | exact IHl].
Qed.

Lemma getOutlineStep_resolved steps examples w :
  Forall (fun st => Forall (resolvable (suite w) st) (allRows examples)) steps ->
  exists w',
    getOutlineStep steps examples w = (Done (outlineSteps steps examples), w') /\
    extends w w'.
Proof.
  intros Hall. unfold getOutlineStep.
  destruct (stepsList_resolved examples steps [] w Hall) as (w' & Hrun & Hext).
  exists w'. split; [|exact Hext].
  rewrite (bind_Done _ _ _ _ _ Hrun). cbn [app]. rewrite length_map.
  destruct steps as [|st steps]; cbn [length Nat.eqb].
  - rewrite outlineSteps_no_steps. reflexivity.
  - unfold lift. change (S (length steps)) with (length (st :: steps)).
    rewrite picked. reflexivity.
Qed.

Lemma outlineSteps_one_table steps ex :
  outlineSteps steps [ex]
  = flat_map (fun row => map (fun st => instance st (ex, row)) steps) (Msgs.TableBody ex).
Proof.
  unfold outlineSteps, allRows. cbn [flat_map]. rewrite !app_nil_r.
  rewrite <- (length_map (pair ex) (Msgs.TableBody ex)) at 1. rewrite firstn_all.
  induction (Msgs.TableBody ex) as [|row rows IH]; cbn [map flat_map]; [reflexivity|].
  rewrite IH. reflexivity.
Qed.

Lemma resolvable_rows (s : Suite) steps ex :
  Forall (fun st => Forall (fun row => resolvable s st (ex, row)) (Msgs.TableBody ex)) steps ->
  Forall (fun st => Forall (resolvable s st) (allRows [ex])) steps.
Proof.
  intros Hall. eapply Forall_impl; [exact Hall|]. intros st Hst. unfold allRows.
  cbn [flat_map]. rewrite app_nil_r. apply Forall_forall. intros p Hin.
  apply list_elem_of_In, in_map_iff in Hin as (row & <- & Hrow).
  apply (proj1 (Forall_forall _ _) Hst row). apply list_elem_of_In. exact Hrow.
Qed.

Lemma instance_resolves (s : Suite) st p :
  resolvable s st p -> findStepDef s (Msgs.Step_Text (instance st p)) <> None.
Proof.
  intros (text & e & Hrow & Hdef). unfold instance. rewrite Hrow. exact Hdef.
Qed.

(** X21: An outline with one table of examples, every row of which gives every
    step a text that resolves: the expansion returns, for every row of the
    table in order, the steps of the outline in order with the values of
    the row put in; the definitions of the suite are kept, with more behind
    them. *)
Theorem outline_with_one_table (steps : list Msgs.Step) (ex : Msgs.Examples) (w : World) :
  Forall (fun st => Forall (fun row => resolvable (suite w) st (ex, row))
                           (Msgs.TableBody ex)) steps ->
  exists w',
    getOutlineStep steps [ex] w
    = (Done (flat_map (fun row => map (fun st => instance st (ex, row)) steps)
               (Msgs.TableBody ex)), w') /\
    extends w w'.
Proof.
  intros Hall.
  destruct (getOutlineStep_resolved steps [ex] w (resolvable_rows _ _ _ Hall))
    as (w' & Hrun & Hext).
  exists w'. split; [|exact Hext].
  rewrite Hrun, outlineSteps_one_table. reflexivity.
Qed.

(** X22: An outline with two tables of examples whose rows all resolve: the
    rows of the second table are counted from the first row of the first
    table. The first table gives the steps of its rows; the second table,
    with [n] rows, gives once more the steps of the first [n] rows of the
    two tables taken together, so its own rows are run only as far as the
    first table has fewer than [n] rows. *)
Theorem outline_tables_count_rows_from_the_first (steps : list Msgs.Step)
    (ex1 ex2 : Msgs.Examples) (w : World) :
  Forall (fun st => Forall (resolvable (suite w) st) (allRows [ex1; ex2])) steps ->
  exists w',
    getOutlineStep steps [ex1; ex2] w
    = (Done (flat_map (fun row => map (fun st => instance st (ex1, row)) steps)
               (Msgs.TableBody ex1)
             ++ flat_map (fun p => map (fun st => instance st p) steps)
                  (take (length (Msgs.TableBody ex2))
                     (map (pair ex1) (Msgs.TableBody ex1)
                      ++ map (pair ex2) (Msgs.TableBody ex2)))), w') /\
    extends w w'.
Proof.
  intros Hall.
  destruct (getOutlineStep_resolved steps [ex1; ex2] w Hall) as (w' & Hrun & Hext).
  exists w'. split; [|exact Hext]. rewrite Hrun. f_equal. f_equal.
  unfold outlineSteps, allRows. cbn [flat_map]. rewrite !app_nil_r. f_equal.
  rewrite take_app_length' by (rewrite length_map; reflexivity).
  clear. induction (Msgs.TableBody ex1) as [|row rows IH]; cbn [map flat_map]; [reflexivity|].
  rewrite IH. reflexivity.
Qed.

Lemma scenarioSteps_outline ctx sc ex bkg fs t0 :
  Msgs.Scenario_Examples sc = [ex] ->
  scenarioSteps ctx sc bkg fs t0
  = (backgroundFirst ctx bkg t0 ;;
     c <- Clone ctx ;;
     steps <- getOutlineStep (Msgs.Scenario_Steps sc) [ex] ;;
     runSteps c t0 steps fs).
Proof. intros Hex. unfold scenarioSteps. rewrite Hex. reflexivity. Qed.

(** X24: An outline scenario with one table of examples, every row of which
    gives every step a text that resolves, and whose background steps
    resolve: [runScenario] returns the record of the scenario with one step
    record for every row and every step, the rows in order and within a
    row the steps in order, each named by the text with the values of the
    row put in. *)
Theorem outline_scenario_runs_every_row (ctx : Context) (sc : Msgs.Scenario)
    (ex : Msgs.Examples) (bkg : option Msgs.Background) (t0 : T) (w : World) :
  Msgs.Scenario_Examples sc = [ex] ->
  Forall (fun st => findStepDef (suite w) (Msgs.Step_Text st) <> None)
         (backgroundSteps bkg) ->
  Forall (fun st => Forall (fun row => resolvable (suite w) st (ex, row))
                           (Msgs.TableBody ex)) (Msgs.Scenario_Steps sc) ->
  exists record w',
    runScenario ctx sc bkg t0 w = (Done record, w') /\
    map Cucumber.Step_Name (Cucumber.Steps record)
    = map Msgs.Step_Text
        (flat_map (fun row => map (fun st => instance st (ex, row)) (Msgs.Scenario_Steps sc))
           (Msgs.TableBody ex)) /\
    Forall knownStatus (Cucumber.Steps record) /\
    Cucumber.withSteps record [] = Cucumber.FormatScenario sc /\
    extends w w'.
Proof.
  intros Hex Hbkg Hrows. unfold runScenario.
  set (sub := {| tid := length (tests w); parents := tid t0 :: parents t0 |}).
  set (w0 := setTests (tests w ++ [{| failed := false; skipped := false |}]) w).
  destruct (callBeforeScenarios_Done ctx (snd (Set_ ctx TestingTKey (VTestingT sub) w0)))
    as (w2 & H2 & Hs2 & _).
  change (suite (snd (Set_ ctx TestingTKey (VTestingT sub) w0))) with (suite w) in Hs2.
  (* the background *)
  assert (Hb : exists w3, backgroundFirst ctx bkg sub w2 = (Done tt, w3) /\ suite w3 = suite w).
  { unfold backgroundFirst. destruct bkg as [b|].
    - destruct (runSteps_resolved ctx sub (getBackgroundSteps b) zeroScenario w2)
        as (rs & w3 & Hrun & _ & _ & Hs3).
      { rewrite Hs2. exact Hbkg. }
      exists w3. unfold bind. rewrite Hrun. split; [reflexivity | congruence].
    - exists w2. auto. }
  destruct Hb as (w3 & Hb & Hs3).
  (* the expansion, and the steps on the clone *)
  set (w4 := snd (Clone ctx w3)).
  assert (Hs4 : suite w4 = suite w) by exact Hs3.
  destruct (getOutlineStep_resolved (Msgs.Scenario_Steps sc) [ex] w4)
    as (w5 & Hexp & Hext5).
  { rewrite Hs4. apply resolvable_rows. exact Hrows. }
  rewrite outlineSteps_one_table in Hexp.
  set (expanded := flat_map (fun row => map (fun st => instance st (ex, row))
                                           (Msgs.Scenario_Steps sc)) (Msgs.TableBody ex)) in *.
  assert (Hext : extends w w5).
  { destruct Hext5 as [more Hmore]. exists more. rewrite Hmore, Hs4. reflexivity. }
  destruct (runSteps_resolved (fresh (dom (heap w3))) sub expanded
              (Cucumber.FormatScenario sc) w5)
    as (rs & w6 & Hrun & Hnames & Hst & Hs6).
  { subst expanded. apply Forall_forall. intros st' Hin.
    apply list_elem_of_In, in_flat_map in Hin as (row & Hrow & Hin).
    apply in_map_iff in Hin as (st & <- & Hst).
    apply instance_resolves.
    eapply resolvable_extends; [exact Hext|].
    pose proof (proj1 (Forall_forall _ _) Hrows st) as H1.
    apply (proj1 (Forall_forall _ _) (H1 ltac:(apply list_elem_of_In; exact Hst)) row).
    apply list_elem_of_In. exact Hrow. }
  destruct (callAfterScenarios_Done ctx w6) as (w7 & H7 & Hs7 & _).
  assert (Hinner : scenarioSteps ctx sc bkg (Cucumber.FormatScenario sc) sub w2
                   = (Done (Cucumber.withSteps (Cucumber.FormatScenario sc) rs), w6)).
  { rewrite (scenarioSteps_outline ctx sc ex) by exact Hex.
    unfold bind at 1. rewrite Hb. unfold bind at 1. cbn [Clone fst snd].
    fold w4. rewrite (bind_Done _ _ _ _ _ Hexp). exact Hrun. }
  eexists. eexists. split.
  - unfold bind, tRun. fold sub. fold w0. rewrite scenarioBody_eq.
    rewrite (betweenScenarioHooks_Done_1 ctx sub _ w0 w2 _ w6 w7 H2 Hinner H7).
    reflexivity.
  - cbn [default Cucumber.withSteps Cucumber.Steps].
    split; [exact Hnames|]. split; [exact Hst|]. split; [reflexivity|].
    destruct Hext as [more Hmore]. exists more.
    cbn [Set_ modify snd suite setHeap]. rewrite Hs7, Hs6. exact Hmore.
Qed.

(* ===================================================================== *)
(** * The scenario hooks *)
(* ===================================================================== *)

(** The calls that the run of a step makes *)
Definition stepEvent (e : Event) : Prop :=
  match e with
  | HookCall BeforeStep _ | HookCall AfterStep _ | HandlerCall _ _ => True
  | _ => False
  end.

(** The calls since the world [w0] are calls of steps. *)
Definition stepsSince (w0 w' : World) : Prop :=
  exists middle, trace w' = trace w0 ++ middle /\ Forall stepEvent middle.

Lemma stepsSince_refl w : stepsSince w w.
Proof. exists []. rewrite app_nil_r. split; [reflexivity | constructor]. Qed.

Lemma runSteps_stepsSince c t0 steps fs w0 w :
  stepsSince w0 w -> stepsSince w0 (snd (runSteps c t0 steps fs w)).
Proof.
  apply (keeps_runSteps c (stepsSince w0) stepEvent); try (intros; exact I).
  - intros w1 ts H. exact H.
  - intros w1 e He (middle & Htr & Hall). exists (middle ++ [e]). cbn [trace].
    rewrite Htr, app_assoc. split; [reflexivity|].
    apply Forall_app. split; [exact Hall | constructor; [exact He | constructor]].
  - intros w1 k v H. exact H.
Qed.

(** The steps of a scenario without example tables return or leave the
    goroutine; they keep the suite. *)
Lemma scenarioSteps_plain_calm ctx sc bkg fs sub w2 :
  Msgs.Scenario_Examples sc = [] ->
  exists o w5,
    scenarioSteps ctx sc bkg fs sub w2 = (o, w5) /\
    suite w5 = suite w2 /\
    ((exists r, o = Done r) \/ o = Goexit) /\
    stepsSince w2 w5.
Proof.
  intros Hex. rewrite scenarioSteps_plain by exact Hex.
  pose proof (backgroundFirst_sat ctx bkg sub w2) as Hb. unfold sat in Hb.
  assert (Hb2 : stepsSince w2 (snd (backgroundFirst ctx bkg sub w2))).
  { unfold backgroundFirst. destruct bkg as [b|]; [|apply stepsSince_refl].
    pose proof (runSteps_stepsSince ctx sub (getBackgroundSteps b) zeroScenario w2 w2
                  (stepsSince_refl w2)) as H.
    unfold bind. destruct (runSteps ctx sub (getBackgroundSteps b) zeroScenario w2)
      as [[r| |v|] w3]; exact H. }
  unfold bind at 1.
  destruct (backgroundFirst ctx bkg sub w2) as [ob w3]. cbn [fst snd] in Hb, Hb2.
  destruct Hb as (Hs3 & _ & [-> | [-> _]]).
  - unfold bind. cbn [Clone fst snd].
    set (w4 := setHeap _ w3).
    pose proof (runSteps_sat (fresh (dom (heap w3))) sub (Msgs.Scenario_Steps sc) fs w4)
      as Hr. unfold sat in Hr.
    pose proof (runSteps_stepsSince (fresh (dom (heap w3))) sub (Msgs.Scenario_Steps sc)
                  fs w2 w4 Hb2) as Hsince.
    destruct (runSteps _ sub (Msgs.Scenario_Steps sc) fs w4) as [o w5].
    cbn [fst snd] in Hr, Hsince.
    destruct Hr as (Hs5 & _ & Hcases).
    exists o, w5. split; [reflexivity|].
    split; [rewrite Hs5; subst w4; cbn [suite setHeap]; exact Hs3|].
    split; [destruct Hcases as [H | [H _]]; auto | exact Hsince].
  - exists Goexit, w3. auto.
Qed.

(** X18: With hooks that return and handlers that end, by returning, by a
    panic or by [t.FailNow] or [t.SkipNow], and with hooks and handlers
    storing under keys of their own only (not under [TestingTKey{}] or
    [time.Time{}]): around a scenario without example tables the scenario
    hooks run once each, whichever of these ways its handlers end and also
    when a step does not resolve: the before-scenario hooks first and the
    after-scenario hooks last, in the order of their registration, and
    between them only calls of steps. *)
Theorem scenario_hooks_surround_the_steps (ctx : Context) (sc : Msgs.Scenario)
    (bkg : option Msgs.Background) (t0 : T) (w : World) :
  Msgs.Scenario_Examples sc = [] ->
  exists middle,
    trace (snd (runScenario ctx sc bkg t0 w))
    = trace w ++ hookCalls BeforeScenario (beforeScenario (options (suite w)))
        ++ middle ++ hookCalls AfterScenario (afterScenario (options (suite w))) /\
    Forall stepEvent middle.
Proof.
  intros Hex. unfold runScenario.
  set (sub := {| tid := length (tests w); parents := tid t0 :: parents t0 |}).
  set (w0 := setTests (tests w ++ [{| failed := false; skipped := false |}]) w).
  set (w1 := snd (Set_ ctx TestingTKey (VTestingT sub) w0)).
  destruct (callHooks_spec BeforeScenario (beforeScenario (options (suite w1))) ctx w1)
    as (w2 & H2 & Hs2 & _ & Htr2 & _).
  assert (H2' : callBeforeScenarios ctx w1 = (Done tt, w2)) by exact H2.
  destruct (scenarioSteps_plain_calm ctx sc bkg (Cucumber.FormatScenario sc) sub w2 Hex)
    as (o & w5 & Hinner & Hs5 & Hcases & (middle & Htr5 & Hmid)).
  destruct (callHooks_spec AfterScenario (afterScenario (options (suite w5))) ctx w5)
    as (w6 & H6 & _ & _ & Htr6 & _).
  assert (H6' : callAfterScenarios ctx w5 = (Done tt, w6)) by exact H6.
  assert (Hend : snd (scenarioBody ctx sc bkg (Cucumber.FormatScenario sc) sub w0)
                 = snd (Set_ ctx TestingTKey VNil w6)).
  { rewrite scenarioBody_eq.
    destruct Hcases as [[r ->] | ->].
    - rewrite (betweenScenarioHooks_Done_1 ctx sub _ w0 w2 r w5 w6 H2' Hinner H6').
      reflexivity.
    - rewrite (betweenScenarioHooks_Goexit_1 ctx sub _ w0 w2 w5 w6 H2' Hinner H6').
      reflexivity. }
  assert (Hworld : snd ((r <- tRun t0 (scenarioBody ctx sc bkg (Cucumber.FormatScenario sc)) ;;
                         ret (default (Cucumber.FormatScenario sc) r)) w)
                   = snd (scenarioBody ctx sc bkg (Cucumber.FormatScenario sc) sub w0)).
  { unfold bind, tRun. fold sub. fold w0.
    destruct (scenarioBody ctx sc bkg (Cucumber.FormatScenario sc) sub w0)
      as [[a| |v|] wz]; reflexivity. }
  exists middle. split; [|exact Hmid].
  rewrite Hworld, Hend.
  change (trace (snd (Set_ ctx TestingTKey VNil w6))) with (trace w6).
  rewrite Htr6, Htr5, Htr2, Hs5, Hs2. subst w1 w0.
  cbn [Set_ modify snd suite trace setHeap setTests].
  rewrite <- !app_assoc. reflexivity.
Qed.


(* ===================================================================== *)
(** * The options of a suite *)
(* ===================================================================== *)

(** [NewSuiteOptions]: the default configuration *)
Definition NewSuiteOptions : SuiteOptions :=
  {| featuresPaths := "features/*.feature"; ignoreTags := []; tags := [];
     beforeScenario := []; afterScenario := []; beforeStep := []; afterStep := [];
     runInParallel := false |}.

Definition RunInParallel (o : SuiteOptions) : SuiteOptions :=
  {| featuresPaths := featuresPaths o; ignoreTags := ignoreTags o; tags := tags o;
     beforeScenario := beforeScenario o; afterScenario := afterScenario o;
     beforeStep := beforeStep o; afterStep := afterStep o; runInParallel := true |}.

Definition WithFeaturesPath (path : string) (o : SuiteOptions) : SuiteOptions :=
  {| featuresPaths := path; ignoreTags := ignoreTags o; tags := tags o;
     beforeScenario := beforeScenario o; afterScenario := afterScenario o;
     beforeStep := beforeStep o; afterStep := afterStep o;
     runInParallel := runInParallel o |}.

Definition WithTags (tgs : list string) (o : SuiteOptions) : SuiteOptions :=
  {| featuresPaths := featuresPaths o; ignoreTags := ignoreTags o; tags := tgs;
     beforeScenario := beforeScenario o; afterScenario := afterScenario o;
     beforeStep := beforeStep o; afterStep := afterStep o;
     runInParallel := runInParallel o |}.

Definition WithBeforeScenario (h : Hook) (o : SuiteOptions) : SuiteOptions :=
  {| featuresPaths := featuresPaths o; ignoreTags := ignoreTags o; tags := tags o;
     beforeScenario := beforeScenario o ++ [h]; afterScenario := afterScenario o;
     beforeStep := beforeStep o; afterStep := afterStep o;
     runInParallel := runInParallel o |}.

Definition WithAfterScenario (h : Hook) (o : SuiteOptions) : SuiteOptions :=
  {| featuresPaths := featuresPaths o; ignoreTags := ignoreTags o; tags := tags o;
     beforeScenario := beforeScenario o; afterScenario := afterScenario o ++ [h];
     beforeStep := beforeStep o; afterStep := afterStep o;
     runInParallel := runInParallel o |}.

Definition WithBeforeStep (h : Hook) (o : SuiteOptions) : SuiteOptions :=
  {| featuresPaths := featuresPaths o; ignoreTags := ignoreTags o; tags := tags o;
     beforeScenario := beforeScenario o; afterScenario := afterScenario o;
     beforeStep := beforeStep o ++ [h]; afterStep := afterStep o;
     runInParallel := runInParallel o |}.

Definition WithAfterStep (h : Hook) (o : SuiteOptions) : SuiteOptions :=
  {| featuresPaths := featuresPaths o; ignoreTags := ignoreTags o; tags := tags o;
     beforeScenario := beforeScenario o; afterScenario := afterScenario o;
     beforeStep := beforeStep o; afterStep := afterStep o ++ [h];
     runInParallel := runInParallel o |}.

Definition WithIgnoredTags (tgs : list string) (o : SuiteOptions) : SuiteOptions :=
  {| featuresPaths := featuresPaths o; ignoreTags := tgs; tags := tags o;
     beforeScenario := beforeScenario o; afterScenario := afterScenario o;
     beforeStep := beforeStep o; afterStep := afterStep o;
     runInParallel := runInParallel o |}.

(** The loop of [NewSuite] over its option closures *)
Definition configure (optionClosures : list (SuiteOptions -> SuiteOptions)) : SuiteOptions :=
  fold_left (fun o closure => closure o) optionClosures NewSuiteOptions.

(** The fields of [SuiteOptions] are not exported: outside the package a
    closure is made by one of the eight option functions. *)
Inductive OptionCall :=
| CallRunInParallel
| CallWithFeaturesPath (path : string)
| CallWithTags (tgs : list string)
| CallWithBeforeScenario (h : Hook)
| CallWithAfterScenario (h : Hook)
| CallWithBeforeStep (h : Hook)
| CallWithAfterStep (h : Hook)
| CallWithIgnoredTags (tgs : list string).

Definition closure (call : OptionCall) : SuiteOptions -> SuiteOptions :=
  match call with
  | CallRunInParallel => RunInParallel
  | CallWithFeaturesPath path => WithFeaturesPath path
  | CallWithTags tgs => WithTags tgs
  | CallWithBeforeScenario h => WithBeforeScenario h
  | CallWithAfterScenario h => WithAfterScenario h
  | CallWithBeforeStep h => WithBeforeStep h
  | CallWithAfterStep h => WithAfterStep h
  | CallWithIgnoredTags tgs => WithIgnoredTags tgs
  end.

(** What the calls pass for one of the options, in the order of the calls *)
Definition given {A} (pick : OptionCall -> option A) (calls : list OptionCall) : list A :=
  flat_map (fun call => match pick call with Some a => [a] | None => [] end) calls.

Lemma given_snoc {A} (pick : OptionCall -> option A) calls call :
  given pick (calls ++ [call])
  = given pick calls ++ match pick call with Some a => [a] | None => [] end.
Proof. unfold given. rewrite flat_map_app. cbn [flat_map]. rewrite app_nil_r. reflexivity. Qed.

Lemma configure_snoc calls call :
  configure (map closure (calls ++ [call])) = closure call (configure (map closure calls)).
Proof. unfold configure. rewrite map_app, fold_left_app. reflexivity. Qed.

(** X23: The options are applied in the order they are passed to [NewSuite]:
    the hooks of each kind add up, in this order, while for the tags, the
    ignored tags and the path of the features the last call decides, the
    default standing when there is none. *)
Theorem options_apply_in_order (calls : list OptionCall) :
  let o := configure (map closure calls) in
  beforeScenario o
  = given (fun c => match c with CallWithBeforeScenario h => Some h | _ => None end) calls /\
  afterScenario o
  = given (fun c => match c with CallWithAfterScenario h => Some h | _ => None end) calls /\
  beforeStep o
  = given (fun c => match c with CallWithBeforeStep h => Some h | _ => None end) calls /\
  afterStep o
  = given (fun c => match c with CallWithAfterStep h => Some h | _ => None end) calls /\
  tags o
  = List.last (given (fun c => match c with CallWithTags l => Some l | _ => None end) calls) [] /\
  ignoreTags o
  = List.last (given (fun c => match c with CallWithIgnoredTags l => Some l | _ => None end)
            calls) [] /\
  featuresPaths o
  = List.last (given (fun c => match c with CallWithFeaturesPath p => Some p | _ => None end)
            calls) "features/*.feature" /\
  runInParallel o
  = existsb (fun c => match c with CallRunInParallel => true | _ => false end) calls.
Proof.
  cbv zeta. induction calls as [|call calls IH] using rev_ind.
  - repeat split.
  - destruct IH as (H1 & H2 & H3 & H4 & H5 & H6 & H7 & H8).
    rewrite configure_snoc, !given_snoc, existsb_app.
    destruct call; cbn [closure RunInParallel WithFeaturesPath WithTags WithBeforeScenario
                          WithAfterScenario WithBeforeStep WithAfterStep WithIgnoredTags
                          beforeScenario afterScenario beforeStep afterStep tags ignoreTags
                          featuresPaths runInParallel existsb];
      rewrite ?app_nil_r, ?List.last_last, ?orb_false_r, ?orb_true_r;
      repeat split; congruence.
Qed.

End Engine.

Notation "x <- c ;; k" := (bind c (fun x => k))
  (at level 100, c at next level, right associativity) : go_scope.
Notation "c ;; k" := (bind c (fun _ => k))
  (at level 100, right associativity) : go_scope.

(* ===================================================================== *)
(** * Instances of the two libraries, to evaluate the engine *)
(* ===================================================================== *)

Lemma RE2_FindAll_of_match (re : RE2.prog) (text : string) :
  RE2.MatchString re text = true -> RE2.FindAll re text <> [].
Proof.
  unfold RE2.MatchString, RE2.FindAll. intros Hm.
  generalize (S (Strings.len text)). intros fuel.
  cbn [RE2.allMatches].
  assert (Hd : RE2.dropBytes 0 text = text) by (destruct text; reflexivity).
  rewrite Hd.
  destruct (RE2.search (RE2.root re) text 0) as [[[b e] cs]|] eqn:Hs;
    [|discriminate].
  replace (Strings.len text <? 0) with false
    by (symmetry; apply Nat.ltb_ge; lia).
  rewrite bool_decide_eq_false_2 by discriminate.
  rewrite andb_false_r. cbn. discriminate.
Qed.

Lemma RE2_FindSubmatch_of_match (re : RE2.prog) (text : string) :
  RE2.MatchString re text = true ->
  exists m caps, RE2.FindSubmatch re text = Some (m :: caps).
Proof.
  unfold RE2.MatchString, RE2.FindSubmatch. intros Hm.
  destruct (RE2.search (RE2.root re) text 0) as [[[b e] cs]|]; [|discriminate].
  eauto.
Qed.

#[global] Instance RE2_lib : RegexpLib RE2.prog :=
  {| Compile := RE2.Compile;
     MatchString := RE2.MatchString;
     FindAll := RE2.FindAll;
     FindSubmatch := RE2.FindSubmatch;
     FindAll_of_match := RE2_FindAll_of_match;
     FindSubmatch_of_match := RE2_FindSubmatch_of_match |}.

(** [Strconv] implements [FloatLib]: [float64] is binary64 and [float32] is
    binary32. *)
Lemma atof_syntax flt s f all :
  Strconv.atof flt s = (f, all, Some ErrSyntax) -> f = SpecFloat.S754_zero false.
Proof.
  unfold Strconv.atof.
  destruct (Strconv.special s) as [[val n]|]; [discriminate|].
  destruct (Strconv.readFloat s) as [r|]; [|congruence].
  destruct (Strconv.isInf _); discriminate.
Qed.

Lemma atof_range flt s f all :
  Strconv.atof flt s = (f, all, Some ErrRange) -> Strconv.isInf f = true.
Proof.
  unfold Strconv.atof.
  destruct (Strconv.special s) as [[val n]|]; [discriminate|].
  destruct (Strconv.readFloat s) as [r|]; [|discriminate].
  destruct (Strconv.isInf _) eqn:E; [|discriminate].
  intros [= <- _]. exact E.
Qed.

Lemma Strconv_ParseFloat_syntax s bitSize :
  snd (Strconv.ParseFloat s bitSize) = Some ErrSyntax ->
  fst (Strconv.ParseFloat s bitSize) = SpecFloat.S754_zero false.
Proof.
  unfold Strconv.ParseFloat, Strconv.parseFloatPrefix.
  destruct (bitSize =? 32)%Z.
  - destruct (Strconv.atof Strconv.float32info s) as [[f all] err] eqn:E.
    destruct all, err as [[|]|]; cbn [fst snd]; try discriminate; try reflexivity;
      intros _; rewrite (atof_syntax _ _ _ _ E); reflexivity.
  - destruct (Strconv.atof Strconv.float64info s) as [[f all] err] eqn:E.
    destruct all, err as [[|]|]; cbn [fst snd]; try discriminate; try reflexivity;
      intros _; exact (atof_syntax _ _ _ _ E).
Qed.

Lemma Strconv_ParseFloat_range s bitSize :
  snd (Strconv.ParseFloat s bitSize) = Some ErrRange ->
  Strconv.isInf (fst (Strconv.ParseFloat s bitSize)) = true.
Proof.
  unfold Strconv.ParseFloat, Strconv.parseFloatPrefix.
  destruct (bitSize =? 32)%Z.
  - destruct (Strconv.atof Strconv.float32info s) as [[f all] err] eqn:E.
    destruct all, err as [[|]|]; cbn [fst snd]; try discriminate.
    intros _. pose proof (atof_range _ _ _ _ E) as Hinf.
    destruct f; try discriminate. reflexivity.
  - destruct (Strconv.atof Strconv.float64info s) as [[f all] err] eqn:E.
    destruct all, err as [[|]|]; cbn [fst snd]; try discriminate.
    intros _. exact (atof_range _ _ _ _ E).
Qed.

Lemma Strconv_toFloat32_inf (x : Strconv.float64) :
  Strconv.isInf x = true -> Strconv.isInf (Strconv.toFloat32 x) = true.
Proof. destruct x; try discriminate. reflexivity. Qed.

#[global] Instance Strconv_lib : FloatLib Strconv.float64 Strconv.float32 :=
  {| ParseFloat := Strconv.ParseFloat;
     toFloat32 := Strconv.toFloat32;
     zero64 := SpecFloat.S754_zero false;
     zero32 := SpecFloat.S754_zero false;
     isInf64 := Strconv.isInf;
     isInf32 := Strconv.isInf;
     ParseFloat_syntax := Strconv_ParseFloat_syntax;
     ParseFloat_range := Strconv_ParseFloat_range;
     toFloat32_zero := eq_refl;
     toFloat32_inf := Strconv_toFloat32_inf;
     zero64_finite := eq_refl;
     zero32_finite := eq_refl |}.

(* ===================================================================== *)
(** * Suites and documents used to evaluate the engine *)
(* ===================================================================== *)

(** The engine over [RE2] and [Strconv] *)
Abbreviation GoStepFunc := (@StepFunc Strconv.float64 Strconv.float32).
Abbreviation GoSuite := (@Suite RE2.prog Strconv.float64 Strconv.float32).
Abbreviation GoWorld := (@World RE2.prog Strconv.float64 Strconv.float32).

Module Demo.

(** [NewSuiteOptions] *)
Definition NewSuiteOptions : SuiteOptions :=
  {| featuresPaths := "features/*.feature"; ignoreTags := []; tags := [];
     beforeScenario := []; afterScenario := []; beforeStep := [];
     afterStep := []; runInParallel := false |}.

(** A step function that only returns. *)
Definition quiet (name : string) (params : list gotype) : GoStepFunc :=
  {| fname := name; fin := TStepTest :: TContext :: params;
     fbody := fun _ _ => {| marksFailed := false; sets := []; ending := Returns |} |}.

(** The world after [NewSuite] and the registrations [m]. *)
Definition after (options : SuiteOptions) (m : M unit) : GoWorld :=
  snd ((NewSuite ;; m) (emptyWorld options)).

Definition wildcardFirst : GoSuite :=
  suite (after NewSuiteOptions
           (AddStep "a (.*) number" (quiet "wildcard" [TString]) ;;
            AddStep "a 5 number" (quiet "literal" []))).

Definition literalFirst : GoSuite :=
  suite (after NewSuiteOptions
           (AddStep "a 5 number" (quiet "literal" []) ;;
            AddStep "a (.*) number" (quiet "wildcard" [TString]))).

End Demo.


Module Samples.

Definition named (kind name : string) : Hook :=
  {| hookName := name; hookSets := fun _ => [(kind, VStr name)] |}.

(** Options with the tag [@ignore] ignored and one hook of each kind, two
    for [afterStep]. *)
Definition options : SuiteOptions :=
  {| featuresPaths := "features/*.feature";
     ignoreTags := ["@ignore"]; tags := [];
     beforeScenario := [named "scenario" "open"];
     afterScenario := [named "scenario" "close"];
     beforeStep := [named "step" "before"];
     afterStep := [named "step" "after 1"; named "step" "after 2"];
     runInParallel := false |}.

(** A step function that panics. *)
Definition exploding : GoStepFunc :=
  {| fname := "explode"; fin := [TStepTest; TContext];
     fbody := fun _ _ => {| marksFailed := false; sets := [];
                            ending := Panics "boom" |} |}.

Definition world : GoWorld :=
  Demo.after options
    (AddStep "add (\d+) and (\d+)" (Demo.quiet "add" [TInt; TInt]) ;;
     AddStep "it explodes" exploding ;;
     AddStep "I have {int} cats" (Demo.quiet "cats" [TInt])).

Definition step (text : string) : Msgs.Step :=
  {| Msgs.Step_Location := 3; Msgs.Step_Keyword := "Given ";
     Msgs.Step_Text := text; Msgs.Step_Argument := None |}.

Definition scenario (name : string) (tgs : list string) (steps : list Msgs.Step)
    (examples : list Msgs.Examples) : Msgs.Scenario :=
  {| Msgs.Scenario_Tags :=
       map (fun n => {| Msgs.Tag_Name := n; Msgs.Tag_Line := 2 |}) tgs;
     Msgs.Scenario_Id := name; Msgs.Scenario_Keyword := "Scenario";
     Msgs.Scenario_Name := name; Msgs.Scenario_Description := EmptyString;
     Msgs.Scenario_Steps := steps; Msgs.Scenario_Examples := examples |}.

Definition feature (tgs : list string) (children : list Msgs.FeatureChild)
    : Msgs.Feature :=
  {| Msgs.Feature_Tags :=
       map (fun n => {| Msgs.Tag_Name := n; Msgs.Tag_Line := 1 |}) tgs;
     Msgs.Feature_Location := 1; Msgs.Feature_Keyword := "Feature";
     Msgs.Feature_Name := "calculator"; Msgs.Feature_Description := EmptyString;
     Msgs.Feature_Children := children |}.

Definition root : T := {| tid := 0; parents := [] |}.

Definition ignoredScenario : Msgs.Scenario :=
  scenario "ignored" ["@ignore"] [step "add 1 and 2"] [].

(** A feature with an ignored tag and one scenario of one step *)
Definition ignoredFeature : Msgs.Feature :=
  feature ["@ignore"] [Msgs.Child_Scenario (scenario "sum" [] [step "add 1 and 2"] [])].

(** The same with a background in front of the scenario *)
Definition ignoredFeatureWithBackground : Msgs.Feature :=
  feature ["@ignore"]
    [Msgs.Child_Background {| Msgs.Background_Steps := [step "add 1 and 2"] |};
     Msgs.Child_Scenario (scenario "sum" [] [step "add 1 and 2"] [])].

(** The world in which the run of a feature starts: the suite of [world]
    and one context, [ctx]. *)
Definition ctx : Context := fresh (dom (heap world)).

Definition started : GoWorld := snd (NewContext world).

(** A scenario whose second step has no definition *)
Definition gapScenario : Msgs.Scenario :=
  scenario "gap" []
    [step "add 1 and 2"; step "nothing registered"; step "add 3 and 4"] [].

Definition table (rows : list (list string)) : Msgs.Examples :=
  {| Msgs.TableHeader := ["a"; "b"]; Msgs.TableBody := rows |}.

(** An outline of one step and one row *)
Definition outline (row : list string) : Msgs.Scenario :=
  scenario "sums" [] [step "add <a> and <b>"] [table [row]].

End Samples.

(* ===================================================================== *)
(** * The lookup on two patterns that tie *)
(* ===================================================================== *)

(** The wildcard pattern and the literal pattern both match [a 5 number]
    once; registered in this order, the wildcard is the earliest of the tie. *)
Lemma findStepDef_earliest_among_ties_witness :
  exists sd,
    steps Demo.wildcardFirst !! 0 = Some sd /\
    Compile "a (.*) number" = Some (expr sd) /\
    findStepDef Demo.wildcardFirst "a 5 number" = Some sd.
Proof.
  destruct (steps Demo.wildcardFirst !! 0) as [sd|] eqn:H0;
    [|vm_compute in H0; discriminate].
  exists sd. split; [reflexivity|].
  vm_compute in H0. injection H0 as <-.
  split; [vm_compute; reflexivity|].
  apply (findStepDef_earliest_among_ties Demo.wildcardFirst "a 5 number" 0).
  - vm_compute. reflexivity.
  - vm_compute. reflexivity.
  - intros [|[|[|j]]] sd' Hj Hm; vm_compute in Hj; try discriminate;
      injection Hj as <-; vm_compute; lia.
  - intros j sd' Hlt. lia.
Defined.

(** C1, as stated, fails: with the wildcard pattern registered before the
    literal one, the step text [a 5 number] resolves to the wildcard
    pattern and not to the literal pattern. Both patterns match the text
    once, and the loop only replaces its choice on a greater count. *)
Lemma findStepDef_literal_not_preferred :
  ~ (forall s : GoSuite,
       (s = Demo.wildcardFirst \/ s = Demo.literalFirst) ->
       exists sd,
         findStepDef s "a 5 number" = Some sd /\
         Compile "a 5 number" = Some (expr sd)).
Proof.
  intros H. destruct (H Demo.wildcardFirst (or_introl eq_refl)) as (sd & Hf & Hc).
  vm_compute in Hf. injection Hf as <-.
  vm_compute in Hc. discriminate.
Qed.

(** C1, amended: [findStepDef] selects a registered definition whose pattern
    matches the text and whose number of non-overlapping matches is the
    greatest among the registered patterns that match, and it fails exactly
    when no registered pattern matches. The wildcard pattern and the
    literal pattern of [Demo] both match the text "a 5 number" once, and the
    text resolves to the one of the two that was registered first. *)
Theorem findStepDef_greatest_count :
  (forall (Regexp float64 float32 : Type) (RL : RegexpLib Regexp)
          (s : @Suite Regexp float64 float32) (text : string),
     match findStepDef s text with
     | Some sd =>
         In sd (steps s) /\ matches text sd = true /\
         (forall sd', In sd' (steps s) -> matches text sd' = true ->
                      matchCount text sd' <= matchCount text sd)
     | None => forall sd, In sd (steps s) -> matches text sd = false
     end) /\
  (exists w l,
     steps Demo.wildcardFirst = [w; l] /\
     Compile "a (.*) number" = Some (expr w) /\
     Compile "a 5 number" = Some (expr l) /\
     matchCount "a 5 number" w = 1 /\
     matchCount "a 5 number" l = 1 /\
     findStepDef Demo.wildcardFirst "a 5 number" = Some w) /\
  (exists l w,
     steps Demo.literalFirst = [l; w] /\
     Compile "a 5 number" = Some (expr l) /\
     Compile "a (.*) number" = Some (expr w) /\
     findStepDef Demo.literalFirst "a 5 number" = Some l).
Proof.
  split; [|split].
  - intros Regexp float64 float32 RL s text.
    destruct (findStepDef s text) as [sd|] eqn:Hf.
    + apply findStepDef_Some in Hf as (i & Hi & Hm & Hmax & _).
      split; [|split; [exact Hm|]].
      * apply list_elem_of_In. eapply list_elem_of_lookup_2. exact Hi.
      * intros sd' Hin Hm'. apply list_elem_of_In in Hin.
        apply list_elem_of_lookup_1 in Hin as [j Hj]. eauto.
    + intros sd Hin. apply list_elem_of_In in Hin.
      apply list_elem_of_lookup_1 in Hin as [j Hj].
      exact (proj1 (findStepDef_None s text) Hf _ _ Hj).
  - destruct (steps Demo.wildcardFirst) as [|w [|l [|]]] eqn:Hs;
      try (vm_compute in Hs; discriminate).
    exists w, l. split; [reflexivity|].
    vm_compute in Hs. injection Hs as <- <-.
    repeat split; vm_compute; reflexivity.
  - destruct (steps Demo.literalFirst) as [|l [|w [|]]] eqn:Hs;
      try (vm_compute in Hs; discriminate).
    exists l, w. split; [reflexivity|].
    vm_compute in Hs. injection Hs as <- <-.
    repeat split; vm_compute; reflexivity.
Qed.

(* ===================================================================== *)
(** * Coercion of captures that are no numbers *)
(* ===================================================================== *)


(** The range error of [strconv.Atoi] comes at the digit that overflows:
    bytes after it are not read, so the capture need not be a number. *)
Example Atoi_overflow_before_a_letter :
  Strconv.Atoi "99999999999999999999x" = (Strconv.maxInt, Some ErrRange) /\
  Strconv.Atoi "-99999999999999999999x" = (Strconv.minInt, Some ErrRange) /\
  Strconv.Atoi "9223372036854775808x" = (0%Z, Some ErrSyntax) /\
  Strconv.Atoi "9223372036854775808" = (Strconv.maxInt, Some ErrRange) /\
  Strconv.Atoi "-9223372036854775808" = (Strconv.minInt, None).
Proof. repeat split; vm_compute; reflexivity. Qed.

(** [ParseFloat(capture, 32)] rounds to the nearest [float32], also for a
    [float64] parameter. *)
Example ParseFloat_32_rounds_to_float32 :
  paramType (float64 := Strconv.float64) (float32 := Strconv.float32) "0.1" TFloat64
  = GFloat64 (SpecFloat.S754_finite false 7205759511166976 (-56)) /\
  fst (Strconv.ParseFloat "0.1" 64) = SpecFloat.S754_finite false 7205759403792794 (-56) /\
  Strconv.ParseFloat "abc" 32 = (SpecFloat.S754_zero false, Some ErrSyntax) /\
  Strconv.ParseFloat "1e39x" 32 = (SpecFloat.S754_zero false, Some ErrSyntax) /\
  Strconv.ParseFloat "-1e39" 32 = (SpecFloat.S754_infinity true, Some ErrRange) /\
  Strconv.ParseFloat "1e-60" 32 = (SpecFloat.S754_zero false, None).
Proof. repeat split; vm_compute; reflexivity. Qed.


(* ===================================================================== *)
(** * The outline of two rows *)
(* ===================================================================== *)

(** In [Samples.world] the pattern "add (\d+) and (\d+)" is registered, and
    it matches both "add 1 and 2" and "add 3 and 4": the outline expands to
    these two steps, and both resolve. *)
Lemma outline_expands_rows_in_order_witness :
  exists w' : GoWorld,
    getOutlineStep [Samples.step "add <a> and <b>"]
      [{| Msgs.TableHeader := ["a"; "b"];
          Msgs.TableBody := [["1"; "2"]; ["3"; "4"]] |}] Samples.world
    = (Done [substituted (Samples.step "add <a> and <b>") "add 1 and 2";
             substituted (Samples.step "add <a> and <b>") "add 3 and 4"], w') /\
    (exists d, findStepDef (suite w') "add 1 and 2" = Some d /\
               In d (steps (suite w')) /\
               MatchString (expr d) "add 1 and 2" = true) /\
    (exists d, findStepDef (suite w') "add 3 and 4" = Some d /\
               In d (steps (suite w')) /\
               MatchString (expr d) "add 3 and 4" = true).
Proof.
  destruct (steps (suite Samples.world)) as [|def rest] eqn:Hs;
    [vm_compute in Hs; discriminate|].
  apply (proj1 outline_expands_rows_in_order Samples.world
           (Samples.step "add <a> and <b>") def def).
  - reflexivity.
  - rewrite Hs. left. reflexivity.
  - vm_compute in Hs. injection Hs as <- _. vm_compute. reflexivity.
  - rewrite Hs. left. reflexivity.
  - vm_compute in Hs. injection Hs as <- _. vm_compute. reflexivity.
Defined.

(** The same outline in a suite without definitions: no pattern matches
    the text of the first row, the row is left out and the expansion
    panics. *)
Example outline_without_definitions_panics :
  exists v (w' : GoWorld),
    getOutlineStep [Samples.step "add <a> and <b>"]
      [{| Msgs.TableHeader := ["a"; "b"];
          Msgs.TableBody := [["1"; "2"]; ["3"; "4"]] |}]
      (Demo.after Demo.NewSuiteOptions (ret tt))
    = (Panic v, w').
Proof. do 2 eexists. vm_compute. reflexivity. Qed.

(* ===================================================================== *)
(** * Skipped scenarios and ignored features *)
(* ===================================================================== *)


(** C7, the defect: the steps of the scenarios of an ignored feature are
    recorded with the empty status and not with "skipped", which is the
    status that the skip of a single scenario records. Nothing of the
    feature runs. *)
Theorem ignored_feature_records_empty_status :
  exists ft sc st w',
    runFeature Samples.ignoredFeature Samples.world = (Done ft, w') /\
    Cucumber.Elements ft = [sc] /\
    Cucumber.Steps sc = [st] /\
    Cucumber.Step_Name st = "add 1 and 2" /\
    Cucumber.RunStatus (Cucumber.StepResult st) = EmptyString /\
    Cucumber.RunStatus (Cucumber.StepResult st) <> "skipped" /\
    trace w' = trace Samples.world /\
    tests w' = tests Samples.world.
Proof.
  do 4 eexists. split; [vm_compute; reflexivity|].
  repeat split. discriminate.
Qed.

(** The same feature with a background: formatting the background as a
    scenario dereferences a nil pointer, and [runFeature] panics. *)
Lemma ignored_feature_with_background_panics :
  exists v,
    fst (runFeature Samples.ignoredFeatureWithBackground Samples.world) = Panic v.
Proof. eexists. vm_compute. reflexivity. Qed.

(* ===================================================================== *)
(** * A clone and its original *)
(* ===================================================================== *)

(** A context with two keys is cloned; whatever is set in the clone, the
    two keys of the original keep their values. *)
Lemma clone_is_independent_witness :
  let w : GoWorld :=
    snd ((ctx <- NewContext ;;
          Set_ ctx (UserKey "cats") (VInt 3) ;;
          Set_ ctx TimeKey VTime) Samples.world) in
  heap w !! 0 = Some (<[TimeKey := VTime]> (<[UserKey "cats" := VInt 3]> ∅)) /\
  exists c w1,
    Clone 0 w = (Done c, w1) /\
    c <> 0 /\
    content c w1 = content 0 w /\
    content 0 w1 = content 0 w /\
    forall kvs : list (key * value),
      fst (setAll c kvs w1) = Done tt /\
      content 0 (snd (setAll c kvs w1)) = content 0 w /\
      forall k, content 0 (snd (setAll c kvs w1)) !! k = content 0 w !! k.
Proof.
  intros w. split; [vm_compute; reflexivity|].
  apply (clone_is_independent 0 w).
  vm_compute. eauto.
Defined.

(* ===================================================================== *)
(** * Patterns that do not compile *)
(* ===================================================================== *)


(** The candidates of "I have {int} cats" in the suite of [NewSuite], and the
    registration of both for one handler. *)
Example expansion_of_int :
  applyParameterTypes (suite (Demo.after Demo.NewSuiteOptions (ret tt)))
    "I have {int} cats"
  = ["I have {int} cats"; "I have (\d) cats"] /\
  map (fun d => fname (f d))
      (steps (suite (Demo.after Demo.NewSuiteOptions
                       (AddStep "I have {int} cats" (Demo.quiet "cats" [TInt])))))
  = ["cats"; "cats"].
Proof. split; vm_compute; reflexivity. Qed.

(* ===================================================================== *)
(** * A handler that panics, and a step without a definition *)
(* ===================================================================== *)


(** What the run of the two steps leaves: two records, failed and passed,
    and the calls of both steps. *)
Example panic_then_next_step :
  exists record w',
    runSteps Samples.ctx Samples.root
      [Samples.step "it explodes"; Samples.step "add 1 and 2"] zeroScenario Samples.started
    = (Done record, w') /\
    map (fun st => (Cucumber.Step_Name st, Cucumber.RunStatus (Cucumber.StepResult st)))
        (Cucumber.Steps record)
    = [("it explodes", "failed"); ("add 1 and 2", "passed")] /\
    trace w'
    = [HookCall BeforeStep "before";
       HandlerCall "explode" [GTesting {| tid := 1; parents := [0] |}; GContext 0];
       HookCall AfterStep "after 1"; HookCall AfterStep "after 2";
       HookCall BeforeStep "before";
       HandlerCall "add" [GTesting {| tid := 2; parents := [0] |}; GContext 0;
                          GInt 1; GInt 2];
       HookCall AfterStep "after 1"; HookCall AfterStep "after 2"].
Proof. do 2 eexists. split; [vm_compute; reflexivity|]. split; reflexivity. Qed.

(** The scenario [gapScenario]: "nothing registered" resolves to no
    definition. The scenario ends there, marked failed, and its run is the
    run of the scenario without "add 3 and 4". *)
Lemma unresolved_step_ends_scenario_witness :
  exists w',
    runScenario Samples.ctx Samples.gapScenario None Samples.root Samples.started
    = (Done (Cucumber.FormatScenario Samples.gapScenario), w') /\
    isFailed (length (tests Samples.started)) w' /\
    runScenario Samples.ctx
      (withSteps Samples.gapScenario
         [Samples.step "add 1 and 2"; Samples.step "nothing registered"])
      None Samples.root Samples.started
    = (Done (Cucumber.FormatScenario Samples.gapScenario), w') /\
    suite w' = suite Samples.started.
Proof.
  apply (unresolved_step_ends_scenario Samples.ctx Samples.gapScenario None Samples.root
           Samples.started
           (withSteps Samples.gapScenario
              ([Samples.step "add 1 and 2"] ++ [Samples.step "nothing registered"]))
           None).
  apply (Unresolved_in_scenario _ _ _ [Samples.step "add 1 and 2"]
           (Samples.step "nothing registered") [Samples.step "add 3 and 4"]).
  - reflexivity.
  - reflexivity.
  - vm_compute. reflexivity.
Defined.

(** The steps of an outline are resolved after the values of a row have
    been put in: the text "add <a> and <b>" itself resolves to no
    definition, the step that runs is that of the row, "add 1 and 2". *)
Example outline_steps_resolve_by_row :
  exists record w',
    findStepDef (suite Samples.started) "add <a> and <b>" = None /\
    runScenario Samples.ctx (Samples.outline ["1"; "2"]) None Samples.root Samples.started
    = (Done record, w') /\
    ~ isFailed (length (tests Samples.started)) w' /\
    map (fun s => (Cucumber.Step_Name s, Cucumber.RunStatus (Cucumber.StepResult s)))
        (Cucumber.Steps record)
    = [("add 1 and 2", "passed")].
Proof.
  do 2 eexists.
  split; [vm_compute; reflexivity|].
  split; [vm_compute; reflexivity|].
  split; [|reflexivity].
  unfold isFailed. vm_compute. discriminate.
Qed.

(** The feature of two scenarios, the first with the steps [steps] and the
    tables [examples], the second with the one step "add 1 and 2" *)
Definition twoScenarios (steps : list Msgs.Step) (examples : list Msgs.Examples)
    : Msgs.Feature :=
  Samples.feature []
    [Msgs.Child_Scenario (Samples.scenario "first" [] steps examples);
     Msgs.Child_Scenario (Samples.scenario "next" [] [Samples.step "add 1 and 2"] [])].

(** C6, where the code departs from it: an outline whose row gives a text
    without a definition, "add x and 2". [stepsFromExamples] leaves the row
    out and [getOutlineStep] indexes a step that is not there. The panic is
    not recovered in the goroutine of the scenario: the run ends, and the
    scenario that follows in the feature is not run. The same text as a step of a scenario without tables ends that
    scenario only: its test is marked failed and the scenario that follows
    is run. *)
Lemma outline_row_without_definition_ends_the_run :
  findStepDef (suite Samples.started) "add x and 2" = None /\
  (exists w',
      runScenario Samples.ctx (Samples.outline ["x"; "2"]) None Samples.root Samples.started
      = (Crash, w') /\
      trace w' = [HookCall BeforeScenario "open"; HookCall AfterScenario "close"]) /\
  (exists w',
      runFeature (twoScenarios [Samples.step "add <a> and <b>"] [Samples.table [["x"; "2"]]])
        Samples.world
      = (Crash, w') /\
      trace w' = [HookCall BeforeScenario "open"; HookCall AfterScenario "close"]) /\
  (exists record w',
      runFeature (twoScenarios [Samples.step "add x and 2"] []) Samples.world
      = (Done record, w') /\
      isFailed 2 w' /\
      map (fun sc => (Cucumber.Scenario_Name sc, map Cucumber.Step_Name (Cucumber.Steps sc)))
          (Cucumber.Elements record)
      = [("first", []); ("next", ["add 1 and 2"])]).
Proof.
  split; [vm_compute; reflexivity|].
  split; [eexists; split; [vm_compute; reflexivity | reflexivity]|].
  split.
  - eexists. split; [vm_compute; reflexivity | reflexivity].
  - do 2 eexists. split; [vm_compute; reflexivity|]. split; [|reflexivity].
    unfold isFailed. vm_compute. reflexivity.
Qed.

(* ===================================================================== *)
(** * More cases, evaluated *)
(* ===================================================================== *)

Module Cases.

(** A handler that stores its argument under the key [cats] *)
Definition store : GoStepFunc :=
  {| fname := "store"; fin := [TStepTest; TContext; TInt];
     fbody := fun args _ =>
       {| marksFailed := false;
          sets := [("cats", match args with
                            | [_; _; GInt z] => VInt z
                            | _ => VNil
                            end)];
          ending := Returns |} |}.

(** A handler that reports an error and returns *)
Definition complain : GoStepFunc :=
  {| fname := "complain"; fin := [TStepTest; TContext];
     fbody := fun _ _ => {| marksFailed := true; sets := []; ending := Returns |} |}.

(** A handler that calls [t.FailNow] *)
Definition giveUp : GoStepFunc :=
  {| fname := "giveUp"; fin := [TStepTest; TContext];
     fbody := fun _ _ => {| marksFailed := false; sets := []; ending := FailsNow |} |}.

(** The pattern of [dogs] has one group and the handler two parameters
    for captures; the parameter of [flag] is of a kind that [paramType]
    does not convert to. *)
Definition world : GoWorld :=
  Demo.after Samples.options
    (AddStep "I have (\d+) cats" store ;;
     AddStep "it complains" complain ;;
     AddStep "it gives up" giveUp ;;
     AddStep "I see (\d+) dogs" (Demo.quiet "dogs" [TInt; TInt]) ;;
     AddStep "it is (\w+)" (Demo.quiet "flag" [TOther])).

Definition ctx : Context := fresh (dom (heap world)).

Definition started : GoWorld := snd (NewContext world).

(** A scenario of [Samples.world] with a background *)
Definition scenario : Msgs.Scenario :=
  Samples.scenario "sum" [] [Samples.step "add 1 and 2"; Samples.step "it explodes"] [].

Definition background : Msgs.Background :=
  {| Msgs.Background_Steps := [Samples.step "add 3 and 4"] |}.

Definition feature : Msgs.Feature :=
  Samples.feature []
    [Msgs.Child_Background background;
     Msgs.Child_Scenario scenario;
     Msgs.Child_Scenario Samples.ignoredScenario;
     Msgs.Child_Scenario Samples.gapScenario].

End Cases.

Lemma AddRegexStep_registers_witness :
  exists re,
    Compile "it rains" = Some re /\
    exists w',
      AddRegexStep re (Demo.quiet "rain" []) Samples.world = (Done tt, w') /\
      steps (suite w')
      = steps (suite Samples.world) ++ [{| expr := re; f := Demo.quiet "rain" [] |}] /\
      hasStepErrors (suite w') = hasStepErrors (suite Samples.world) /\
      tests w' = tests Samples.world /\
      forall text, MatchString re text = true -> findStepDef (suite w') text <> None.
Proof.
  destruct (Compile "it rains") as [re|] eqn:Hre; [|vm_compute in Hre; discriminate].
  exists re. split; [reflexivity|].
  apply (AddRegexStep_registers re (Demo.quiet "rain" []) Samples.world).
  reflexivity.
Defined.

Lemma AddStep_registers_witness :
  exists re,
    Compile "it rains" = Some re /\
    exists w' more,
      AddStep "it rains" (Demo.quiet "rain" []) Samples.world = (Done tt, w') /\
      steps (suite w')
      = steps (suite Samples.world) ++ {| expr := re; f := Demo.quiet "rain" [] |} :: more /\
      forall text, MatchString re text = true -> findStepDef (suite w') text <> None.
Proof.
  destruct (Compile "it rains") as [re|] eqn:Hre; [|vm_compute in Hre; discriminate].
  exists re. split; [reflexivity|].
  apply (AddStep_registers "it rains" (Demo.quiet "rain" []) Samples.world re).
  - reflexivity.
  - exact Hre.
Defined.

Lemma AddStep_keeps_resolution_witness :
  findStepDef (suite (snd (AddStep "add (.*) and (.*)" (Demo.quiet "any" [TString; TString])
                             Samples.world))) "add 1 and 2" <> None.
Proof.
  apply (AddStep_keeps_resolution "add (.*) and (.*)" (Demo.quiet "any" [TString; TString])
           Samples.world "add 1 and 2").
  vm_compute. discriminate.
Defined.

Lemma failed_registration_blocks_Run_witness :
  exists w1,
    AddStep "({int}" (Demo.quiet "broken" [TInt]) Samples.world = (Done tt, w1) /\
    steps (suite w1) = steps (suite Samples.world) /\
    hasStepErrors (suite w1) = true /\
    tests w1 = tests (markFailed (t (suite Samples.world)) Samples.world) /\
    forall docs,
      exists w2,
        Run docs w1 = (Goexit, w2) /\
        trace w2 = trace Samples.world /\
        tests w2 = tests w1 /\
        suite w2 = suite w1.
Proof.
  apply (failed_registration_blocks_Run "({int}" (Demo.quiet "broken" [TInt]) Samples.world).
  right. vm_compute. reflexivity.
Defined.

Lemma AddParameterTypes_accumulates_witness :
  exists w',
    AddParameterTypes "{color}" ["(red|green)"; "(blue)"] Samples.world = (Done tt, w') /\
    fragmentsOf "{color}" (parameterTypes (suite w'))
    = fragmentsOf "{color}" (parameterTypes (suite Samples.world))
        ++ ["(red|green)"; "(blue)"] /\
    (forall k, k <> "{color}" ->
               fragmentsOf k (parameterTypes (suite w'))
               = fragmentsOf k (parameterTypes (suite Samples.world))) /\
    (forall e t0, In t0 ["(red|green)"; "(blue)"] -> Strings.Contains e "{color}" = true ->
                  In (Strings.ReplaceAll e "{color}" t0) (applyParameterTypes (suite w') e)) /\
    steps (suite w') = steps (suite Samples.world) /\ tests w' = tests Samples.world.
Proof.
  apply (AddParameterTypes_accumulates "{color}" ["(red|green)"; "(blue)"] Samples.world).
  repeat constructor; vm_compute; discriminate.
Defined.

Lemma AddParameterTypes_stops_at_bad_fragment_witness :
  exists w',
    AddParameterTypes "{color}" (["(red)"] ++ "(green" :: ["(blue)"]) Samples.world
    = (Goexit, w') /\
    fragmentsOf "{color}" (parameterTypes (suite w'))
    = fragmentsOf "{color}" (parameterTypes (suite Samples.world)) ++ ["(red)"] /\
    tests w' = tests (markFailed (t (suite Samples.world)) Samples.world) /\
    trace w' = trace Samples.world.
Proof.
  apply (AddParameterTypes_stops_at_bad_fragment "{color}" ["(red)"] "(green" ["(blue)"]
           Samples.world).
  - repeat constructor; vm_compute; discriminate.
  - vm_compute. reflexivity.
Defined.


(** What the step leaves: the record, and the value under [cats] *)
Example returning_handler_stores :
  exists w',
    (formatStep Cases.ctx ;; runStep Cases.ctx Samples.root (Samples.step "I have 7 cats"))
      Cases.started
    = (Done (stepRecord (Samples.step "I have 7 cats") "passed"), w') /\
    content Cases.ctx w' !! UserKey "cats" = Some (VInt 7) /\
    tests w' = [{| failed := false; skipped := false |};
                {| failed := false; skipped := false |}].
Proof. eexists. split; [vm_compute; reflexivity|]. split; vm_compute; reflexivity. Qed.

(** The step "it gives up": the handler calls [t.FailNow]. *)
Lemma step_with_handler_that_fails_now_witness :
  exists def,
    findStepDef (suite Cases.started) "it gives up" = Some def /\
    let step := Samples.step "it gives up" in
    let sub := subTest Samples.root Cases.started in
    let args := callArgs def Cases.ctx sub (captures def (Msgs.Step_Text step)) in
    exists w',
      (formatStep Cases.ctx ;; runStep Cases.ctx Samples.root step) Cases.started
      = (Done (stepRecord step "passed"), w') /\
      tests w' !! length (tests Cases.started) = Some {| failed := true; skipped := false |} /\
      trace w' = trace Cases.started
                 ++ hookCalls BeforeStep (beforeStep (options (suite Cases.started)))
                 ++ [HandlerCall (fname (f def)) args]
                 ++ hookCalls AfterStep (afterStep (options (suite Cases.started))) /\
      suite w' = suite Cases.started /\
      runSteps Cases.ctx Samples.root (step :: [Samples.step "it complains"]) zeroScenario
        Cases.started
      = runSteps Cases.ctx Samples.root [Samples.step "it complains"]
          (Cucumber.AddStepObj zeroScenario (stepRecord step "passed")) w'.
Proof.
  destruct (findStepDef (suite Cases.started) "it gives up") as [def|] eqn:Hdef;
    [|vm_compute in Hdef; discriminate].
  exists def. split; [reflexivity|].
  assert (Hd := Hdef). vm_compute in Hd. injection Hd as Hd.
  apply (step_with_handler_that_fails_now Cases.ctx Samples.root (Samples.step "it gives up")
           [Samples.step "it complains"] zeroScenario Cases.started def).
  - exact Hdef.
  - rewrite <- Hd. vm_compute. reflexivity.
  - rewrite <- Hd. vm_compute. reflexivity.
  - rewrite <- Hd. vm_compute. reflexivity.
Defined.

(** The step "I see 2 dogs": one capture for a handler that takes two. *)
Lemma step_with_wrong_number_of_captures_witness :
  exists def,
    findStepDef (suite Cases.started) "I see 2 dogs" = Some def /\
    let step := Samples.step "I see 2 dogs" in
    exists w',
      (formatStep Cases.ctx ;; runStep Cases.ctx Samples.root step) Cases.started
      = (Done (stepRecord step "passed"), w') /\
      tests w' !! length (tests Cases.started) = Some {| failed := true; skipped := false |} /\
      trace w' = trace Cases.started
                 ++ hookCalls BeforeStep (beforeStep (options (suite Cases.started)))
                 ++ hookCalls AfterStep (afterStep (options (suite Cases.started))) /\
      suite w' = suite Cases.started /\
      runSteps Cases.ctx Samples.root (step :: [Samples.step "it complains"]) zeroScenario
        Cases.started
      = runSteps Cases.ctx Samples.root [Samples.step "it complains"]
          (Cucumber.AddStepObj zeroScenario (stepRecord step "passed")) w'.
Proof.
  destruct (findStepDef (suite Cases.started) "I see 2 dogs") as [def|] eqn:Hdef;
    [|vm_compute in Hdef; discriminate].
  exists def. split; [reflexivity|].
  assert (Hd := Hdef). vm_compute in Hd. injection Hd as Hd.
  apply (step_with_wrong_number_of_captures Cases.ctx Samples.root
           (Samples.step "I see 2 dogs") [Samples.step "it complains"] zeroScenario
           Cases.started def).
  - exact Hdef.
  - rewrite <- Hd. vm_compute. lia.
Defined.

(** The step "it is late": the capture is passed as bytes to a parameter
    of another kind. *)
Lemma step_with_argument_that_does_not_fit_witness :
  exists def,
    findStepDef (suite Cases.started) "it is late" = Some def /\
    let step := Samples.step "it is late" in
    exists w',
      (formatStep Cases.ctx ;; runStep Cases.ctx Samples.root step) Cases.started
      = (Done (stepRecord step "failed"), w') /\
      tests w' !! length (tests Cases.started) = Some {| failed := true; skipped := false |} /\
      trace w' = trace Cases.started
                 ++ hookCalls BeforeStep (beforeStep (options (suite Cases.started)))
                 ++ hookCalls AfterStep (afterStep (options (suite Cases.started))) /\
      suite w' = suite Cases.started /\
      runSteps Cases.ctx Samples.root (step :: [Samples.step "it complains"]) zeroScenario
        Cases.started
      = runSteps Cases.ctx Samples.root [Samples.step "it complains"]
          (Cucumber.AddStepObj zeroScenario (stepRecord step "failed")) w'.
Proof.
  destruct (findStepDef (suite Cases.started) "it is late") as [def|] eqn:Hdef;
    [|vm_compute in Hdef; discriminate].
  exists def. split; [reflexivity|].
  assert (Hd := Hdef). vm_compute in Hd. injection Hd as Hd.
  apply (step_with_argument_that_does_not_fit Cases.ctx Samples.root
           (Samples.step "it is late") [Samples.step "it complains"] zeroScenario
           Cases.started def).
  - exact Hdef.
  - rewrite <- Hd. vm_compute. reflexivity.
  - rewrite <- Hd. vm_compute. reflexivity.
Defined.

(** The step "it complains": the handler reports an error and returns. *)
Lemma resolved_step_always_returns_witness :
  exists def,
    findStepDef (suite Cases.started) "it complains" = Some def /\
    let step := Samples.step "it complains" in
    exists status calls w',
      (formatStep Cases.ctx ;; runStep Cases.ctx Samples.root step) Cases.started
      = (Done (stepRecord step status), w') /\
      (status = "passed" \/ status = "failed" \/ status = "skipped") /\
      (calls = [] \/
       calls = [HandlerCall (fname (f def))
                  (callArgs def Cases.ctx (subTest Samples.root Cases.started)
                     (captures def (Msgs.Step_Text step)))]) /\
      trace w' = trace Cases.started
                 ++ hookCalls BeforeStep (beforeStep (options (suite Cases.started)))
                 ++ calls ++ hookCalls AfterStep (afterStep (options (suite Cases.started))) /\
      suite w' = suite Cases.started /\
      runSteps Cases.ctx Samples.root (step :: []) zeroScenario Cases.started
      = runSteps Cases.ctx Samples.root []
          (Cucumber.AddStepObj zeroScenario (stepRecord step status)) w'.
Proof.
  destruct (findStepDef (suite Cases.started) "it complains") as [def|] eqn:Hdef;
    [|vm_compute in Hdef; discriminate].
  exists def. split; [reflexivity|].
  apply (resolved_step_always_returns Cases.ctx Samples.root (Samples.step "it complains")
           [] zeroScenario Cases.started def).
  exact Hdef.
Defined.


Example scenario_with_background_runs :
  exists record w',
    runScenario Samples.ctx Cases.scenario (Some Cases.background) Samples.root Samples.started
    = (Done record, w') /\
    map (fun st => (Cucumber.Step_Name st, Cucumber.RunStatus (Cucumber.StepResult st)))
        (Cucumber.Steps record)
    = [("add 1 and 2", "passed"); ("it explodes", "failed")].
Proof. do 2 eexists. split; [vm_compute; reflexivity | reflexivity]. Qed.

Lemma scenario_steps_work_on_a_clone_witness :
  content Samples.ctx
    (snd (runScenario Samples.ctx Cases.scenario None Samples.root Samples.started))
  = <[TestingTKey := VNil]>
      (afterHooks (afterScenario (options (suite Samples.started)))
         (afterHooks (beforeScenario (options (suite Samples.started)))
            (<[TestingTKey := VTestingT (subTest Samples.root Samples.started)]>
               (content Samples.ctx Samples.started)))).
Proof.
  apply (scenario_steps_work_on_a_clone Samples.ctx Cases.scenario Samples.root
           Samples.started).
  reflexivity.
Defined.

(** The scenario [Samples.gapScenario], whose second step does not
    resolve: the scenario hooks run all the same. *)
Lemma scenario_hooks_surround_the_steps_witness :
  exists middle,
    trace (snd (runScenario Samples.ctx Samples.gapScenario (Some Cases.background)
                  Samples.root Samples.started))
    = trace Samples.started
        ++ hookCalls BeforeScenario (beforeScenario (options (suite Samples.started)))
        ++ middle
        ++ hookCalls AfterScenario (afterScenario (options (suite Samples.started))) /\
    Forall stepEvent middle.
Proof.
  apply (scenario_hooks_surround_the_steps Samples.ctx Samples.gapScenario
           (Some Cases.background) Samples.root Samples.started).
  reflexivity.
Defined.

Lemma feature_without_outlines_returns_witness :
  exists r w',
    runFeature Cases.feature Samples.world = (Done r, w') /\
    Forall2 recordOf (scenariosOf (Msgs.Feature_Children Cases.feature))
            (Cucumber.Elements r) /\
    Cucumber.Feature_Name r = Msgs.Feature_Name Cases.feature /\
    suite w' = suite Samples.world.
Proof.
  apply (feature_without_outlines_returns Cases.feature Samples.world).
  - intros (tag & [] & _).
  - repeat constructor.
Defined.

(** The elements of the record of [Cases.feature]: the scenario that ran,
    the skipped one, and the one that ended at its unresolved step. *)
Example feature_elements :
  exists r w',
    runFeature Cases.feature Samples.world = (Done r, w') /\
    map (fun el => (Cucumber.Scenario_Name el,
                    map (fun st => Cucumber.RunStatus (Cucumber.StepResult st))
                        (Cucumber.Steps el)))
        (Cucumber.Elements r)
    = [("sum", ["passed"; "failed"]); ("ignored", ["skipped"]); ("gap", [])].
Proof. do 2 eexists. split; [vm_compute; reflexivity | reflexivity]. Qed.


(** One outline step and one table of two rows *)
Lemma outline_with_one_table_witness :
  exists w',
    getOutlineStep [Samples.step "add <a> and <b>"]
      [Samples.table [["1"; "2"]; ["3"; "4"]]] Samples.world
    = (Done (flat_map
               (fun row => map (fun st => instance st
                                            (Samples.table [["1"; "2"]; ["3"; "4"]], row))
                             [Samples.step "add <a> and <b>"])
               (Msgs.TableBody (Samples.table [["1"; "2"]; ["3"; "4"]]))), w') /\
    extends Samples.world w'.
Proof.
  apply (outline_with_one_table [Samples.step "add <a> and <b>"]
           (Samples.table [["1"; "2"]; ["3"; "4"]]) Samples.world).
  repeat constructor;
    (eexists; eexists; split; [vm_compute; reflexivity | vm_compute; discriminate]).
Defined.

(** Two tables of one row each: the row of the second table is not run,
    the row of the first is run twice. *)
Lemma outline_tables_count_rows_from_the_first_witness :
  exists w',
    getOutlineStep [Samples.step "add <a> and <b>"]
      [Samples.table [["1"; "2"]]; Samples.table [["3"; "4"]]] Samples.world
    = (Done (flat_map
               (fun row => map (fun st => instance st (Samples.table [["1"; "2"]], row))
                             [Samples.step "add <a> and <b>"])
               (Msgs.TableBody (Samples.table [["1"; "2"]]))
             ++ flat_map (fun p => map (fun st => instance st p)
                                     [Samples.step "add <a> and <b>"])
                  (take (length (Msgs.TableBody (Samples.table [["3"; "4"]])))
                     (map (pair (Samples.table [["1"; "2"]]))
                        (Msgs.TableBody (Samples.table [["1"; "2"]]))
                      ++ map (pair (Samples.table [["3"; "4"]]))
                           (Msgs.TableBody (Samples.table [["3"; "4"]]))))), w') /\
    extends Samples.world w'.
Proof.
  apply (outline_tables_count_rows_from_the_first [Samples.step "add <a> and <b>"]
           (Samples.table [["1"; "2"]]) (Samples.table [["3"; "4"]]) Samples.world).
  repeat constructor;
    (eexists; eexists; split; [vm_compute; reflexivity | vm_compute; discriminate]).
Defined.

(** The outline of [Samples.world] with two rows, behind a background *)
Lemma outline_scenario_runs_every_row_witness :
  let sc := Samples.scenario "sums" [] [Samples.step "add <a> and <b>"]
              [Samples.table [["1"; "2"]; ["3"; "4"]]] in
  let ex := Samples.table [["1"; "2"]; ["3"; "4"]] in
  exists record w',
    runScenario Samples.ctx sc (Some Cases.background) Samples.root Samples.started
    = (Done record, w') /\
    map Cucumber.Step_Name (Cucumber.Steps record)
    = map Msgs.Step_Text
        (flat_map (fun row => map (fun st => instance st (ex, row)) (Msgs.Scenario_Steps sc))
           (Msgs.TableBody ex)) /\
    Forall knownStatus (Cucumber.Steps record) /\
    Cucumber.withSteps record [] = Cucumber.FormatScenario sc /\
    extends Samples.started w'.
Proof.
  intros sc ex.
  apply (outline_scenario_runs_every_row Samples.ctx sc ex (Some Cases.background)
           Samples.root Samples.started).
  - reflexivity.
  - repeat constructor; vm_compute; discriminate.
  - repeat constructor;
      (eexists; eexists; split; [vm_compute; reflexivity | vm_compute; discriminate]).
Defined.

Example outline_scenario_records :
  exists record w',
    runScenario Samples.ctx
      (Samples.scenario "sums" [] [Samples.step "add <a> and <b>"]
         [Samples.table [["1"; "2"]; ["3"; "4"]]])
      (Some Cases.background) Samples.root Samples.started
    = (Done record, w') /\
    map (fun st => (Cucumber.Step_Name st, Cucumber.RunStatus (Cucumber.StepResult st)))
        (Cucumber.Steps record)
    = [("add 1 and 2", "passed"); ("add 3 and 4", "passed")].
Proof. do 2 eexists. split; [vm_compute; reflexivity | reflexivity]. Qed.

Example second_table_repeats_the_first :
  map Msgs.Step_Text
    (outlineSteps [Samples.step "add <a> and <b>"]
       [Samples.table [["1"; "2"]]; Samples.table [["3"; "4"]]])
  = ["add 1 and 2"; "add 1 and 2"].
Proof. vm_compute. reflexivity. Qed.
